(** * Self-diagnosing communication link: simulator and diagnostic engine

    A shallow embedding of the link simulator ([CommLinkSimulator.step]),
    the window aggregator ([windowFrom]) and the rule-based diagnostic engine
    ([DiagnosticEngine.diagnose]) of [src/app.js], with the properties the
    specification states about them.

    Numbers.  A JavaScript number is modelled by [num]: a rational, one of
    the two infinities, or NaN.  Arithmetic on rationals is exact: the
    rounding of IEEE doubles is outside the model, and so is the sign of
    zero; overflow is modelled where it arises, in the simulator.  NaN and
    the infinities follow IEEE: NaN is absorbing, every comparison with NaN
    is false, a non-zero number divided by zero is an infinity.

    The simulator is modelled twice.  [step] computes on reals ([Q]): it is
    the simulator as long as no intermediate result leaves the range of a
    double.  [Binary64.step] is the same code with that range: a result of
    magnitude [2 ^ 1024] or more is an infinity, and the NaN that infinities
    give rise to is carried to the sample.

    Randomness.  [Math.random], [randn] and the loop of [poisson] read a
    random source [rng]: three tapes and a cursor.  Every outcome of the
    draws is some tape. *)

From Stdlib Require Import QArith Qminmax Qround Qabs Lqa.
From Stdlib Require Import ZArith Lia List Ascii String Bool.
From Stdlib Require Import Sorted Permutation.
Import ListNotations.

Open Scope string_scope.
Open Scope Q_scope.

(** ** JavaScript numbers *)

Definition Qltb (x y : Q) : bool :=
  match x ?= y with Lt => true | _ => false end.

Module JS.

Inductive num : Type :=
| NaN
| NegInf
| PosInf
| Fin (q : Q).

(** [a < b] *)
Definition ltb (a b : num) : bool :=
  match a, b with
  | NaN, _ | _, NaN => false
  | _, NegInf => false
  | NegInf, _ => true
  | PosInf, _ => false
  | Fin _, PosInf => true
  | Fin x, Fin y => Qltb x y
  end.

(** [a <= b] *)
Definition leb (a b : num) : bool :=
  match a, b with
  | NaN, _ | _, NaN => false
  | NegInf, _ => true
  | _, PosInf => true
  | _, NegInf => false
  | PosInf, _ => false
  | Fin x, Fin y => Qle_bool x y
  end.

(** [a > b] and [a >= b] *)
Definition gtb (a b : num) : bool := ltb b a.
Definition geb (a b : num) : bool := leb b a.

Definition add (a b : num) : num :=
  match a, b with
  | NaN, _ | _, NaN => NaN
  | PosInf, NegInf | NegInf, PosInf => NaN
  | PosInf, _ | _, PosInf => PosInf
  | NegInf, _ | _, NegInf => NegInf
  | Fin x, Fin y => Fin (x + y)
  end.

Definition sub (a b : num) : num :=
  match a, b with
  | NaN, _ | _, NaN => NaN
  | PosInf, PosInf | NegInf, NegInf => NaN
  | PosInf, _ | _, NegInf => PosInf
  | NegInf, _ | _, PosInf => NegInf
  | Fin x, Fin y => Fin (x - y)
  end.

(** An infinity times the rational [q]: NaN when [q] is zero, else the
    infinity whose sign is the product of the signs ([positive] is the sign
    of the infinity). *)
Definition scale_inf (positive : bool) (q : Q) : num :=
  if Qeq_bool q 0 then NaN
  else if Bool.eqb positive (Qltb 0 q) then PosInf else NegInf.

Definition mul (a b : num) : num :=
  match a, b with
  | NaN, _ | _, NaN => NaN
  | PosInf, PosInf | NegInf, NegInf => PosInf
  | PosInf, NegInf | NegInf, PosInf => NegInf
  | PosInf, Fin q | Fin q, PosInf => scale_inf true q
  | NegInf, Fin q | Fin q, NegInf => scale_inf false q
  | Fin x, Fin y => Fin (x * y)
  end.

Definition div (a b : num) : num :=
  match a, b with
  | NaN, _ | _, NaN => NaN
  | (PosInf | NegInf), (PosInf | NegInf) => NaN
  | PosInf, Fin q => if Qltb q 0 then NegInf else PosInf
  | NegInf, Fin q => if Qltb q 0 then PosInf else NegInf
  | Fin _, (PosInf | NegInf) => Fin 0
  | Fin x, Fin y =>
      if Qeq_bool y 0 then scale_inf true x else Fin (x / y)
  end.

(** [Math.min(a, b)] and [Math.max(a, b)]: NaN when an argument is NaN. *)
Definition Math_min (a b : num) : num :=
  match a, b with
  | NaN, _ | _, NaN => NaN
  | _, _ => if ltb b a then b else a
  end.

Definition Math_max (a b : num) : num :=
  match a, b with
  | NaN, _ | _, NaN => NaN
  | _, _ => if ltb a b then b else a
  end.

(** [Math.round(a)]: the integer nearest to [a], halves going up. *)
Definition Math_round (a : num) : num :=
  match a with
  | Fin q => Fin (inject_Z (Qfloor (q + (1 # 2))))
  | _ => a
  end.

(** [Math.sqrt] on the values that have a rational root is left to the
    platform; only its behaviour outside the reals is fixed here. *)
Definition Math_sqrt (root : Q -> Q) (a : num) : num :=
  match a with
  | NaN | NegInf => NaN
  | PosInf => PosInf
  | Fin q => if Qltb q 0 then NaN else Fin (root q)
  end.

(** The same number: equal rationals are the same number whatever the
    fraction that writes them. *)
Definition same (a b : num) : Prop :=
  match a, b with
  | NaN, NaN | NegInf, NegInf | PosInf, PosInf => True
  | Fin x, Fin y => x == y
  | _, _ => False
  end.

(** *** Truthiness ([ToBoolean]) *)

Class ToBoolean (A : Type) : Type := to_boolean : A -> bool.

(** An array is an object, and every object is truthy, the empty array
    included. *)
#[export] Instance array_ToBoolean {A : Type} : ToBoolean (list A) :=
  fun _ => true.

(** A number is falsy when it is zero or NaN. *)
#[export] Instance num_ToBoolean : ToBoolean num :=
  fun a => match a with
           | NaN => false
           | Fin q => negb (Qeq_bool q 0)
           | _ => true
           end.

(** A string is falsy when it is empty. *)
#[export] Instance string_ToBoolean : ToBoolean string :=
  fun s => negb (String.eqb s EmptyString).

(** [undefined] (here [None]) is falsy. *)
#[export] Instance undefined_ToBoolean {A : Type} `{ToBoolean A} :
  ToBoolean (option A) :=
  fun o => match o with Some a => to_boolean a | None => false end.

(** [a || b], where [a] may be [undefined]. *)
Definition or_else {A : Type} `{ToBoolean A} (a : option A) (b : A) : A :=
  match a with
  | Some v => if to_boolean v then v else b
  | None => b
  end.

(** [arr.length] *)
Definition array_length {A : Type} (arr : list A) : num :=
  Fin (inject_Z (Z.of_nat (List.length arr))).

(** [arr.push(x)] *)
Definition push {A : Type} (arr : list A) (x : A) : list A :=
  (arr ++ [x])%list.

(** [arr.sort(cmp)].  The sort of an array is stable, and [x] goes after
    [y] exactly when [cmp(x, y) > 0]; an insertion sort that moves an
    element only past those it must follow is such a sort. *)
Section Sort.
Context {A : Type} (cmp : A -> A -> num).

Fixpoint sort_insert (x : A) (sorted : list A) : list A :=
  match sorted with
  | [] => [x]
  | y :: rest =>
      if gtb (cmp x y) (Fin 0) then y :: sort_insert x rest
      else x :: sorted
  end.

Fixpoint sort (arr : list A) : list A :=
  match arr with
  | [] => []
  | x :: rest => sort_insert x (sort rest)
  end.
End Sort.

(** [arr.slice(-n)]: the last [n] elements, and the whole array when [n]
    is zero, since [-0] is [0]. *)
Definition slice_last {A : Type} (n : nat) (arr : list A) : list A :=
  match n with
  | O => arr
  | _ => skipn (List.length arr - n) arr
  end.

(** What a call gives: a value, or an exception. *)
Inductive completion (A : Type) : Type :=
| Returns (a : A)
| Throws (error : string).
Arguments Returns {A} a.
Arguments Throws {A} error.

End JS.

Import JS.

Declare Scope js_scope.
Delimit Scope js_scope with js.
Bind Scope js_scope with num.
Infix "+" := JS.add : js_scope.
Infix "-" := JS.sub : js_scope.
Infix "*" := JS.mul : js_scope.
Infix "/" := JS.div : js_scope.
Infix "<" := JS.ltb : js_scope.
Infix "<=" := JS.leb : js_scope.
Infix ">" := JS.gtb : js_scope.
Infix ">=" := JS.geb : js_scope.

(** ** Root causes, evidence, window statistics *)

Inductive RootCause : Type :=
| HEALTHY
| NOISE_SPIKE
| WIDEBAND_JAMMER
| SYNC_LOSS
| CONGESTION
| FADING
| UNKNOWN.

(** The string each member of [RootCause] stands for. *)
Definition RootCause_tag (c : RootCause) : string :=
  match c with
  | HEALTHY => "healthy"
  | NOISE_SPIKE => "noise_spike"
  | WIDEBAND_JAMMER => "wideband_jammer"
  | SYNC_LOSS => "sync_loss"
  | CONGESTION => "congestion"
  | FADING => "fading"
  | UNKNOWN => "unknown"
  end.

Definition RootCause_eqb (a b : RootCause) : bool :=
  String.eqb (RootCause_tag a) (RootCause_tag b).

(** The place of a cause in the order the rules are written in. *)
Definition rule_order (c : RootCause) : nat :=
  match c with
  | HEALTHY => 0
  | NOISE_SPIKE => 1
  | WIDEBAND_JAMMER => 2
  | SYNC_LOSS => 3
  | CONGESTION => 4
  | FADING => 5
  | UNKNOWN => 6
  end.

Record WindowStats : Type := {
  snr_mean : num;
  snr_std : num;
  ber_mean : num;
  ber_max : num;
  latency_mean : num;
  retries_mean : num;
}.

Record Evidence : Type := {
  root_cause : RootCause;
  score : num;
  explanation : string;
}.

(** A template literal: its text and its formatted numbers, in order. *)
Inductive fragment : Type :=
| Text (s : string)
| Number (x : num)
| toFixed (x : num) (digits : nat)
| toExponential (x : num) (digits : nat).

Record Diagnosis : Type := {
  primary_cause : RootCause;
  confidence : num;
  ranked_causes : list (RootCause * num);
  diagnosis_explanation : list fragment;
  contributing_rules : list Evidence;
  suggested_actions : list string;
}.

(** ** Objects keyed by root cause

    [scores] is a plain object whose keys are root-cause strings; its
    entries are enumerated in the order the keys were first written. *)

Definition object : Type := list (RootCause * num).

Fixpoint get (o : object) (k : RootCause) : option num :=
  match o with
  | [] => None
  | (k', v) :: rest => if RootCause_eqb k k' then Some v else get rest k
  end.

Fixpoint set (o : object) (k : RootCause) (v : num) : object :=
  match o with
  | [] => [(k, v)]
  | (k', v') :: rest =>
      if RootCause_eqb k k' then (k, v) :: rest else (k', v') :: set rest k v
  end.

Definition Object_keys (o : object) : list RootCause := map fst o.
Definition Object_values (o : object) : list num := map snd o.
Definition Object_entries (o : object) : list (RootCause * num) := o.

(** [arr.reduce((a, b) => a + b, 0)] *)
Definition sum (arr : list num) : num := fold_left add arr (Fin 0).

(** [strs.join(" ")] *)
Fixpoint join (strs : list string) : string :=
  match strs with
  | [] => ""
  | [s] => s
  | s :: rest => s ++ " " ++ join rest
  end.

(** [s.replace(/_/g, " ")] *)
Fixpoint replace_underscores (s : string) : string :=
  match s with
  | EmptyString => EmptyString
  | String c rest =>
      String (if Ascii.eqb c "_"%char then " "%char else c) (replace_underscores rest)
  end.

(** ** The diagnostic engine *)

Record DiagnosticEngine : Type := {
  good_snr_db : num;
  moderate_snr_db : num;
  bad_snr_db : num;
  good_ber : num;
  moderate_ber : num;
  bad_ber : num;
  latency_warn_ms : num;
  latency_bad_ms : num;
  retries_warn : num;
  retries_bad : num;
}.

(** [new DiagnosticEngine()] *)
Definition new_DiagnosticEngine : DiagnosticEngine := {|
  good_snr_db := Fin 20.0;
  moderate_snr_db := Fin 12.0;
  bad_snr_db := Fin 8.0;
  good_ber := Fin 0.00001;
  moderate_ber := Fin 0.001;
  bad_ber := Fin 0.01;
  latency_warn_ms := Fin 80.0;
  latency_bad_ms := Fin 160.0;
  retries_warn := Fin 1.0;
  retries_bad := Fin 3.0;
|}.

Section Diagnose.
Variable this : DiagnosticEngine.
Variable window : WindowStats.

Local Open Scope js_scope.

(** The six rule predicates, as the conditions of the six [if]s. *)
Definition healthy_rule : bool :=
  (snr_mean window > good_snr_db this) &&
  (ber_max window < good_ber this) &&
  (latency_mean window < latency_warn_ms this) &&
  (retries_mean window <= retries_warn this).

Definition noise_spike_rule : bool :=
  (snr_mean window < good_snr_db this) &&
  (snr_std window > Fin 1.5) &&
  (ber_max window > moderate_ber this) &&
  (latency_mean window < latency_bad_ms this).

Definition wideband_jammer_rule : bool :=
  (snr_mean window < moderate_snr_db this) &&
  (ber_mean window > moderate_ber this) &&
  (retries_mean window >= retries_warn this).

Definition sync_loss_rule : bool :=
  (ber_max window > Fin 0.05) &&
  (snr_mean window >= moderate_snr_db this).

Definition congestion_rule : bool :=
  (latency_mean window > latency_warn_ms this) &&
  (retries_mean window > retries_warn this) &&
  (snr_mean window > bad_snr_db this).

Definition fading_rule : bool :=
  (snr_mean window < good_snr_db this) &&
  (snr_std window > Fin 2.0) &&
  (ber_mean window > good_ber this) &&
  (latency_mean window < latency_bad_ms this).

(** The evidence each rule pushes when it fires. *)
Definition healthy_evidence : Evidence := {|
  root_cause := HEALTHY;
  score := Fin 1.0;
  explanation := "SNR, BER, latency, and retries are nominal.";
|}.

Definition noise_spike_evidence : Evidence :=
  let severity :=
    Math_min (Fin 1.0) ((good_snr_db this - snr_mean window) / Fin 10.0) in
  {| root_cause := NOISE_SPIKE;
     score := Fin 0.4 + Fin 0.6 * severity;
     explanation := "Volatile SNR dips with BER bursts and modest latency suggest impulsive noise."; |}.

Definition wideband_jammer_evidence : Evidence :=
  let jammer_strength :=
    Math_min (Fin 1.0) ((moderate_snr_db this - snr_mean window) / Fin 8.0) in
  {| root_cause := WIDEBAND_JAMMER;
     score := Fin 0.5 + Fin 0.5 * jammer_strength;
     explanation := "Persistently poor SNR with high BER and retries indicates strong interference/jamming."; |}.

Definition sync_loss_evidence : Evidence :=
  let outage_severity :=
    Math_min (Fin 1.0) ((ber_max window - Fin 0.05) / Fin 0.25) in
  {| root_cause := SYNC_LOSS;
     score := Fin 0.6 + Fin 0.4 * outage_severity;
     explanation := "Very high BER while RF SNR is acceptable points to framing/sync loss."; |}.

Definition congestion_evidence : Evidence :=
  let cong_level :=
    Math_min (Fin 1.0) ((latency_mean window - latency_warn_ms this) / Fin 120.0) in
  {| root_cause := CONGESTION;
     score := Fin 0.4 + Fin 0.6 * cong_level;
     explanation := "High latency and retries with tolerable RF conditions suggest congestion."; |}.

Definition fading_evidence : Evidence :=
  let fade_level := Math_min (Fin 1.0) (snr_std window / Fin 5.0) in
  {| root_cause := FADING;
     score := Fin 0.3 + Fin 0.7 * fade_level;
     explanation := "Significant SNR fluctuations with elevated BER and modest latency hint at fading."; |}.

Definition fallback_healthy_evidence : Evidence := {|
  root_cause := HEALTHY;
  score := Fin 0.8;
  explanation := "No anomaly signatures; link appears healthy.";
|}.

Definition unknown_evidence : Evidence := {|
  root_cause := UNKNOWN;
  score := Fin 1.0;
  explanation := "Patterns do not clearly match any known rule set.";
|}.

(** The array [evidences] after the six rules. *)
Definition rule_evidences : list Evidence :=
  let evidences := [] in
  let evidences :=
    if healthy_rule then push evidences healthy_evidence else evidences in
  let evidences :=
    if noise_spike_rule then push evidences noise_spike_evidence
    else evidences in
  let evidences :=
    if wideband_jammer_rule then push evidences wideband_jammer_evidence
    else evidences in
  let evidences :=
    if sync_loss_rule then push evidences sync_loss_evidence
    else evidences in
  let evidences :=
    if congestion_rule then push evidences congestion_evidence
    else evidences in
  let evidences :=
    if fading_rule then push evidences fading_evidence else evidences in
  evidences.

(** The loop [for (const ev of evidences) scores[ev.root_cause] =
    (scores[ev.root_cause] || 0) + ev.score]. *)
Definition accumulate (scores : object) (ev : Evidence) : object :=
  set scores (root_cause ev)
    (or_else (get scores (root_cause ev)) (Fin 0) + score ev).

Definition rule_scores (evidences : list Evidence) : object :=
  fold_left accumulate evidences [].

(** The guard of the second healthy branch:
    [!evidences && window.ber_max < this.moderate_ber &&
     window.snr_mean > this.good_snr_db]. *)
Definition healthy_fallback_guard (evidences : list Evidence) : bool :=
  negb (to_boolean evidences) &&
  (ber_max window < moderate_ber this) &&
  (snr_mean window > good_snr_db this).

(** [scores] and [evidences] after the two fallback branches. *)
Definition with_fallbacks : object * list Evidence :=
  let evidences := rule_evidences in
  let scores := rule_scores evidences in
  let '(scores, evidences) :=
    if healthy_fallback_guard evidences
    then (set scores HEALTHY (Fin 0.8),
          push evidences fallback_healthy_evidence)
    else (scores, evidences) in
  if Nat.eqb (List.length (Object_keys scores)) 0
  then (set scores UNKNOWN (Fin 1.0), push evidences unknown_evidence)
  else (scores, evidences).

(** [total] and [ranked]. *)
Definition total (scores : object) : num := sum (Object_values scores).

Definition ranked (scores : object) : list (RootCause * num) :=
  sort (fun a b => snd b - snd a)
    (map (fun '(k, v) => (k, v / total scores)) (Object_entries scores)).

Definition _buildExplanation (cause : RootCause) (confidence : num)
    (evidences : list Evidence) : list fragment :=
  let confPct := Math_round (confidence * Fin 100) in
  if RootCause_eqb cause HEALTHY then
    [Text "Link appears healthy (SNR ≈ "; toFixed (snr_mean window) 1;
     Text " dB, BER max ≈ "; toExponential (ber_max window) 2;
     Text ", latency ≈ "; toFixed (latency_mean window) 0;
     Text " ms, retries ≈ "; toFixed (retries_mean window) 1;
     Text "). Confidence "; Number confPct; Text "%."]
  else
    let base :=
      [Text "Most likely root cause: ";
       Text (replace_underscores (RootCause_tag cause));
       Text " (confidence "; Number confPct; Text "%). "] in
    let reasons :=
      join (map explanation
              (filter (fun ev => RootCause_eqb (root_cause ev) cause)
                 evidences)) in
    (base ++
     [Text (if to_boolean reasons then reasons
            else "Metric patterns weakly indicate this condition.")])%list.

Definition _suggestActions (cause : RootCause) : list string :=
  match cause with
  | HEALTHY =>
      ["No immediate action required. Continue monitoring for emerging anomalies."]
  | NOISE_SPIKE =>
      ["Check grounding/shielding to reduce impulsive noise coupling.";
       "Inspect nearby equipment for intermittent high-power emissions.";
       "Increase error-correction strength or interleaving depth if possible."]
  | WIDEBAND_JAMMER =>
      ["Evaluate spectral environment and locate strong interferers.";
       "Switch to an alternate channel or band if available.";
       "Apply filtering/notching around the interferer."]
  | SYNC_LOSS =>
      ["Verify clock stability and alignment between TX/RX.";
       "Increase preamble length or improve sync acquisition.";
       "Check for framing/configuration mismatches."]
  | CONGESTION =>
      ["Reduce offered load or apply traffic shaping.";
       "Increase buffers or enable congestion control mechanisms.";
       "Distribute traffic across additional links if possible."]
  | FADING =>
      ["Increase transmit power within limits.";
       "Enable diversity (spatial/frequency/time).";
       "Use more robust modulation/coding during deep fades."]
  | UNKNOWN =>
      ["Capture additional diagnostics to refine the hypothesis.";
       "Consider extending the rule base for newly observed patterns."]
  end.

(** [diagnose(window)].  The method reads [this] and writes nothing to
    it; the engine after the call is returned with the result.
    Destructuring [ranked[0]] throws when [ranked] is empty. *)
Definition diagnose : completion Diagnosis * DiagnosticEngine :=
  let '(scores, evidences) := with_fallbacks in
  match ranked scores with
  | [] => (Throws "TypeError: undefined is not iterable", this)
  | (primary_cause, confidence) :: _ =>
      let explanation :=
        _buildExplanation primary_cause confidence evidences in
      let suggested_actions := _suggestActions primary_cause in
      (Returns {| primary_cause := primary_cause;
                  confidence := confidence;
                  ranked_causes := ranked scores;
                  diagnosis_explanation := explanation;
                  contributing_rules := evidences;
                  suggested_actions := suggested_actions |},
       this)
  end.
End Diagnose.

(** ** The random source *)

Record rng : Type := {
  normal_tape : nat -> Q;
  uniform_tape : nat -> Q;
  poisson_tape : nat -> nat;
  cursor : nat;
}.

Definition advance (g : rng) : rng := {|
  normal_tape := normal_tape g;
  uniform_tape := uniform_tape g;
  poisson_tape := poisson_tape g;
  cursor := S (cursor g);
|}.

(** [Math.random()] is in [[0, 1)]. *)
Definition uniform_range (g : rng) : Prop :=
  forall i : nat, 0 <= uniform_tape g i /\ uniform_tape g i < 1.

(** A computation that draws from the random source. *)
Definition Rand (A : Type) : Type := rng -> A * rng.

Definition ret {A : Type} (a : A) : Rand A := fun g => (a, g).

Definition bind {A B : Type} (m : Rand A) (k : A -> Rand B) : Rand B :=
  fun g => let (a, g') := m g in k a g'.

Notation "x <- m ;; k" := (bind m (fun x => k))
  (at level 61, m at next level, right associativity).
Notation "' p <- m ;; k" := (bind m (fun x => let 'p := x in k))
  (at level 61, p pattern, m at next level, right associativity).

Definition Math_random : Rand Q :=
  fun g => (uniform_tape g (cursor g), advance g).

(** [randn()]: a standard normal deviate, a real number whatever the two
    uniform draws it is computed from. *)
Definition randn : Rand Q :=
  fun g => (normal_tape g (cursor g), advance g).

(** [poisson(lambda)]: zero when [lambda <= 0]; else [k - 1] for the
    number [k >= 1] of turns of the loop. *)
Definition poisson (lambda : Q) : Rand Q :=
  if Qle_bool lambda 0 then ret 0
  else fun g => (inject_Z (Z.of_nat (poisson_tape g (cursor g))), advance g).

(** ** The link simulator *)

Module FaultType.
Inductive t : Type :=
| NONE
| NOISE_SPIKE
| WIDEBAND_JAMMER
| SYNC_LOSS
| CONGESTION
| FADING.
End FaultType.

Record FaultConfig : Type := {
  noise_spike_level : Q;
  jammer_level : Q;
  sync_loss_prob : Q;
  congestion_level : Q;
  fading_severity : Q;
}.

(** [new FaultConfig()] *)
Definition new_FaultConfig : FaultConfig := {|
  noise_spike_level := 0.0;
  jammer_level := 0.0;
  sync_loss_prob := 0.0;
  congestion_level := 0.0;
  fading_severity := 0.0;
|}.

Record CommLinkSimulator : Type := {
  t : Z;
  baseline_snr_db : Q;
  baseline_ber : Q;
  baseline_latency_ms : Q;
  baseline_retries : Q;
  fault_config : FaultConfig;
}.

(** [new CommLinkSimulator()] *)
Definition new_CommLinkSimulator : CommLinkSimulator := {|
  t := 0;
  baseline_snr_db := 25.0;
  baseline_ber := 0.000001;
  baseline_latency_ms := 20.0;
  baseline_retries := 0;
  fault_config := new_FaultConfig;
|}.

Definition setFaultConfig (this : CommLinkSimulator) (cfg : FaultConfig) :
  CommLinkSimulator := {|
  t := t this;
  baseline_snr_db := baseline_snr_db this;
  baseline_ber := baseline_ber this;
  baseline_latency_ms := baseline_latency_ms this;
  baseline_retries := baseline_retries this;
  fault_config := cfg;
|}.

Record Sample : Type := {
  sample_t : Z;
  snr_db : Q;
  ber : Q;
  latency_ms : Q;
  retries : Q;
  active_faults : list FaultType.t;
}.

(** [Math.round] on a real. *)
Definition Qround (x : Q) : Q := inject_Z (Qfloor (x + (1 # 2))).

Section Simulator.
(** [10 ** x], a real for every real [x]. *)
Variable pow10 : Q -> Q.

(** [step()].  Each fault block gives the variables it assigns. *)
Definition step (this : CommLinkSimulator) :
  Rand (Sample * CommLinkSimulator) :=
  let this := {| t := t this + 1;
                 baseline_snr_db := baseline_snr_db this;
                 baseline_ber := baseline_ber this;
                 baseline_latency_ms := baseline_latency_ms this;
                 baseline_retries := baseline_retries this;
                 fault_config := fault_config this |} in
  let cfg := fault_config this in
  let active_faults := [] in
  r <- randn ;;
  let snr := baseline_snr_db this + r * 0.3 in
  r <- randn ;;
  let ber := Qmax (baseline_ber this * pow10 (r * 0.2)) 0.000000001 in
  r <- randn ;;
  let latency := baseline_latency_ms this + r * 1.0 in
  let retries := baseline_retries this in
  (* Noise spike *)
  '(snr, ber, active_faults) <-
    (if Qltb 0 (noise_spike_level cfg) then
       let noise := noise_spike_level cfg in
       r <- randn ;;
       let snr := snr - (8.0 * noise + r * (1.0 * noise)) in
       r <- randn ;;
       let ber := ber * pow10 (2.0 * noise + r * (0.5 * noise)) in
       ret (snr, ber, push active_faults FaultType.NOISE_SPIKE)
     else ret (snr, ber, active_faults)) ;;
  (* Wideband jammer *)
  '(snr, ber, retries, latency, active_faults) <-
    (if Qltb 0 (jammer_level cfg) then
       let jam := jammer_level cfg in
       r <- randn ;;
       let snr := snr - (15.0 * jam + r * (2.0 * jam)) in
       r <- randn ;;
       let ber := ber * pow10 (3.0 * jam + r * (0.5 * jam)) in
       k <- poisson (2 * jam) ;;
       let retries := retries + Qmax 0 (Qround (5 * jam + k)) in
       r <- randn ;;
       let latency := latency + (5 * jam + r * (2 * jam)) in
       ret (snr, ber, retries, latency,
            push active_faults FaultType.WIDEBAND_JAMMER)
     else ret (snr, ber, retries, latency, active_faults)) ;;
  (* Sync loss *)
  let sync_outage := false in
  triggered <-
    (if Qltb 0 (sync_loss_prob cfg) then
       u <- Math_random ;; ret (Qltb u (sync_loss_prob cfg))
     else ret false) ;;
  '(sync_outage, snr, ber, retries, latency, active_faults) <-
    (if triggered : bool then
       let sync_outage := true in
       u <- Math_random ;;
       let ber := 0.1 + 0.8 * u in
       r <- randn ;;
       let snr := baseline_snr_db this + r in
       r <- randn ;;
       let latency := latency + (200 + r * 20) in
       k <- poisson 3 ;;
       let retries := retries + (5 + k) in
       ret (sync_outage, snr, ber, retries, latency,
            push active_faults FaultType.SYNC_LOSS)
     else ret (sync_outage, snr, ber, retries, latency, active_faults)) ;;
  (* Congestion *)
  '(ber, retries, latency, active_faults) <-
    (if Qltb 0 (congestion_level cfg) && negb sync_outage then
       let cong := congestion_level cfg in
       r <- randn ;;
       let latency := latency + (40 * cong + r * (10 * cong)) in
       k <- poisson (3 * cong) ;;
       let retries := retries + Qmax 0 (Qround (3 * cong + k)) in
       r <- randn ;;
       let ber := ber * pow10 (0.3 * cong + r * (0.1 * cong)) in
       ret (ber, retries, latency, push active_faults FaultType.CONGESTION)
     else ret (ber, retries, latency, active_faults)) ;;
  (* Fading *)
  '(snr, ber, active_faults) <-
    (if Qltb 0 (fading_severity cfg) && negb sync_outage then
       let fad := fading_severity cfg in
       r <- randn ;;
       let snr := snr - (5.0 * fad + Qabs (r * (3.0 * fad))) in
       r <- randn ;;
       let ber := ber * pow10 (1.5 * fad + r * (0.3 * fad)) in
       ret (snr, ber, push active_faults FaultType.FADING)
     else ret (snr, ber, active_faults)) ;;
  (* Clip to realistic ranges *)
  let snr := Qmin (Qmax snr (-5)) 40 in
  let ber := Qmin (Qmax ber 0.000000001) 0.5 in
  let latency := Qmax 1.0 latency in
  let retries := Qmax 0 (Qround retries) in
  ret ({| sample_t := t this;
          snr_db := snr;
          ber := ber;
          latency_ms := latency;
          retries := retries;
          active_faults := active_faults |},
       this).
End Simulator.

(** ** The link simulator within the range of a double

    [step] again, statement for statement, on [num]: every product, sum
    and power gives an infinity when its real value has a magnitude of
    [2 ^ 1024] or more, which no double has.  Rounding inside the range is
    still left out. *)

Module Binary64.

(** The least magnitude beyond every double. *)
Definition overflow_threshold : Q := inject_Z (2 ^ 1024).

(** The number a real result becomes. *)
Definition fit (q : Q) : num :=
  if Qle_bool overflow_threshold (Qabs q) then
    if Qltb 0 q then PosInf else NegInf
  else Fin q.

Definition in_range (a : num) : num :=
  match a with
  | Fin q => fit q
  | _ => a
  end.

Definition add (a b : num) : num := in_range (JS.add a b).
Definition sub (a b : num) : num := in_range (JS.sub a b).
Definition mul (a b : num) : num := in_range (JS.mul a b).

Declare Scope binary64_scope.
Delimit Scope binary64_scope with binary64.
Arguments in_range a%_binary64.
Arguments add (a b)%_binary64.
Arguments sub (a b)%_binary64.
Arguments mul (a b)%_binary64.
Infix "+" := add : binary64_scope.
Infix "-" := sub : binary64_scope.
Infix "*" := mul : binary64_scope.
Infix ">" := JS.gtb : binary64_scope.
Infix "<" := JS.ltb : binary64_scope.
Infix "<=" := JS.leb : binary64_scope.

(** [Math.abs(a)] *)
Definition Math_abs (a : num) : num :=
  match a with
  | NaN => NaN
  | NegInf | PosInf => PosInf
  | Fin q => Fin (Qabs q)
  end.

(** [poisson(lambda)].  With [lambda] NaN the loop stops after its first
    turn, [p > L] being false, and the count is zero. *)
Definition poisson (lambda : num) : Rand num :=
  if (lambda <= Fin 0)%binary64 then ret (Fin 0)
  else
    match lambda with
    | NaN => fun g => (Fin 0, advance g)
    | _ =>
        fun g =>
          (Fin (inject_Z (Z.of_nat (poisson_tape g (cursor g)))), advance g)
    end.

Arguments Math_abs a%_binary64.
Arguments poisson lambda%_binary64.

Record Sample : Type := {
  sample_t : Z;
  snr_db : num;
  ber : num;
  latency_ms : num;
  retries : num;
  active_faults : list FaultType.t;
}.

Section Simulator.
(** [10 ** x] for a real [x] whose power is a real within range. *)
Variable pow10 : Q -> Q.

(** [10 ** x].  [10 ** 309] is beyond every double and [10 ** -324] is
    nearer to zero than to any other double. *)
Definition power_of_ten (x : num) : num :=
  match x with
  | NaN => NaN
  | PosInf => PosInf
  | NegInf => Fin 0
  | Fin q =>
      if Qle_bool 309 q then PosInf
      else if Qle_bool q (-324) then Fin 0
      else fit (pow10 q)
  end.

Arguments power_of_ten x%_binary64.
#[local] Arguments Math_max (a b)%_binary64.
#[local] Arguments Math_min (a b)%_binary64.
#[local] Arguments Math_round a%_binary64.

Local Open Scope binary64_scope.

(** [step()] *)
Definition step (this : CommLinkSimulator) :
  Rand (Sample * CommLinkSimulator) :=
  let this := {| t := t this + 1;
                 baseline_snr_db := baseline_snr_db this;
                 baseline_ber := baseline_ber this;
                 baseline_latency_ms := baseline_latency_ms this;
                 baseline_retries := baseline_retries this;
                 fault_config := fault_config this |} in
  let cfg := fault_config this in
  let active_faults := [] in
  r <- randn ;;
  let snr := Fin (baseline_snr_db this) + Fin r * Fin 0.3 in
  r <- randn ;;
  let ber :=
    Math_max (Fin (baseline_ber this) * power_of_ten (Fin r * Fin 0.2))
      (Fin 0.000000001) in
  r <- randn ;;
  let latency := Fin (baseline_latency_ms this) + Fin r * Fin 1.0 in
  let retries := Fin (baseline_retries this) in
  (* Noise spike *)
  '(snr, ber, active_faults) <-
    (if Fin (noise_spike_level cfg) > Fin 0 then
       let noise := Fin (noise_spike_level cfg) in
       r <- randn ;;
       let snr := snr - (Fin 8.0 * noise + Fin r * (Fin 1.0 * noise)) in
       r <- randn ;;
       let ber :=
         ber * power_of_ten (Fin 2.0 * noise + Fin r * (Fin 0.5 * noise)) in
       ret (snr, ber, push active_faults FaultType.NOISE_SPIKE)
     else ret (snr, ber, active_faults)) ;;
  (* Wideband jammer *)
  '(snr, ber, retries, latency, active_faults) <-
    (if Fin (jammer_level cfg) > Fin 0 then
       let jam := Fin (jammer_level cfg) in
       r <- randn ;;
       let snr := snr - (Fin 15.0 * jam + Fin r * (Fin 2.0 * jam)) in
       r <- randn ;;
       let ber :=
         ber * power_of_ten (Fin 3.0 * jam + Fin r * (Fin 0.5 * jam)) in
       k <- poisson (Fin 2 * jam) ;;
       let retries :=
         retries + Math_max (Fin 0) (Math_round (Fin 5 * jam + k)) in
       r <- randn ;;
       let latency := latency + (Fin 5 * jam + Fin r * (Fin 2 * jam)) in
       ret (snr, ber, retries, latency,
            push active_faults FaultType.WIDEBAND_JAMMER)
     else ret (snr, ber, retries, latency, active_faults)) ;;
  (* Sync loss *)
  let sync_outage := false in
  triggered <-
    (if Fin (sync_loss_prob cfg) > Fin 0 then
       u <- Math_random ;; ret (Fin u < Fin (sync_loss_prob cfg))
     else ret false) ;;
  '(sync_outage, snr, ber, retries, latency, active_faults) <-
    (if triggered : bool then
       let sync_outage := true in
       u <- Math_random ;;
       let ber := Fin 0.1 + Fin 0.8 * Fin u in
       r <- randn ;;
       let snr := Fin (baseline_snr_db this) + Fin r in
       r <- randn ;;
       let latency := latency + (Fin 200 + Fin r * Fin 20) in
       k <- poisson (Fin 3) ;;
       let retries := retries + (Fin 5 + k) in
       ret (sync_outage, snr, ber, retries, latency,
            push active_faults FaultType.SYNC_LOSS)
     else ret (sync_outage, snr, ber, retries, latency, active_faults)) ;;
  (* Congestion *)
  '(ber, retries, latency, active_faults) <-
    (if (Fin (congestion_level cfg) > Fin 0) && negb sync_outage then
       let cong := Fin (congestion_level cfg) in
       r <- randn ;;
       let latency := latency + (Fin 40 * cong + Fin r * (Fin 10 * cong)) in
       k <- poisson (Fin 3 * cong) ;;
       let retries :=
         retries + Math_max (Fin 0) (Math_round (Fin 3 * cong + k)) in
       r <- randn ;;
       let ber :=
         ber * power_of_ten (Fin 0.3 * cong + Fin r * (Fin 0.1 * cong)) in
       ret (ber, retries, latency, push active_faults FaultType.CONGESTION)
     else ret (ber, retries, latency, active_faults)) ;;
  (* Fading *)
  '(snr, ber, active_faults) <-
    (if (Fin (fading_severity cfg) > Fin 0) && negb sync_outage then
       let fad := Fin (fading_severity cfg) in
       r <- randn ;;
       let snr :=
         snr - (Fin 5.0 * fad + Math_abs (Fin r * (Fin 3.0 * fad))) in
       r <- randn ;;
       let ber :=
         ber * power_of_ten (Fin 1.5 * fad + Fin r * (Fin 0.3 * fad)) in
       ret (snr, ber, push active_faults FaultType.FADING)
     else ret (snr, ber, active_faults)) ;;
  (* Clip to realistic ranges *)
  let snr := Math_min (Math_max snr (Fin (-5))) (Fin 40) in
  let ber := Math_min (Math_max ber (Fin 0.000000001)) (Fin 0.5) in
  let latency := Math_max (Fin 1.0) latency in
  let retries := Math_max (Fin 0) (Math_round retries) in
  ret ({| sample_t := t this;
          snr_db := snr;
          ber := ber;
          latency_ms := latency;
          retries := retries;
          active_faults := active_faults |},
       this).
End Simulator.

End Binary64.

(** ** The window aggregator *)

Section Window.
(** The square root [Math.sqrt] finds for a non-negative real. *)
Variable root : Q -> Q.

Local Open Scope js_scope.

(** [a === b] on numbers. *)
Definition strict_eq (a b : num) : bool :=
  match a, b with
  | Fin x, Fin y => Qeq_bool x y
  | PosInf, PosInf | NegInf, NegInf => true
  | _, _ => false
  end.

Definition mean (arr : list num) : num :=
  if negb (to_boolean (array_length arr)) then NaN
  else fold_left add arr (Fin 0) / array_length arr.

Definition std (arr : list num) : num :=
  if strict_eq (array_length arr) (Fin 0) then NaN
  else
    let m := mean arr in
    let v :=
      fold_left (fun s x => s + (x - m) * (x - m)) arr (Fin 0)
      / array_length arr in
    Math_sqrt root v.

Definition maxVal (arr : list num) : num :=
  if negb (to_boolean (array_length arr)) then NaN
  else fold_left (fun a b => if b > a then b else a) arr NegInf.

Definition windowFrom (history : list Sample) (windowSize : nat) :
  WindowStats :=
  let slice := slice_last windowSize history in
  let snr := map (fun s => Fin (snr_db s)) slice in
  let ber := map (fun s => Fin (ber s)) slice in
  let lat := map (fun s => Fin (latency_ms s)) slice in
  let ret := map (fun s => Fin (retries s)) slice in
  {| snr_mean := mean snr;
     snr_std := std snr;
     ber_mean := mean ber;
     ber_max := maxVal ber;
     latency_mean := mean lat;
     retries_mean := mean ret |}.
End Window.

(** * Properties *)

(** ** Comparisons and arithmetic on numbers *)

Lemma Qltb_lt (x y : Q) : Qltb x y = true <-> x < y.
Proof.
  unfold Qltb. rewrite Qlt_alt.
  destruct (x ?= y); split; congruence.
Qed.

Lemma Qltb_ge (x y : Q) : Qltb x y = false <-> y <= x.
Proof.
  rewrite <- Bool.not_true_iff_false, Qltb_lt. split.
  - apply Qnot_lt_le.
  - intros H H'. apply (Qlt_irrefl x). eapply Qlt_le_trans; eassumption.
Qed.

Lemma RootCause_eqb_eq (a b : RootCause) : RootCause_eqb a b = true <-> a = b.
Proof.
  destruct a, b; vm_compute; split; congruence.
Qed.

Lemma RootCause_eqb_neq (a b : RootCause) : a <> b -> RootCause_eqb a b = false.
Proof.
  intros H. apply Bool.not_true_iff_false. rewrite RootCause_eqb_eq. exact H.
Qed.

#[export] Instance same_Equivalence : Equivalence same.
Proof.
  split.
  - intros []; simpl; auto. reflexivity.
  - intros [] []; simpl; auto. intros H. symmetry. exact H.
  - intros [] [] []; simpl; auto; try contradiction.
    intros H1 H2. rewrite H1. exact H2.
Qed.

(** A number above a real is [PosInf] or a larger real; a number below a
    real is [NegInf] or a smaller real. *)
Lemma gtb_Fin_inv (a : num) (c : Q) :
  gtb a (Fin c) = true -> a = PosInf \/ exists q, a = Fin q /\ c < q.
Proof.
  destruct a as [| | |q]; simpl; try discriminate; auto.
  intros H. right. exists q. split; [reflexivity|]. apply Qltb_lt. exact H.
Qed.

Lemma ltb_Fin_inv (a : num) (c : Q) :
  ltb a (Fin c) = true -> a = NegInf \/ exists q, a = Fin q /\ q < c.
Proof.
  destruct a as [| | |q]; simpl; try discriminate; auto.
  intros H. right. exists q. split; [reflexivity|]. apply Qltb_lt. exact H.
Qed.

(** No number is both above and below the same real, nor below a smaller
    one. *)
Lemma gtb_ltb_disjoint (a : num) (c d : Q) :
  d <= c -> gtb a (Fin c) = true -> ltb a (Fin d) = false.
Proof.
  intros Hdc H. destruct (gtb_Fin_inv _ _ H) as [->|[q [-> Hq]]].
  - reflexivity.
  - simpl. apply Qltb_ge. lra.
Qed.

Lemma ltb_gtb_disjoint (a : num) (c d : Q) :
  c <= d -> ltb a (Fin c) = true -> gtb a (Fin d) = false.
Proof.
  intros Hdc H. destruct (ltb_Fin_inv _ _ H) as [->|[q [-> Hq]]].
  - reflexivity.
  - simpl. apply Qltb_ge. lra.
Qed.

(** [base + slope * Math.min(1.0, x)] for a positive [x], infinite or
    not, is a real in [(base, base + slope]]. *)
Lemma score_range (base slope : Q) (x : num) :
  0 < slope -> gtb x (Fin 0) = true ->
  exists s, add (Fin base) (mul (Fin slope) (Math_min (Fin 1.0) x)) = Fin s
            /\ base < s /\ s <= base + slope.
Proof.
  intros Hs Hx. destruct (gtb_Fin_inv _ _ Hx) as [->|[q [-> Hq]]].
  - simpl. eexists. split; [reflexivity|]. lra.
  - simpl. destruct (Qltb q 1.0) eqn:E; simpl.
    + apply Qltb_lt in E. eexists. split; [reflexivity|]. nra.
    + eexists. split; [reflexivity|]. lra.
Qed.

(** The severities of the rules are positive when their rule fires. *)
Lemma shortfall_positive (a : num) (c d : Q) :
  0 < d -> ltb a (Fin c) = true ->
  gtb (div (sub (Fin c) a) (Fin d)) (Fin 0) = true.
Proof.
  intros Hd H. destruct (ltb_Fin_inv _ _ H) as [->|[q [-> Hq]]]; simpl.
  - destruct (Qltb d 0) eqn:E; [|reflexivity].
    apply Qltb_lt in E. lra.
  - destruct (Qeq_bool d 0) eqn:E.
    + apply Qeq_bool_iff in E. lra.
    + simpl. apply Qltb_lt. apply Qlt_shift_div_l; lra.
Qed.

Lemma excess_positive (a : num) (c d : Q) :
  0 < d -> gtb a (Fin c) = true ->
  gtb (div (sub a (Fin c)) (Fin d)) (Fin 0) = true.
Proof.
  intros Hd H. destruct (gtb_Fin_inv _ _ H) as [->|[q [-> Hq]]]; simpl.
  - destruct (Qltb d 0) eqn:E; [|reflexivity].
    apply Qltb_lt in E. lra.
  - destruct (Qeq_bool d 0) eqn:E.
    + apply Qeq_bool_iff in E. lra.
    + simpl. apply Qltb_lt. apply Qlt_shift_div_l; lra.
Qed.

Lemma ratio_positive (a : num) (c d : Q) :
  0 < d -> 0 <= c -> gtb a (Fin c) = true ->
  gtb (div a (Fin d)) (Fin 0) = true.
Proof.
  intros Hd Hc H. destruct (gtb_Fin_inv _ _ H) as [->|[q [-> Hq]]]; simpl.
  - destruct (Qltb d 0) eqn:E; [|reflexivity].
    apply Qltb_lt in E. lra.
  - destruct (Qeq_bool d 0) eqn:E.
    + apply Qeq_bool_iff in E. lra.
    + simpl. apply Qltb_lt. apply Qlt_shift_div_l; lra.
Qed.

(** ** The evidence of the six rules *)

(** A score that is a positive real, at most one. *)
Definition positive_score (ev : Evidence) : Prop :=
  exists s, score ev = Fin s /\ 0 < s /\ s <= 1.

(** One cause comes before another in the order of the rules. *)
Definition earlier_rule (a b : RootCause) : Prop :=
  (rule_order a < rule_order b)%nat.

Definition fired (rule : bool) (ev : Evidence) : list Evidence :=
  if rule then [ev] else [].

Lemma rule_evidences_fired (this : DiagnosticEngine) (w : WindowStats) :
  rule_evidences this w =
  (fired (healthy_rule this w) (healthy_evidence)
   ++ fired (noise_spike_rule this w) (noise_spike_evidence this w)
   ++ fired (wideband_jammer_rule this w) (wideband_jammer_evidence this w)
   ++ fired (sync_loss_rule this w) (sync_loss_evidence w)
   ++ fired (congestion_rule this w) (congestion_evidence this w)
   ++ fired (fading_rule this w) (fading_evidence w))%list.
Proof.
  unfold rule_evidences, fired, push.
  destruct (healthy_rule this w), (noise_spike_rule this w),
    (wideband_jammer_rule this w), (sync_loss_rule this w),
    (congestion_rule this w), (fading_rule this w); reflexivity.
Qed.

Lemma rule_evidences_sorted (this : DiagnosticEngine) (w : WindowStats) :
  StronglySorted earlier_rule (map root_cause (rule_evidences this w)).
Proof.
  rewrite rule_evidences_fired. unfold fired, earlier_rule.
  destruct (healthy_rule this w), (noise_spike_rule this w),
    (wideband_jammer_rule this w), (sync_loss_rule this w),
    (congestion_rule this w), (fading_rule this w); simpl;
    repeat (constructor; simpl; try lia).
Qed.

Ltac split_rule H :=
  repeat (apply andb_prop in H; let H' := fresh H in destruct H as [H H']).

Lemma healthy_score : positive_score healthy_evidence.
Proof. exists 1.0. split; [reflexivity|]. lra. Qed.

Lemma noise_spike_score (w : WindowStats) :
  noise_spike_rule new_DiagnosticEngine w = true ->
  positive_score (noise_spike_evidence new_DiagnosticEngine w).
Proof.
  intros H. unfold noise_spike_rule in H. split_rule H.
  destruct (score_range 0.4 0.6 _ ltac:(lra)
              (shortfall_positive _ 20.0 10.0 ltac:(lra) H))
    as [s [Hs Hr]].
  exists s. split; [exact Hs|]. lra.
Qed.

Lemma wideband_jammer_score (w : WindowStats) :
  wideband_jammer_rule new_DiagnosticEngine w = true ->
  positive_score (wideband_jammer_evidence new_DiagnosticEngine w).
Proof.
  intros H. unfold wideband_jammer_rule in H. split_rule H.
  destruct (score_range 0.5 0.5 _ ltac:(lra)
              (shortfall_positive _ 12.0 8.0 ltac:(lra) H))
    as [s [Hs Hr]].
  exists s. split; [exact Hs|]. lra.
Qed.

Lemma sync_loss_score (w : WindowStats) :
  sync_loss_rule new_DiagnosticEngine w = true ->
  positive_score (sync_loss_evidence w).
Proof.
  intros H. unfold sync_loss_rule in H. split_rule H.
  destruct (score_range 0.6 0.4 _ ltac:(lra)
              (excess_positive _ 0.05 0.25 ltac:(lra) H))
    as [s [Hs Hr]].
  exists s. split; [exact Hs|]. lra.
Qed.

Lemma congestion_score (w : WindowStats) :
  congestion_rule new_DiagnosticEngine w = true ->
  positive_score (congestion_evidence new_DiagnosticEngine w).
Proof.
  intros H. unfold congestion_rule in H. split_rule H.
  destruct (score_range 0.4 0.6 _ ltac:(lra)
              (excess_positive _ 80.0 120.0 ltac:(lra) H))
    as [s [Hs Hr]].
  exists s. split; [exact Hs|]. lra.
Qed.

Lemma fading_score (w : WindowStats) :
  fading_rule new_DiagnosticEngine w = true ->
  positive_score (fading_evidence w).
Proof.
  intros H. unfold fading_rule in H. split_rule H.
  destruct (score_range 0.3 0.7 _ ltac:(lra)
              (ratio_positive _ 2.0 5.0 ltac:(lra) ltac:(lra) H2))
    as [s [Hs Hr]].
  exists s. split; [exact Hs|]. lra.
Qed.

Lemma rule_evidences_scores (w : WindowStats) :
  Forall positive_score (rule_evidences new_DiagnosticEngine w).
Proof.
  rewrite rule_evidences_fired. unfold fired.
  repeat (apply Forall_app; split).
  - destruct healthy_rule; constructor; auto using healthy_score.
  - destruct noise_spike_rule eqn:E; constructor; auto using noise_spike_score.
  - destruct wideband_jammer_rule eqn:E; constructor;
      auto using wideband_jammer_score.
  - destruct sync_loss_rule eqn:E; constructor; auto using sync_loss_score.
  - destruct congestion_rule eqn:E; constructor; auto using congestion_score.
  - destruct fading_rule eqn:E; constructor; auto using fading_score.
Qed.

(** ** The scores object *)

Lemma get_absent (o : object) (k : RootCause) :
  ~ In k (Object_keys o) -> get o k = None.
Proof.
  induction o as [|[k' v'] o IH]; simpl; intros H; [reflexivity|].
  rewrite RootCause_eqb_neq by (intros ->; apply H; left; reflexivity).
  apply IH. intros Hin. apply H. right. exact Hin.
Qed.

Lemma set_absent (o : object) (k : RootCause) (v : num) :
  ~ In k (Object_keys o) -> set o k v = (o ++ [(k, v)])%list.
Proof.
  induction o as [|[k' v'] o IH]; simpl; intros H; [reflexivity|].
  rewrite RootCause_eqb_neq by (intros ->; apply H; left; reflexivity).
  f_equal. apply IH. intros Hin. apply H. right. exact Hin.
Qed.

Lemma earlier_rule_irrefl (c : RootCause) : ~ earlier_rule c c.
Proof. unfold earlier_rule. lia. Qed.

(** The entry the loop writes for an evidence whose cause is new. *)
Definition first_entry (ev : Evidence) : RootCause * num :=
  (root_cause ev, add (Fin 0) (score ev)).

(** When the causes of the evidences come in the order of the rules, and
    after every key already there, each evidence adds one entry. *)
Lemma accumulate_sorted (evidences : list Evidence) :
  forall acc : object,
    StronglySorted earlier_rule (map root_cause evidences) ->
    (forall k ev, In k (Object_keys acc) -> In ev evidences ->
                  earlier_rule k (root_cause ev)) ->
    fold_left accumulate evidences acc
    = (acc ++ map first_entry evidences)%list.
Proof.
  induction evidences as [|ev rest IH]; simpl; intros acc Hs Hacc.
  - rewrite app_nil_r. reflexivity.
  - inversion Hs as [|? ? Hrest Hall]; subst.
    assert (Hnew : ~ In (root_cause ev) (Object_keys acc)).
    { intros Hin. apply (earlier_rule_irrefl (root_cause ev)).
      apply (Hacc _ ev Hin). left. reflexivity. }
    unfold accumulate at 2.
    rewrite (get_absent _ _ Hnew), (set_absent _ _ _ Hnew). simpl.
    rewrite IH.
    + rewrite <- app_assoc. reflexivity.
    + exact Hrest.
    + intros k ev' Hk Hev'. unfold Object_keys in Hk.
      rewrite map_app in Hk. apply in_app_or in Hk.
      destruct Hk as [Hk|[<-|[]]].
      * apply (Hacc k ev' Hk). right. exact Hev'.
      * rewrite Forall_forall in Hall. apply Hall.
        simpl. apply in_map. exact Hev'.
Qed.

Lemma rule_scores_sorted (evidences : list Evidence) :
  StronglySorted earlier_rule (map root_cause evidences) ->
  rule_scores evidences = map first_entry evidences.
Proof.
  intros Hs. unfold rule_scores.
  rewrite accumulate_sorted; [reflexivity|exact Hs|].
  intros k ev [].
Qed.

(** ** Real-valued entries *)

(** The entries of an object whose values are all real. *)
Definition entries_of (qs : list (RootCause * Q)) : object :=
  map (fun cq => (fst cq, Fin (snd cq))) qs.

(** An evidence and the real entry that holds its cause and its score. *)
Definition entry_of (ev : Evidence) (cq : RootCause * Q) : Prop :=
  root_cause ev = fst cq /\ same (score ev) (Fin (snd cq)).

Definition Qsum (l : list Q) : Q := fold_right Qplus 0 l.

Lemma fold_left_Qplus (l : list Q) :
  forall a, fold_left Qplus l a == a + Qsum l.
Proof.
  induction l as [|x l IH]; simpl; intros a.
  - lra.
  - rewrite IH. lra.
Qed.

Lemma sum_reals (l : list Q) :
  forall a, fold_left add (map Fin l) (Fin a) = Fin (fold_left Qplus l a).
Proof.
  induction l as [|x l IH]; simpl; intros a; [reflexivity|].
  apply IH.
Qed.

Lemma Object_values_entries (qs : list (RootCause * Q)) :
  Object_values (entries_of qs) = map Fin (map snd qs).
Proof.
  unfold Object_values, entries_of. rewrite !map_map. reflexivity.
Qed.

Lemma Qsum_positive (l : list Q) :
  l <> [] -> Forall (fun q => 0 < q) l -> 0 < Qsum l.
Proof.
  intros Hne H. induction H as [|x l Hx Hl IH]; [congruence|].
  simpl. destruct l as [|y l].
  - simpl. lra.
  - assert (0 < Qsum (y :: l)) by (apply IH; discriminate). lra.
Qed.

Lemma Qsum_Permutation (l l' : list Q) :
  Permutation l l' -> Qsum l == Qsum l'.
Proof.
  induction 1; simpl; lra.
Qed.

Lemma Qsum_div (l : list Q) (d : Q) :
  Qsum (map (fun q => q / d) l) == Qsum l / d.
Proof.
  induction l as [|x l IH]; simpl.
  - unfold Qdiv. ring.
  - rewrite IH. unfold Qdiv. ring.
Qed.

(** Evidences with positive scores give real entries. *)
Lemma first_entries_real (evidences : list Evidence) :
  Forall positive_score evidences ->
  exists qs,
    map first_entry evidences = entries_of qs
    /\ map fst qs = map root_cause evidences
    /\ Forall (fun cq => 0 < snd cq) qs
    /\ Forall2 entry_of evidences qs.
Proof.
  induction 1 as [|ev rest [s [Hs [Hpos _]]] _ [qs [E [K [P F]]]]].
  - exists []. repeat split; constructor.
  - exists ((root_cause ev, 0 + s) :: qs). repeat split; simpl.
    + unfold first_entry at 1. rewrite Hs, E. reflexivity.
    + rewrite K. reflexivity.
    + constructor; [simpl; lra|exact P].
    + constructor; [|exact F]. split; [reflexivity|].
      rewrite Hs. simpl. lra.
Qed.

(** ** What the fallbacks leave *)

Lemma healthy_fallback_guard_false
    (this : DiagnosticEngine) (w : WindowStats) (evidences : list Evidence) :
  healthy_fallback_guard this w evidences = false.
Proof. reflexivity. Qed.

(** After the fallbacks the scores are real and positive, one entry for
    each evidence, in the order of the rules, and there is at least one. *)
Lemma with_fallbacks_real (w : WindowStats) :
  exists qs,
    fst (with_fallbacks new_DiagnosticEngine w) = entries_of qs
    /\ qs <> []
    /\ Forall (fun cq => 0 < snd cq) qs
    /\ StronglySorted earlier_rule (map fst qs)
    /\ Forall2 entry_of (snd (with_fallbacks new_DiagnosticEngine w)) qs.
Proof.
  unfold with_fallbacks. rewrite healthy_fallback_guard_false.
  rewrite (rule_scores_sorted _ (rule_evidences_sorted _ w)).
  pose proof (rule_evidences_sorted new_DiagnosticEngine w) as Hsorted.
  pose proof (rule_evidences_scores w) as Hscores.
  destruct (rule_evidences new_DiagnosticEngine w) as [|ev rest].
  - exists [(UNKNOWN, 1.0)]. simpl. repeat split.
    + discriminate.
    + constructor; [simpl; lra|constructor].
    + repeat constructor.
    + repeat constructor.
  - destruct (first_entries_real _ Hscores) as [qs [E [K [P F]]]].
    exists qs. cbn [map List.length Object_keys Nat.eqb fst snd].
    rewrite <- K in Hsorted. repeat split; try assumption.
    intros ->. discriminate.
Qed.

Lemma total_real (qs : list (RootCause * Q)) :
  total (entries_of qs) = Fin (fold_left Qplus (map snd qs) 0).
Proof.
  unfold total, sum. rewrite Object_values_entries. apply sum_reals.
Qed.

(** The probabilities, before they are sorted. *)
Definition normalized (qs : list (RootCause * Q)) : list (RootCause * Q) :=
  map (fun cq => (fst cq, snd cq / fold_left Qplus (map snd qs) 0)) qs.

Lemma total_positive (qs : list (RootCause * Q)) :
  qs <> [] -> Forall (fun cq => 0 < snd cq) qs ->
  0 < fold_left Qplus (map snd qs) 0.
Proof.
  intros Hne Hpos. rewrite fold_left_Qplus.
  assert (0 < Qsum (map snd qs)); [|lra].
  apply Qsum_positive.
  - destruct qs; [congruence|discriminate].
  - rewrite Forall_map. exact Hpos.
Qed.

Lemma ranked_real (qs : list (RootCause * Q)) :
  qs <> [] -> Forall (fun cq => 0 < snd cq) qs ->
  ranked (entries_of qs)
  = sort (fun a b => sub (snd b) (snd a)) (entries_of (normalized qs)).
Proof.
  intros Hne Hpos. unfold ranked. f_equal.
  rewrite total_real. unfold Object_entries, entries_of, normalized.
  rewrite !map_map. apply map_ext. intros [c q]. simpl.
  pose proof (total_positive qs Hne Hpos) as HT.
  destruct (Qeq_bool _ 0) eqn:E; [|reflexivity].
  apply Qeq_bool_iff in E. lra.
Qed.

(** ** Sorting the entries *)

(** [a] is ranked before [b]: a larger probability, or the same
    probability and an earlier rule. *)
Definition ranks_before (a b : RootCause * num) : Prop :=
  exists p q,
    snd a = Fin p /\ snd b = Fin q
    /\ (q < p \/ (q == p /\ earlier_rule (fst a) (fst b))).

Definition entry (cq : RootCause * Q) : RootCause * num :=
  (fst cq, Fin (snd cq)).

Definition outranks (a b : RootCause * Q) : Prop :=
  ranks_before (entry a) (entry b).

Lemma outranks_iff (a b : RootCause * Q) :
  outranks a b
  <-> snd b < snd a \/ (snd b == snd a /\ earlier_rule (fst a) (fst b)).
Proof.
  unfold outranks, ranks_before. simpl. split.
  - intros [p [q [Hp [Hq H]]]]. injection Hp as <-. injection Hq as <-.
    exact H.
  - intros H. exists (snd a), (snd b). auto.
Qed.

Lemma outranks_le (a b : RootCause * Q) : outranks a b -> snd b <= snd a.
Proof. rewrite outranks_iff. intros [H|[H _]]; lra. Qed.

Lemma ranks_before_geb (a b : RootCause * num) :
  ranks_before a b -> geb (snd a) (snd b) = true.
Proof.
  intros [p [q [-> [-> H]]]]. simpl. apply Qle_bool_iff.
  destruct H as [H|[H _]]; lra.
Qed.

Lemma StronglySorted_weaken {A : Type} (R R' : A -> A -> Prop) (l : list A) :
  (forall a b, R a b -> R' a b) -> StronglySorted R l -> StronglySorted R' l.
Proof.
  intros HR. induction 1 as [|a l Hl IH Ha]; constructor.
  - exact IH.
  - eapply Forall_impl; [|exact Ha]. apply HR.
Qed.

Lemma StronglySorted_map {A B : Type} (f : A -> B) (R : B -> B -> Prop)
    (l : list A) :
  StronglySorted (fun a b => R (f a) (f b)) l -> StronglySorted R (map f l).
Proof.
  induction 1 as [|a l Hl IH Ha]; simpl; constructor.
  - exact IH.
  - rewrite Forall_map. exact Ha.
Qed.

Section SortEntries.
Let by_probability : RootCause * num -> RootCause * num -> num :=
  fun a b => sub (snd b) (snd a).

Lemma sort_insert_real (x : RootCause * Q) (l : list (RootCause * Q)) :
  Forall (fun y => earlier_rule (fst x) (fst y)) l ->
  StronglySorted outranks l ->
  exists l',
    sort_insert by_probability (entry x) (entries_of l) = entries_of l'
    /\ Permutation l' (x :: l)
    /\ StronglySorted outranks l'.
Proof.
  induction l as [|y l IH]; intros Hearly Hsorted.
  - exists [x]. repeat split; auto. repeat constructor.
  - inversion Hearly as [|? ? Hy Hl]; subst.
    inversion Hsorted as [|? ? Hs Hall]; subst.
    change (entries_of (y :: l)) with (entry y :: entries_of l).
    cbn [sort_insert].
    change (gtb (by_probability (entry x) (entry y)) (Fin 0))
      with (Qltb 0 (snd y - snd x)).
    destruct (Qltb 0 (snd y - snd x)) eqn:E.
    + apply Qltb_lt in E.
      destruct (IH Hl Hs) as [l' [El [Pl Sl]]].
      exists (y :: l'). repeat split.
      * simpl. rewrite El. reflexivity.
      * rewrite Pl. apply perm_swap.
      * constructor; [exact Sl|].
        apply (Permutation_Forall (Permutation_sym Pl)).
        constructor; [|exact Hall].
        apply outranks_iff. left. lra.
    + apply Qltb_ge in E.
      exists (x :: y :: l). repeat split; auto.
      constructor; [exact Hsorted|].
      assert (Hle : Forall (fun z => snd z <= snd y) (y :: l)).
      { constructor; [lra|].
        eapply Forall_impl; [|exact Hall]. apply outranks_le. }
      rewrite Forall_forall in Hle, Hearly. apply Forall_forall.
      intros z Hz. specialize (Hle z Hz). specialize (Hearly z Hz).
      apply outranks_iff.
      destruct (Qlt_le_dec (snd z) (snd x)) as [Hlt|Hge].
      * left. exact Hlt.
      * right. split; [lra|exact Hearly].
Qed.

Lemma sort_real (l : list (RootCause * Q)) :
  StronglySorted earlier_rule (map fst l) ->
  exists l',
    sort by_probability (entries_of l) = entries_of l'
    /\ Permutation l' l
    /\ StronglySorted outranks l'.
Proof.
  induction l as [|x l IH]; simpl; intros Hs.
  - exists []. repeat split; auto. constructor.
  - inversion Hs as [|? ? Hrest Hall]; subst.
    destruct (IH Hrest) as [l0 [E0 [P0 S0]]].
    rewrite E0.
    destruct (sort_insert_real x l0) as [l' [E [P S]]].
    + apply (Permutation_Forall (Permutation_sym P0)).
      rewrite Forall_map in Hall. exact Hall.
    + exact S0.
    + exists l'. repeat split; [exact E| |exact S].
      rewrite P. constructor. exact P0.
Qed.
End SortEntries.

(** ** The ranking *)

(** Every window is diagnosed from real, positive scores [qs], one for
    each evidence; the ranked causes are the scores over their total [T],
    reordered. *)
Lemma diagnose_real (w : WindowStats) :
  exists (qs rs : list (RootCause * Q)) (c : RootCause) (p : Q)
         (rest : list (RootCause * Q)),
    let T := fold_left Qplus (map snd qs) 0 in
    with_fallbacks new_DiagnosticEngine w
    = (entries_of qs, snd (with_fallbacks new_DiagnosticEngine w))
    /\ Forall2 entry_of (snd (with_fallbacks new_DiagnosticEngine w)) qs
    /\ qs <> []
    /\ Forall (fun cq => 0 < snd cq) qs
    /\ total (entries_of qs) = Fin T
    /\ 0 < T
    /\ rs = (c, p) :: rest
    /\ Permutation rs (normalized qs)
    /\ StronglySorted outranks rs
    /\ ranked (entries_of qs) = entries_of rs
    /\ diagnose new_DiagnosticEngine w
       = (Returns {|
            primary_cause := c;
            confidence := Fin p;
            ranked_causes := entries_of rs;
            diagnosis_explanation :=
              _buildExplanation w c (Fin p)
                (snd (with_fallbacks new_DiagnosticEngine w));
            contributing_rules :=
              snd (with_fallbacks new_DiagnosticEngine w);
            suggested_actions := _suggestActions c |},
          new_DiagnosticEngine).
Proof.
  destruct (with_fallbacks_real w) as [qs [E [Hne [Hpos [Hs F]]]]].
  pose proof (total_positive qs Hne Hpos) as HT.
  destruct (sort_real (normalized qs)) as [rs [Er [Pr Sr]]].
  { unfold normalized. rewrite map_map. simpl. exact Hs. }
  destruct rs as [|[c p] rest].
  { apply Permutation_nil in Pr. destruct qs; [congruence|discriminate]. }
  exists qs, ((c, p) :: rest), c, p, rest. cbv zeta.
  assert (Hr : ranked (entries_of qs) = entries_of ((c, p) :: rest)).
  { rewrite ranked_real by assumption. exact Er. }
  repeat split; try assumption.
  - rewrite <- E. destruct with_fallbacks. reflexivity.
  - apply total_real.
  - unfold diagnose. destruct (with_fallbacks new_DiagnosticEngine w) as [scores evs].
    simpl in E. subst scores. rewrite Hr. reflexivity.
Qed.

(** Evidences whose entries are positive reals have positive real
    scores. *)
Lemma entry_scores_positive
    (evidences : list Evidence) (qs : list (RootCause * Q)) :
  Forall2 entry_of evidences qs ->
  Forall (fun cq => 0 < snd cq) qs ->
  Forall (fun ev => exists s, score ev = Fin s /\ 0 < s) evidences.
Proof.
  induction 1 as [|ev cq evs qs' [_ Hev] _ IH]; intros Hpos.
  - constructor.
  - inversion Hpos; subst. constructor; [|apply IH; assumption].
    destruct (score ev) as [| | |s]; simpl in Hev; try contradiction.
    exists s. split; [reflexivity|]. lra.
Qed.

(** ** The claims on [diagnose] *)

(** [clip(x, lo..hi)], in the words of the specification: [x] bounded to
    [[lo, hi]] on both sides. *)
Definition clip (x lo hi : num) : num := Math_max lo (Math_min hi x).

(** C1.  For every window, [diagnose] returns a diagnosis whose ranked
    probabilities sum to one, are sorted in descending order with ties in
    the order of the rules, and whose primary cause and confidence are the
    first ranked entry. *)
Theorem ranked_causes_distribution (w : WindowStats) :
  exists d : Diagnosis,
    fst (diagnose new_DiagnosticEngine w) = Returns d
    /\ same (sum (map snd (ranked_causes d))) (Fin 1)
    /\ StronglySorted (fun a b => geb (snd a) (snd b) = true)
         (ranked_causes d)
    /\ StronglySorted ranks_before (ranked_causes d)
    /\ hd_error (ranked_causes d) = Some (primary_cause d, confidence d).
Proof.
  destruct (diagnose_real w)
    as (qs & rs & c & p & rest & _ & _ & Hne & Hpos & _ & HT & Hrs & Pr
        & Sr & _ & Hd).
  cbv zeta in *. rewrite Hd. eexists. split; [reflexivity|]. simpl.
  repeat split.
  - change (map snd (entries_of rs)) with (Object_values (entries_of rs)).
    rewrite Object_values_entries. unfold sum. rewrite sum_reals. simpl.
    rewrite fold_left_Qplus.
    rewrite (Qsum_Permutation _ _ (Permutation_map snd Pr)).
    unfold normalized. rewrite map_map. simpl.
    rewrite <- (map_map snd (fun q => q / _)), Qsum_div.
    rewrite fold_left_Qplus in HT |- *. field. lra.
  - eapply StronglySorted_weaken; [exact ranks_before_geb|].
    apply StronglySorted_map. exact Sr.
  - apply StronglySorted_map. exact Sr.
  - rewrite Hrs. reflexivity.
Qed.

(** C9.  For every window the evidence list is not empty, every score is
    a positive real, the divisor of the normalization is a positive real,
    and the confidence returned is a positive real. *)
Theorem normalization_divisor_positive (w : WindowStats) :
  exists d : Diagnosis,
    fst (diagnose new_DiagnosticEngine w) = Returns d
    /\ contributing_rules d <> []
    /\ Forall (fun ev => exists s, score ev = Fin s /\ 0 < s)
         (contributing_rules d)
    /\ (exists T, total (fst (with_fallbacks new_DiagnosticEngine w)) = Fin T
                  /\ 0 < T)
    /\ (exists p, confidence d = Fin p /\ 0 < p).
Proof.
  destruct (diagnose_real w)
    as (qs & rs & c & p & rest & Hw & F & Hne & Hpos & Htot & HT & Hrs & Pr
        & _ & _ & Hd).
  cbv zeta in *. rewrite Hd. eexists. split; [reflexivity|]. simpl.
  repeat split.
  - intros Hnil. rewrite Hnil in F. inversion F. congruence.
  - exact (entry_scores_positive _ _ F Hpos).
  - rewrite Hw. simpl. eexists. split; [exact Htot|exact HT].
  - exists p. split; [reflexivity|].
    assert (Hin : In (c, p) (normalized qs)).
    { apply (Permutation_in _ Pr). rewrite Hrs. left. reflexivity. }
    unfold normalized in Hin. apply in_map_iff in Hin.
    destruct Hin as [[c' q] [Heq Hq]]. simpl in Heq. injection Heq as _ <-.
    rewrite Forall_forall in Hpos. specialize (Hpos _ Hq). simpl in Hpos.
    apply Qlt_shift_div_l; lra.
Qed.

(** The window of an empty history. *)
Definition NaN_window : WindowStats := {|
  snr_mean := NaN;
  snr_std := NaN;
  ber_mean := NaN;
  ber_max := NaN;
  latency_mean := NaN;
  retries_mean := NaN;
|}.

Lemma windowFrom_empty (root : Q -> Q) (windowSize : nat) :
  windowFrom root [] windowSize = NaN_window.
Proof. destruct windowSize; reflexivity. Qed.

(** C2.  On the window of an empty history, whose statistics are all NaN,
    no rule fires, the only evidence is the fallback [unknown] evidence of
    score 1.0, and [diagnose] returns, with primary cause [unknown] and
    confidence 1.0. *)
Theorem empty_history_unknown (root : Q -> Q) (windowSize : nat) :
  let w := windowFrom root [] windowSize in
  w = NaN_window
  /\ healthy_rule new_DiagnosticEngine w = false
  /\ noise_spike_rule new_DiagnosticEngine w = false
  /\ wideband_jammer_rule new_DiagnosticEngine w = false
  /\ sync_loss_rule new_DiagnosticEngine w = false
  /\ congestion_rule new_DiagnosticEngine w = false
  /\ fading_rule new_DiagnosticEngine w = false
  /\ exists d : Diagnosis,
       fst (diagnose new_DiagnosticEngine w) = Returns d
       /\ contributing_rules d = [unknown_evidence]
       /\ score unknown_evidence = Fin 1.0
       /\ primary_cause d = UNKNOWN
       /\ same (confidence d) (Fin 1.0).
Proof.
  cbv zeta. rewrite windowFrom_empty.
  repeat (split; [reflexivity|]).
  eexists. split; [vm_compute; reflexivity|].
  repeat split.
Qed.

(** C5.  The guard of the second healthy branch is false for every engine,
    window and evidence array, the empty array included, so the branch
    never runs: no window is given its evidence of score 0.8. *)
Theorem healthy_fallback_unreachable
    (this : DiagnosticEngine) (w : WindowStats) :
  (forall evidences : list Evidence,
      to_boolean evidences = true
      /\ healthy_fallback_guard this w evidences = false)
  /\ Forall (fun ev => ev <> fallback_healthy_evidence)
       (snd (with_fallbacks this w)).
Proof.
  split; [intros evidences; split; reflexivity|].
  unfold with_fallbacks. rewrite healthy_fallback_guard_false.
  assert (H : Forall (fun ev => ev <> fallback_healthy_evidence)
                (rule_evidences this w)).
  { rewrite rule_evidences_fired. unfold fired.
    repeat (apply Forall_app; split);
      match goal with |- Forall _ (if ?b then _ else _) => destruct b end;
      constructor; try constructor;
      intros H; apply (f_equal explanation) in H; discriminate H. }
  destruct (Nat.eqb _ 0); simpl; [|exact H].
  unfold push. apply Forall_app. split; [exact H|].
  constructor; [|constructor].
  intros E; apply (f_equal explanation) in E; discriminate E.
Qed.

(** A window whose metrics look good (high SNR, BER below the moderate
    band) on which no rule fires: the diagnosis is [unknown], not
    [healthy]. *)
Definition quiet_window : WindowStats := {|
  snr_mean := Fin 25;
  snr_std := Fin 0.3;
  ber_mean := Fin 0.0001;
  ber_max := Fin 0.0005;
  latency_mean := Fin 20;
  retries_mean := Fin 0;
|}.

Example quiet_window_unknown :
  rule_evidences new_DiagnosticEngine quiet_window = []
  /\ ltb (ber_max quiet_window) (moderate_ber new_DiagnosticEngine) = true
  /\ gtb (snr_mean quiet_window) (good_snr_db new_DiagnosticEngine) = true
  /\ exists d, fst (diagnose new_DiagnosticEngine quiet_window) = Returns d
               /\ primary_cause d = UNKNOWN.
Proof.
  repeat (split; [reflexivity|]).
  eexists. split; [vm_compute; reflexivity|reflexivity].
Qed.

(** C7.  When the noise-spike rule holds, its evidence is emitted with
    the score [0.4 + 0.6 * clip((20 - snr_mean) / 10, 0..1)]. *)
Theorem noise_spike_score_formula (w : WindowStats) :
  noise_spike_rule new_DiagnosticEngine w = true ->
  In (noise_spike_evidence new_DiagnosticEngine w)
     (snd (with_fallbacks new_DiagnosticEngine w))
  /\ root_cause (noise_spike_evidence new_DiagnosticEngine w) = NOISE_SPIKE
  /\ same (score (noise_spike_evidence new_DiagnosticEngine w))
       (add (Fin 0.4)
          (mul (Fin 0.6)
             (clip (div (sub (Fin 20) (snr_mean w)) (Fin 10))
                (Fin 0) (Fin 1)))).
Proof.
  intros H. split; [|split; [reflexivity|]].
  - unfold with_fallbacks. rewrite healthy_fallback_guard_false.
    assert (Hin : In (noise_spike_evidence new_DiagnosticEngine w)
                    (rule_evidences new_DiagnosticEngine w)).
    { rewrite rule_evidences_fired, H. apply in_or_app. right.
      left. reflexivity. }
    destruct (Nat.eqb _ 0); simpl; [|exact Hin].
    apply in_or_app. left. exact Hin.
  - unfold noise_spike_rule in H. split_rule H.
    destruct (ltb_Fin_inv _ _ H) as [E|[q [E Hq]]];
      unfold noise_spike_evidence, clip; rewrite E; simpl.
    + lra.
    + assert (Hx : (20.0 - q) / 10.0 == (20 - q) / 10) by field.
      assert (Hy : 10 * ((20 - q) / 10) == 20 - q) by field.
      revert Hx Hy.
      generalize ((20.0 - q) / 10.0) as x, ((20 - q) / 10) as y.
      intros x y Hx Hy.
      destruct (Qltb x 1.0) eqn:E1; destruct (Qltb y 1) eqn:E2; simpl;
        try apply Qltb_lt in E1; try apply Qltb_ge in E1;
        try apply Qltb_lt in E2; try apply Qltb_ge in E2;
        try lra.
      destruct (Qltb 0 y) eqn:E3; simpl; [lra|].
      apply Qltb_ge in E3. lra.
Qed.

(** A window on which the noise-spike rule holds. *)
Definition noisy_window : WindowStats := {|
  snr_mean := Fin 15;
  snr_std := Fin 1.8;
  ber_mean := Fin 0.001;
  ber_max := Fin 0.005;
  latency_mean := Fin 25;
  retries_mean := Fin 0;
|}.

Lemma noise_spike_score_formula_witness :
  noise_spike_rule new_DiagnosticEngine noisy_window = true
  /\ In (noise_spike_evidence new_DiagnosticEngine noisy_window)
       (snd (with_fallbacks new_DiagnosticEngine noisy_window))
  /\ root_cause (noise_spike_evidence new_DiagnosticEngine noisy_window)
     = NOISE_SPIKE
  /\ same (score (noise_spike_evidence new_DiagnosticEngine noisy_window))
       (add (Fin 0.4)
          (mul (Fin 0.6)
             (clip (div (sub (Fin 20) (snr_mean noisy_window)) (Fin 10))
                (Fin 0) (Fin 1)))).
Proof.
  split; [reflexivity|].
  apply (noise_spike_score_formula noisy_window). reflexivity.
Defined.

(** Reads the thresholds [new DiagnosticEngine()] sets. *)
Ltac thresholds :=
  cbn [good_snr_db moderate_snr_db bad_snr_db good_ber moderate_ber bad_ber
       latency_warn_ms latency_bad_ms retries_warn retries_bad
       new_DiagnosticEngine].

(** C10.  When the healthy rule fires no other rule fires, and the
    diagnosis is [healthy] with confidence 1.0. *)
Theorem healthy_excludes_faults (w : WindowStats) :
  healthy_rule new_DiagnosticEngine w = true ->
  noise_spike_rule new_DiagnosticEngine w = false
  /\ wideband_jammer_rule new_DiagnosticEngine w = false
  /\ sync_loss_rule new_DiagnosticEngine w = false
  /\ congestion_rule new_DiagnosticEngine w = false
  /\ fading_rule new_DiagnosticEngine w = false
  /\ exists d : Diagnosis,
       fst (diagnose new_DiagnosticEngine w) = Returns d
       /\ contributing_rules d = [healthy_evidence]
       /\ primary_cause d = HEALTHY
       /\ same (confidence d) (Fin 1.0).
Proof.
  intros H. pose proof H as Hh. unfold healthy_rule in H. split_rule H.
  assert (Hn : noise_spike_rule new_DiagnosticEngine w = false).
  { unfold noise_spike_rule. thresholds.
    rewrite (gtb_ltb_disjoint _ 20.0 20.0 ltac:(lra) H). reflexivity. }
  assert (Hj : wideband_jammer_rule new_DiagnosticEngine w = false).
  { unfold wideband_jammer_rule. thresholds.
    rewrite (gtb_ltb_disjoint _ 20.0 12.0 ltac:(lra) H). reflexivity. }
  assert (Hs : sync_loss_rule new_DiagnosticEngine w = false).
  { unfold sync_loss_rule. thresholds.
    rewrite (ltb_gtb_disjoint _ 0.00001 0.05 ltac:(lra) H2). reflexivity. }
  assert (Hc : congestion_rule new_DiagnosticEngine w = false).
  { unfold congestion_rule. thresholds.
    rewrite (ltb_gtb_disjoint _ 80.0 80.0 ltac:(lra) H1). reflexivity. }
  assert (Hf : fading_rule new_DiagnosticEngine w = false).
  { unfold fading_rule. thresholds.
    rewrite (gtb_ltb_disjoint _ 20.0 20.0 ltac:(lra) H). reflexivity. }
  repeat (split; [assumption|]).
  unfold diagnose, with_fallbacks.
  rewrite healthy_fallback_guard_false, rule_evidences_fired.
  rewrite Hh, Hn, Hj, Hs, Hc, Hf. simpl.
  eexists. split; [reflexivity|]. simpl. repeat split.
Qed.

(** A window on which the healthy rule holds. *)
Definition nominal_window : WindowStats := {|
  snr_mean := Fin 25;
  snr_std := Fin 0.3;
  ber_mean := Fin 0.000001;
  ber_max := Fin 0.000002;
  latency_mean := Fin 20;
  retries_mean := Fin 0;
|}.

Lemma healthy_excludes_faults_witness :
  healthy_rule new_DiagnosticEngine nominal_window = true
  /\ noise_spike_rule new_DiagnosticEngine nominal_window = false
  /\ wideband_jammer_rule new_DiagnosticEngine nominal_window = false
  /\ sync_loss_rule new_DiagnosticEngine nominal_window = false
  /\ congestion_rule new_DiagnosticEngine nominal_window = false
  /\ fading_rule new_DiagnosticEngine nominal_window = false
  /\ exists d : Diagnosis,
       fst (diagnose new_DiagnosticEngine nominal_window) = Returns d
       /\ contributing_rules d = [healthy_evidence]
       /\ primary_cause d = HEALTHY
       /\ same (confidence d) (Fin 1.0).
Proof.
  split; [reflexivity|].
  apply (healthy_excludes_faults nominal_window). reflexivity.
Defined.

(** ** The claims on [step] *)

Lemma Qltb_zero (x : Q) : x == 0 -> Qltb 0 x = false.
Proof. intros H. apply Qltb_ge. lra. Qed.

(** C8.  When the five levels of the configuration are all zero, no fault
    is active in the sample [step] returns, whatever the draws. *)
Theorem zero_levels_no_active_faults
    (pow10 : Q -> Q) (this : CommLinkSimulator) (g : rng) :
  noise_spike_level (fault_config this) == 0 ->
  jammer_level (fault_config this) == 0 ->
  sync_loss_prob (fault_config this) == 0 ->
  congestion_level (fault_config this) == 0 ->
  fading_severity (fault_config this) == 0 ->
  active_faults (fst (fst (step pow10 this g))) = [].
Proof.
  intros Hn Hj Hs Hc Hf.
  unfold step, bind. cbn [fault_config].
  rewrite (Qltb_zero _ Hn), (Qltb_zero _ Hj), (Qltb_zero _ Hs),
    (Qltb_zero _ Hc), (Qltb_zero _ Hf).
  reflexivity.
Qed.

(** The cases of a step: one for each way through its branches. *)
Ltac step_cases :=
  unfold step, bind, randn, Math_random, poisson, ret;
  cbn [fault_config];
  change (Qle_bool 3 0) with false;
  repeat first
    [ progress cbn [fst snd negb]
    | progress rewrite ?Bool.andb_false_r, ?Bool.andb_true_r
    | match goal with
      | |- context [if ?c then _ else _] =>
          lazymatch c with
          | context [if _ then _ else _] => fail
          | _ => destruct c eqn:?
          end
      end ].

(** The BER an outage writes, once clipped. *)
Lemma outage_ber_range (u : Q) :
  0 <= u -> u < 1 ->
  0.1 <= Qmin (Qmax (0.1 + 0.8 * u) 0.000000001) 0.5
  /\ Qmin (Qmax (0.1 + 0.8 * u) 0.000000001) 0.5 <= 0.9.
Proof.
  intros H0 H1. split.
  - apply Q.min_glb; [|lra].
    apply Qle_trans with (0.1 + 0.8 * u); [lra|apply Q.le_max_l].
  - apply Qle_trans with 0.5; [apply Q.le_min_r|lra].
Qed.

(** C3.  When [sync_loss_prob] is 1, whatever the other levels, every
    step declares an outage: the BER of the sample is the clipped
    [0.1 + 0.8 * u] for a uniform draw [u] and lies in [[0.1, 0.9]], its
    SNR is the clipped baseline plus one normal draw, [sync_loss] is
    active and neither [congestion] nor [fading] is. *)
Theorem sync_loss_overrides
    (pow10 : Q -> Q) (this : CommLinkSimulator) (g : rng) :
  uniform_range g ->
  sync_loss_prob (fault_config this) == 1 ->
  let s := fst (fst (step pow10 this g)) in
  0.1 <= ber s /\ ber s <= 0.9
  /\ (exists i : nat,
        ber s = Qmin (Qmax (0.1 + 0.8 * uniform_tape g i) 0.000000001) 0.5)
  /\ (exists j : nat,
        snr_db s
        = Qmin (Qmax (baseline_snr_db this + normal_tape g j) (-5)) 40)
  /\ In FaultType.SYNC_LOSS (active_faults s)
  /\ ~ In FaultType.CONGESTION (active_faults s)
  /\ ~ In FaultType.FADING (active_faults s).
Proof.
  intros Hu Hp.
  assert (Hpos : Qltb 0 (sync_loss_prob (fault_config this)) = true)
    by (apply Qltb_lt; lra).
  assert (Hdraw : forall i,
             Qltb (uniform_tape g i) (sync_loss_prob (fault_config this))
             = true).
  { intros i. apply Qltb_lt. destruct (Hu i). lra. }
  cbv zeta. step_cases;
    cbn [advance uniform_tape normal_tape cursor] in *;
    try congruence;
    try match goal with
        | H : Qltb (uniform_tape g ?i) _ = false |- _ =>
            rewrite (Hdraw i) in H; discriminate H
        end;
    cbn [ber snr_db active_faults baseline_snr_db push app];
    match goal with
    | |- context [0.8 * uniform_tape g ?i] =>
        destruct (Hu i) as [H0 H1];
        destruct (outage_ber_range _ H0 H1) as [Hlo Hhi]
    end;
    (split; [exact Hlo|]); (split; [exact Hhi|]);
    (split; [eexists; reflexivity|]);
    (split; [eexists; reflexivity|]);
    (split; [simpl; tauto|]);
    split; simpl; intuition discriminate.
Qed.

(** Whatever the configuration, a sample tagged [sync_loss] is tagged
    neither [congestion] nor [fading]. *)
Lemma outage_masks_congestion_and_fading
    (pow10 : Q -> Q) (this : CommLinkSimulator) (g : rng) :
  let s := fst (fst (step pow10 this g)) in
  In FaultType.SYNC_LOSS (active_faults s) ->
  ~ In FaultType.CONGESTION (active_faults s)
  /\ ~ In FaultType.FADING (active_faults s).
Proof.
  cbv zeta. step_cases; cbn [active_faults push app]; simpl;
    intuition discriminate.
Qed.

(** ** The steps that overflow *)

(** The cases of a step within the range of a double. *)
Ltac binary64_step_cases :=
  unfold Binary64.step, bind, randn, Math_random, Binary64.poisson, ret;
  cbn [fault_config];
  change (leb (Fin 3) (Fin 0)) with false;
  repeat first
    [ progress cbn [fst snd negb]
    | progress rewrite ?Bool.andb_false_r, ?Bool.andb_true_r
    | match goal with
      | |- context [if ?c then _ else _] =>
          lazymatch c with
          | context [if _ then _ else _] => fail
          | _ => destruct c eqn:?
          end
      | |- context [match ?x with
                    | NaN => _ | NegInf => _ | PosInf => _ | Fin _ => _
                    end] =>
          destruct x eqn:?
      end ].

(** Every step ends in the four clips. *)
Lemma binary64_step_clipped
    (pow10 : Q -> Q) (this : CommLinkSimulator) (g : rng) :
  exists raw_snr raw_ber raw_latency raw_retries : num,
    let s := fst (fst (Binary64.step pow10 this g)) in
    Binary64.snr_db s = Math_min (Math_max raw_snr (Fin (-5))) (Fin 40)
    /\ Binary64.ber s
       = Math_min (Math_max raw_ber (Fin 0.000000001)) (Fin 0.5)
    /\ Binary64.latency_ms s = Math_max (Fin 1.0) raw_latency
    /\ Binary64.retries s = Math_max (Fin 0) (Math_round raw_retries).
Proof.
  binary64_step_cases; do 4 eexists; repeat split; reflexivity.
Qed.

(** A real number between two bounds. *)
Definition within (lo hi : Q) (a : num) : Prop :=
  exists q : Q, a = Fin q /\ lo <= q /\ q <= hi.

(** The four clips that end a step.  [Math.min] and [Math.max] give NaN
    for NaN, so each clip lets NaN through; the last two let [Infinity]
    through as well. *)
Lemma range_clip (lo hi : Q) (x : num) :
  lo <= hi ->
  Math_min (Math_max x (Fin lo)) (Fin hi) = NaN /\ x = NaN
  \/ within lo hi (Math_min (Math_max x (Fin lo)) (Fin hi)).
Proof.
  intros Hlh. destruct x as [| | |q].
  - left. split; reflexivity.
  - right. cbn. destruct (Qltb hi lo) eqn:E.
    + apply Qltb_lt in E. lra.
    + exists lo. repeat split; lra.
  - right. exists hi. repeat split; lra.
  - right. unfold Math_max, ltb. destruct (Qltb q lo) eqn:E1.
    + apply Qltb_lt in E1. unfold Math_min, ltb.
      destruct (Qltb hi lo) eqn:E2.
      * apply Qltb_lt in E2. lra.
      * exists lo. repeat split; lra.
    + apply Qltb_ge in E1. unfold Math_min, ltb.
      destruct (Qltb hi q) eqn:E2.
      * exists hi. repeat split; lra.
      * apply Qltb_ge in E2. exists q. repeat split; lra.
Qed.

Lemma latency_clip (x : num) :
  Math_max (Fin 1.0) x = NaN /\ x = NaN
  \/ Math_max (Fin 1.0) x = PosInf /\ x = PosInf
  \/ exists q : Q, Math_max (Fin 1.0) x = Fin q /\ 1.0 <= q.
Proof.
  destruct x as [| | |q].
  - left. split; reflexivity.
  - right. right. exists 1.0. split; [reflexivity|lra].
  - right. left. split; reflexivity.
  - right. right. unfold Math_max, ltb. destruct (Qltb 1.0 q) eqn:E.
    + apply Qltb_lt in E. exists q. split; [reflexivity|lra].
    + exists 1.0. split; [reflexivity|lra].
Qed.

Lemma retries_clip (x : num) :
  Math_max (Fin 0) (Math_round x) = NaN /\ x = NaN
  \/ Math_max (Fin 0) (Math_round x) = PosInf /\ x = PosInf
  \/ exists n : Z,
       (0 <= n)%Z /\ Math_max (Fin 0) (Math_round x) = Fin (inject_Z n).
Proof.
  destruct x as [| | |q].
  - left. split; reflexivity.
  - right. right. exists 0%Z. split; [lia|reflexivity].
  - right. left. split; reflexivity.
  - right. right. unfold Math_round, Math_max, ltb.
    destruct (Qltb 0 (inject_Z (Qfloor (q + (1 # 2))))) eqn:E.
    + apply Qltb_lt in E. change 0 with (inject_Z 0) in E.
      rewrite <- Zlt_Qlt in E.
      exists (Qfloor (q + (1 # 2))). split; [lia|reflexivity].
    + exists 0%Z. split; [lia|reflexivity].
Qed.

(** X30.  Within the range of a double, whatever the configuration and
    the draws, the SNR of a sample is NaN or in [[-5, 40]], its BER is NaN
    or in [[1e-9, 0.5]], its latency is NaN, [Infinity] or at least 1.0, and
    its retries are NaN, [Infinity] or a non-negative integer: the clips
    let nothing else through. *)
Theorem binary64_step_in_range_or_not_real
    (pow10 : Q -> Q) (this : CommLinkSimulator) (g : rng) :
  let s := fst (fst (Binary64.step pow10 this g)) in
  (Binary64.snr_db s = NaN \/ within (-5) 40 (Binary64.snr_db s))
  /\ (Binary64.ber s = NaN \/ within 0.000000001 0.5 (Binary64.ber s))
  /\ (Binary64.latency_ms s = NaN \/ Binary64.latency_ms s = PosInf
      \/ exists q : Q, Binary64.latency_ms s = Fin q /\ 1.0 <= q)
  /\ (Binary64.retries s = NaN \/ Binary64.retries s = PosInf
      \/ exists n : Z,
           (0 <= n)%Z /\ Binary64.retries s = Fin (inject_Z n)).
Proof.
  destruct (binary64_step_clipped pow10 this g)
    as (raw_snr & raw_ber & raw_latency & raw_retries
        & Hsnr & Hber & Hlat & Hret).
  cbv zeta in *. rewrite Hsnr, Hber, Hlat, Hret.
  split; [|split; [|split]].
  - destruct (range_clip (-5) 40 raw_snr ltac:(lra)) as [[H _]|H]; tauto.
  - destruct (range_clip 0.000000001 0.5 raw_ber ltac:(lra)) as [[H _]|H];
      tauto.
  - destruct (latency_clip raw_latency) as [[H _]|[[H _]|H]]; tauto.
  - destruct (retries_clip raw_retries) as [[H _]|[[H _]|H]]; tauto.
Qed.

(** ** Concrete runs *)

(** A random source: the tapes of a fixed run. *)
Definition sample_rng : rng := {|
  normal_tape := fun i => inject_Z (Z.of_nat i mod 7 - 3) / 2;
  uniform_tape := fun i => 1 # 2;
  poisson_tape := fun i => (i mod 5)%nat;
  cursor := 0;
|}.

Lemma sample_rng_range : uniform_range sample_rng.
Proof. intros i. simpl. split; lra. Qed.

(** A configuration with every fault on and a certain outage. *)
Definition outage_config : FaultConfig := {|
  noise_spike_level := 1;
  jammer_level := 2;
  sync_loss_prob := 1.0;
  congestion_level := 1.5;
  fading_severity := 3;
|}.

Lemma zero_levels_no_active_faults_witness :
  active_faults
    (fst (fst (step (fun _ => 1) new_CommLinkSimulator sample_rng))) = [].
Proof.
  apply zero_levels_no_active_faults; reflexivity.
Defined.

Lemma sync_loss_overrides_witness :
  uniform_range sample_rng
  /\ sync_loss_prob outage_config == 1
  /\ let s :=
       fst (fst (step (fun _ => 1)
                   (setFaultConfig new_CommLinkSimulator outage_config)
                   sample_rng)) in
     0.1 <= ber s /\ ber s <= 0.9
     /\ (exists i : nat,
           ber s
           = Qmin (Qmax (0.1 + 0.8 * uniform_tape sample_rng i) 0.000000001)
               0.5)
     /\ (exists j : nat,
           snr_db s
           = Qmin (Qmax (25.0 + normal_tape sample_rng j) (-5)) 40)
     /\ In FaultType.SYNC_LOSS (active_faults s)
     /\ ~ In FaultType.CONGESTION (active_faults s)
     /\ ~ In FaultType.FADING (active_faults s).
Proof.
  split; [exact sample_rng_range|]. split; [reflexivity|].
  apply (sync_loss_overrides (fun _ => 1)
           (setFaultConfig new_CommLinkSimulator outage_config) sample_rng
           sample_rng_range).
  reflexivity.
Defined.

(** Two rules at their full score: the probabilities tie at one half and
    the earlier rule is ranked first. *)
Definition jammed_window : WindowStats := {|
  snr_mean := Fin 2;
  snr_std := Fin 1.8;
  ber_mean := Fin 0.002;
  ber_max := Fin 0.005;
  latency_mean := Fin 25;
  retries_mean := Fin 2;
|}.

Example tie_keeps_rule_order :
  exists (d : Diagnosis) (p : Q),
    fst (diagnose new_DiagnosticEngine jammed_window) = Returns d
    /\ ranked_causes d = [(NOISE_SPIKE, Fin p); (WIDEBAND_JAMMER, Fin p)]
    /\ p == 1 # 2
    /\ primary_cause d = NOISE_SPIKE.
Proof.
  eexists. eexists. split; [vm_compute; reflexivity|].
  repeat split.
Qed.

(** One step under [outage_config]: the outage hides congestion and
    fading, and the BER it writes is clipped to 0.5. *)
Example outage_step :
  let s := fst (fst (step (fun _ => 1)
                       (setFaultConfig new_CommLinkSimulator outage_config)
                       sample_rng)) in
  active_faults s
  = [FaultType.NOISE_SPIKE; FaultType.WIDEBAND_JAMMER; FaultType.SYNC_LOSS]
  /\ ber s == 0.5
  /\ sample_t s = 1%Z.
Proof.
  vm_compute. repeat split.
Qed.

(** ** A step that overflows *)

(** A configuration with two levels near the largest double. *)
Definition overflowing_config : FaultConfig := {|
  noise_spike_level := inject_Z (10 ^ 308);
  jammer_level := inject_Z (10 ^ 308);
  sync_loss_prob := 0;
  congestion_level := 0;
  fading_severity := 0;
|}.

(** A run whose normal draws are all [-4], whatever its other draws. *)
Definition low_rng (uniform : nat -> Q) (counts : nat -> nat) : rng := {|
  normal_tape := fun i => -4;
  uniform_tape := uniform;
  poisson_tape := counts;
  cursor := 0;
|}.

(** C4.  The clips do not hold for every configuration.  With the noise
    and the jammer levels at [1e308] and normal draws of [-4],
    [8.0 * noise] is [Infinity] and [randn() * (1.0 * noise)] is
    [-Infinity], so their sum is NaN, and so are the exponent of the BER
    and the latency of the jammer; [5 * jam] is [Infinity].  The sample
    [step] returns has an SNR, a BER and a latency that are NaN, and
    retries that are [Infinity]. *)
Theorem step_overflow_escapes_clips
    (pow10 : Q -> Q) (uniform : nat -> Q) (counts : nat -> nat) :
  let s :=
    fst (fst (Binary64.step pow10
                (setFaultConfig new_CommLinkSimulator overflowing_config)
                (low_rng uniform counts))) in
  Binary64.snr_db s = NaN
  /\ Binary64.ber s = NaN
  /\ Binary64.latency_ms s = NaN
  /\ Binary64.retries s = PosInf
  /\ Binary64.active_faults s
     = [FaultType.NOISE_SPIKE; FaultType.WIDEBAND_JAMMER].
Proof.
  cbv zeta. unfold Binary64.step, bind, randn, ret.
  cbn [fst snd low_rng normal_tape cursor advance].
  match goal with
  | |- context [Math_max (Binary64.mul ?a (Binary64.power_of_ten pow10 ?e))
                  ?c] =>
      generalize (Math_max (Binary64.mul a (Binary64.power_of_ten pow10 e)) c)
  end.
  intros [| | |q]; vm_compute; repeat split.
Qed.

(** A number times an infinity is an infinity or NaN. *)
Lemma mul_infinity (b : num) :
  Binary64.mul b PosInf = NaN
  \/ Binary64.mul b PosInf = PosInf
  \/ Binary64.mul b PosInf = NegInf.
Proof.
  destruct b as [| | |q]; try (vm_compute; tauto).
  unfold Binary64.mul, JS.mul, scale_inf.
  destruct (Qeq_bool q 0); [tauto|].
  destruct (Qltb 0 q); simpl; tauto.
Qed.

(** Levels far from the largest double: the noise spike takes the BER to
    [Infinity] and congestion multiplies it by zero. *)
Definition overflowing_underflowing_config : FaultConfig := {|
  noise_spike_level := 200;
  jammer_level := 0;
  sync_loss_prob := 0;
  congestion_level := 10000;
  fading_severity := 0;
|}.

(** A run whose normal draws are all zero, but for the one congestion
    takes for the BER, which is [-4]. *)
Definition one_low_rng : rng := {|
  normal_tape := fun i => if (i =? 7)%nat then -4 else 0;
  uniform_tape := fun i => 1 # 2;
  poisson_tape := fun i => 0%nat;
  cursor := 0;
|}.

(** [10 ** 400] is [Infinity] and [10 ** -1000] is zero: the BER is
    [Infinity * 0], which is NaN, and the clip keeps it. *)
Example infinity_times_zero (pow10 : Q -> Q) :
  Binary64.ber
    (fst (fst (Binary64.step pow10
                 (setFaultConfig new_CommLinkSimulator
                    overflowing_underflowing_config)
                 one_low_rng)))
  = NaN.
Proof.
  unfold Binary64.step, bind, randn, ret, Binary64.poisson.
  cbn [fst snd one_low_rng normal_tape cursor advance poisson_tape
       fault_config setFaultConfig overflowing_underflowing_config
       noise_spike_level jammer_level sync_loss_prob congestion_level
       fading_severity Nat.eqb].
  change (gtb (Fin 200) (Fin 0)) with true.
  change (gtb (Fin 0) (Fin 0)) with false.
  change (gtb (Fin 10000) (Fin 0)) with true.
  cbn [fst snd negb andb Binary64.ber].
  change (leb (Binary64.mul (Fin 3) (Fin 10000)) (Fin 0)) with false.
  cbv iota. cbn [fst snd Binary64.ber].
  match goal with
  | |- context [Math_max (Binary64.mul ?a (Binary64.power_of_ten pow10 ?e))
                  ?c] =>
      generalize (Math_max (Binary64.mul a (Binary64.power_of_ten pow10 e)) c)
  end.
  intros b.
  repeat match goal with
  | |- context [Binary64.power_of_ten pow10 ?e] =>
      let v := eval vm_compute in (Binary64.power_of_ten pow10 e) in
      change (Binary64.power_of_ten pow10 e) with v
  end.
  destruct (mul_infinity b) as [E|[E|E]]; rewrite E; reflexivity.
Qed.

(** Within range the two simulators agree: a step under [outage_config]
    gives the same sample on reals and on doubles. *)
Example step_within_range :
  let this := setFaultConfig new_CommLinkSimulator outage_config in
  let s := fst (fst (step (fun _ => 1) this sample_rng)) in
  let s' := fst (fst (Binary64.step (fun _ => 1) this sample_rng)) in
  Binary64.snr_db s' = Fin (snr_db s)
  /\ Binary64.ber s' = Fin (ber s)
  /\ Binary64.latency_ms s' = Fin (latency_ms s)
  /\ Binary64.retries s' = Fin (retries s)
  /\ Binary64.active_faults s' = active_faults s
  /\ Binary64.sample_t s' = sample_t s.
Proof.
  vm_compute. repeat split.
Qed.

(** * Further properties of the engine *)

(** ** Any thresholds *)

Lemma sort_insert_Permutation {A : Type} (cmp : A -> A -> num) (x : A)
    (l : list A) :
  Permutation (sort_insert cmp x l) (x :: l).
Proof.
  induction l as [|y l IH]; cbn [sort_insert]; [reflexivity|].
  destruct (gtb (cmp x y) (Fin 0)); [|reflexivity].
  rewrite IH. apply perm_swap.
Qed.

Lemma sort_Permutation {A : Type} (cmp : A -> A -> num) (l : list A) :
  Permutation (sort cmp l) l.
Proof.
  induction l as [|x l IH]; simpl; [reflexivity|].
  rewrite sort_insert_Permutation. constructor. exact IH.
Qed.

Lemma earlier_rule_NoDup (causes : list RootCause) :
  StronglySorted earlier_rule causes -> NoDup causes.
Proof.
  induction 1 as [|c l Hl IH Hc]; constructor; [|exact IH].
  intros Hin. rewrite Forall_forall in Hc.
  exact (earlier_rule_irrefl c (Hc c Hin)).
Qed.

(** Whatever the thresholds, the fallbacks leave one score for each
    evidence, in the order of the rules, and at least one. *)
Lemma with_fallbacks_causes (this : DiagnosticEngine) (w : WindowStats) :
  Object_keys (fst (with_fallbacks this w))
  = map root_cause (snd (with_fallbacks this w))
  /\ snd (with_fallbacks this w) <> []
  /\ StronglySorted earlier_rule
       (map root_cause (snd (with_fallbacks this w))).
Proof.
  unfold with_fallbacks. rewrite healthy_fallback_guard_false.
  rewrite (rule_scores_sorted _ (rule_evidences_sorted this w)).
  pose proof (rule_evidences_sorted this w) as Hs.
  destruct (rule_evidences this w) as [|ev rest].
  - simpl. repeat split; [discriminate|repeat constructor].
  - cbn [map List.length Object_keys Nat.eqb fst snd].
    repeat split; [|discriminate|exact Hs].
    f_equal. rewrite map_map. reflexivity.
Qed.

Lemma ranked_keys (scores : object) :
  Permutation (map fst (ranked scores)) (Object_keys scores).
Proof.
  unfold ranked. rewrite sort_Permutation.
  unfold Object_entries, Object_keys. rewrite map_map.
  erewrite map_ext; [reflexivity|]. intros [k v]. reflexivity.
Qed.

(** What [diagnose] returns, whatever the thresholds. *)
Lemma diagnose_returns (this : DiagnosticEngine) (w : WindowStats) :
  exists (c : RootCause) (p : num) (rest : list (RootCause * num)),
    ranked (fst (with_fallbacks this w)) = (c, p) :: rest
    /\ diagnose this w
       = (Returns {|
            primary_cause := c;
            confidence := p;
            ranked_causes := (c, p) :: rest;
            diagnosis_explanation :=
              _buildExplanation w c p (snd (with_fallbacks this w));
            contributing_rules := snd (with_fallbacks this w);
            suggested_actions := _suggestActions c |},
          this).
Proof.
  destruct (with_fallbacks_causes this w) as [Hk [Hne _]].
  pose proof (ranked_keys (fst (with_fallbacks this w))) as Hp.
  unfold diagnose.
  destruct (with_fallbacks this w) as [scores evidences]. simpl in *.
  destruct (ranked scores) as [|[c p] rest].
  - simpl in Hp. apply Permutation_nil in Hp. rewrite Hk in Hp.
    destruct evidences; [congruence|discriminate].
  - exists c, p, rest. split; reflexivity.
Qed.

(** X1.  Whatever the thresholds of the engine and whatever the window,
    [diagnose] returns a diagnosis and throws nothing: the list it takes
    its first entry from is never empty. *)
Theorem diagnose_never_throws (this : DiagnosticEngine) (w : WindowStats) :
  exists d : Diagnosis,
    diagnose this w = (Returns d, this)
    /\ ranked_causes d <> []
    /\ contributing_rules d <> []
    /\ List.length (ranked_causes d) = List.length (contributing_rules d).
Proof.
  destruct (diagnose_returns this w) as (c & p & rest & Hr & Hd).
  destruct (with_fallbacks_causes this w) as [Hk [Hne _]].
  rewrite Hd. eexists. split; [reflexivity|].
  cbn [ranked_causes contributing_rules].
  repeat split; [discriminate|exact Hne|].
  rewrite <- Hr.
  rewrite <- (length_map fst), <- (length_map root_cause), <- Hk.
  apply Permutation_length, ranked_keys.
Qed.

(** X2.  Whatever the thresholds, the causes ranked are the causes of the
    contributing evidence, each of them once: no cause is ranked without
    evidence, none twice, and every evidence has its cause ranked. *)
Theorem ranked_causes_are_evidence_causes
    (this : DiagnosticEngine) (w : WindowStats) :
  exists d : Diagnosis,
    fst (diagnose this w) = Returns d
    /\ Permutation (map fst (ranked_causes d))
         (map root_cause (contributing_rules d))
    /\ NoDup (map fst (ranked_causes d))
    /\ NoDup (map root_cause (contributing_rules d)).
Proof.
  destruct (diagnose_returns this w) as (c & p & rest & Hr & Hd).
  destruct (with_fallbacks_causes this w) as [Hk [_ Hs]].
  rewrite Hd. eexists. split; [reflexivity|]. simpl.
  assert (HP : Permutation (map fst ((c, p) :: rest))
                 (map root_cause (snd (with_fallbacks this w)))).
  { rewrite <- Hr, <- Hk. apply ranked_keys. }
  repeat split.
  - exact HP.
  - apply (Permutation_NoDup (Permutation_sym HP)).
    apply earlier_rule_NoDup. exact Hs.
  - apply earlier_rule_NoDup. exact Hs.
Qed.

(** ** Probabilities *)

Lemma Qsum_ge_member (l : list Q) (x : Q) :
  Forall (fun q => 0 < q) l -> In x l -> x <= Qsum l.
Proof.
  induction 1 as [|y l Hy Hl IH]; simpl; [intros []|].
  intros [->|Hin].
  - destruct l as [|z l]; [simpl; lra|].
    assert (0 < Qsum (z :: l)) by (apply Qsum_positive; [discriminate|exact Hl]).
    lra.
  - specialize (IH Hin). lra.
Qed.

Lemma Qsum_le_length (l : list Q) (m : Q) :
  Forall (fun q => q <= m) l ->
  Qsum l <= inject_Z (Z.of_nat (List.length l)) * m.
Proof.
  induction 1 as [|x l Hx Hl IH].
  - simpl. change (inject_Z 0) with 0. lra.
  - cbn [Qsum fold_right List.length]. fold (Qsum l).
    rewrite Nat2Z.inj_succ. unfold Z.succ. rewrite inject_Z_plus.
    change (inject_Z 1) with 1.
    setoid_replace ((inject_Z (Z.of_nat (List.length l)) + 1) * m)
      with (m + inject_Z (Z.of_nat (List.length l)) * m) by ring.
    lra.
Qed.

Lemma normalized_sum (qs : list (RootCause * Q)) :
  0 < fold_left Qplus (map snd qs) 0 ->
  Qsum (map snd (normalized qs)) == 1.
Proof.
  intros HT. unfold normalized. rewrite map_map. simpl.
  rewrite <- (map_map snd (fun q => q / _)), Qsum_div.
  rewrite fold_left_Qplus in HT |- *. field. lra.
Qed.

Lemma rule_evidences_length (this : DiagnosticEngine) (w : WindowStats) :
  (List.length (snd (with_fallbacks this w)) <= 6)%nat.
Proof.
  unfold with_fallbacks. rewrite healthy_fallback_guard_false.
  rewrite (rule_scores_sorted _ (rule_evidences_sorted this w)).
  rewrite rule_evidences_fired. unfold fired.
  destruct (healthy_rule this w), (noise_spike_rule this w),
    (wideband_jammer_rule this w), (sync_loss_rule this w),
    (congestion_rule this w), (fading_rule this w); simpl; lia.
Qed.

(** X3.  Every ranked probability is a real in [(0, 1]], none is above the
    confidence, and the confidence is at least one sixth: with six rules
    at most six causes share the probability. *)
Theorem confidence_bounds (w : WindowStats) :
  exists (d : Diagnosis) (p : Q),
    fst (diagnose new_DiagnosticEngine w) = Returns d
    /\ confidence d = Fin p
    /\ 1 # 6 <= p /\ p <= 1
    /\ Forall (fun cp => exists q, snd cp = Fin q /\ 0 < q /\ q <= p)
         (ranked_causes d).
Proof.
  destruct (diagnose_real w)
    as (qs & rs & c & p & rest & _ & F & Hne & Hpos & _ & HT & Hrs & Pr
        & Sr & _ & Hd).
  cbv zeta in *. rewrite Hd. eexists. exists p.
  split; [reflexivity|]. split; [reflexivity|]. simpl.
  (* every probability is positive and at most [p] *)
  assert (Hall : Forall (fun cq => 0 < snd cq /\ snd cq <= p) rs).
  { assert (Hposr : Forall (fun cq => 0 < snd cq) rs).
    { apply (Permutation_Forall (Permutation_sym Pr)).
      unfold normalized. rewrite Forall_map. simpl.
      eapply Forall_impl; [|exact Hpos]. intros cq Hq. simpl in Hq.
      apply Qlt_shift_div_l; lra. }
    subst rs. inversion Sr as [|? ? _ Hle]; subst.
    inversion Hposr as [|? ? Hp Hrest]; subst.
    constructor; [simpl in *; lra|].
    rewrite Forall_forall in Hle, Hrest |- *. intros x Hx. split.
    - apply Hrest. exact Hx.
    - apply (outranks_le _ _ (Hle x Hx)). }
  (* the probabilities sum to one *)
  assert (Hsum : Qsum (map snd rs) == 1).
  { rewrite (Qsum_Permutation _ _ (Permutation_map snd Pr)).
    apply normalized_sum. exact HT. }
  assert (Hlen : (List.length rs <= 6)%nat).
  { rewrite (Permutation_length Pr). unfold normalized. rewrite length_map.
    rewrite <- (Forall2_length F). apply rule_evidences_length. }
  assert (Hbound : Qsum (map snd rs)
                   <= inject_Z (Z.of_nat (List.length (map snd rs))) * p).
  { apply Qsum_le_length. rewrite Forall_map.
    eapply Forall_impl; [|exact Hall]. intros cq [_ H]. exact H. }
  rewrite length_map in Hbound.
  assert (Hp : 0 < p).
  { subst rs. inversion Hall as [|? ? [H _] _]; subst. exact H. }
  assert (Hn : inject_Z (Z.of_nat (List.length rs)) <= 6).
  { change 6 with (inject_Z 6). rewrite <- Zle_Qle. lia. }
  repeat split.
  - nra.
  - assert (Hin : In p (map snd rs)).
    { subst rs. left. reflexivity. }
    pose proof (Qsum_ge_member (map snd rs) p) as Hge.
    rewrite Forall_map in Hge.
    assert (p <= Qsum (map snd rs)); [|lra].
    apply Hge; [|exact Hin].
    eapply Forall_impl; [|exact Hall]. intros cq [H _]. exact H.
  - unfold entries_of. rewrite Forall_map.
    eapply Forall_impl; [|exact Hall]. intros cq [H1 H2]. simpl.
    exists (snd cq). auto.
Qed.

(** ** Which evidence contributes *)

Definition no_rule_fires (this : DiagnosticEngine) (w : WindowStats) : Prop :=
  healthy_rule this w = false
  /\ noise_spike_rule this w = false
  /\ wideband_jammer_rule this w = false
  /\ sync_loss_rule this w = false
  /\ congestion_rule this w = false
  /\ fading_rule this w = false.

Lemma rule_evidences_nil_iff (this : DiagnosticEngine) (w : WindowStats) :
  rule_evidences this w = [] <-> no_rule_fires this w.
Proof.
  rewrite rule_evidences_fired. unfold no_rule_fires, fired.
  destruct (healthy_rule this w), (noise_spike_rule this w),
    (wideband_jammer_rule this w), (sync_loss_rule this w),
    (congestion_rule this w), (fading_rule this w); simpl;
    split; intros H; try discriminate H; try reflexivity;
    try (decompose [and] H; discriminate); repeat split.
Qed.

(** The evidence of a diagnosis: that of a rule that fired, or the
    [unknown] evidence when none did. *)
Inductive contributes (this : DiagnosticEngine) (w : WindowStats) :
  Evidence -> Prop :=
| contributes_healthy :
    healthy_rule this w = true -> contributes this w healthy_evidence
| contributes_noise_spike :
    noise_spike_rule this w = true ->
    contributes this w (noise_spike_evidence this w)
| contributes_wideband_jammer :
    wideband_jammer_rule this w = true ->
    contributes this w (wideband_jammer_evidence this w)
| contributes_sync_loss :
    sync_loss_rule this w = true -> contributes this w (sync_loss_evidence w)
| contributes_congestion :
    congestion_rule this w = true ->
    contributes this w (congestion_evidence this w)
| contributes_fading :
    fading_rule this w = true -> contributes this w (fading_evidence w)
| contributes_unknown :
    no_rule_fires this w -> contributes this w unknown_evidence.

Lemma rule_evidences_contribute (this : DiagnosticEngine) (w : WindowStats) :
  Forall (contributes this w) (rule_evidences this w).
Proof.
  rewrite rule_evidences_fired. unfold fired.
  repeat (apply Forall_app; split);
    match goal with
    | |- Forall _ (if ?b then _ else _) => destruct b eqn:E
    end; constructor; try constructor; auto using contributes.
Qed.

Lemma with_fallbacks_contribute (this : DiagnosticEngine) (w : WindowStats) :
  Forall (contributes this w) (snd (with_fallbacks this w)).
Proof.
  unfold with_fallbacks. rewrite healthy_fallback_guard_false.
  rewrite (rule_scores_sorted _ (rule_evidences_sorted this w)).
  pose proof (rule_evidences_contribute this w) as H.
  pose proof (rule_evidences_nil_iff this w) as Hnil.
  destruct (rule_evidences this w) as [|ev rest].
  - simpl. constructor; [|constructor].
    apply contributes_unknown. apply Hnil. reflexivity.
  - exact H.
Qed.

Lemma contributes_cause (this : DiagnosticEngine) (w : WindowStats)
    (ev : Evidence) :
  contributes this w ev ->
  match root_cause ev with
  | HEALTHY => healthy_rule this w = true
  | NOISE_SPIKE => noise_spike_rule this w = true
  | WIDEBAND_JAMMER => wideband_jammer_rule this w = true
  | SYNC_LOSS => sync_loss_rule this w = true
  | CONGESTION => congestion_rule this w = true
  | FADING => fading_rule this w = true
  | UNKNOWN => no_rule_fires this w
  end.
Proof. destruct 1; simpl; assumption. Qed.

(** The primary cause is the cause of a contributing evidence. *)
Lemma primary_contributes (this : DiagnosticEngine) (w : WindowStats) :
  exists (d : Diagnosis) (ev : Evidence),
    diagnose this w = (Returns d, this)
    /\ contributing_rules d = snd (with_fallbacks this w)
    /\ In ev (contributing_rules d)
    /\ root_cause ev = primary_cause d
    /\ contributes this w ev
    /\ diagnosis_explanation d
       = _buildExplanation w (primary_cause d) (confidence d)
           (contributing_rules d).
Proof.
  destruct (diagnose_returns this w) as (c & p & rest & Hr & Hd).
  destruct (with_fallbacks_causes this w) as [Hk _].
  assert (Hin : In c (map root_cause (snd (with_fallbacks this w)))).
  { rewrite <- Hk. apply (Permutation_in _ (ranked_keys _)).
    rewrite Hr. left. reflexivity. }
  apply in_map_iff in Hin. destruct Hin as [ev [Hc Hev]].
  rewrite Hd. eexists. exists ev. split; [reflexivity|]. simpl.
  repeat split; try assumption.
  pose proof (with_fallbacks_contribute this w) as H.
  rewrite Forall_forall in H. apply H. exact Hev.
Qed.

(** X4.  Whatever the thresholds, [unknown] is diagnosed exactly when none
    of the six rules fires, and then it is the only cause ranked, with
    confidence 1.0 and its one evidence. *)
Theorem unknown_iff_no_rule (this : DiagnosticEngine) (w : WindowStats) :
  exists d : Diagnosis,
    fst (diagnose this w) = Returns d
    /\ (In UNKNOWN (map fst (ranked_causes d)) <-> no_rule_fires this w)
    /\ (primary_cause d = UNKNOWN <-> no_rule_fires this w)
    /\ (no_rule_fires this w ->
        ranked_causes d = [(UNKNOWN, confidence d)]
        /\ same (confidence d) (Fin 1)
        /\ contributing_rules d = [unknown_evidence]).
Proof.
  assert (Hnone : no_rule_fires this w ->
            diagnose this w
            = (Returns {|
                 primary_cause := UNKNOWN;
                 confidence := Fin (1.0 / (0 + 1.0));
                 ranked_causes := [(UNKNOWN, Fin (1.0 / (0 + 1.0)))];
                 diagnosis_explanation :=
                   _buildExplanation w UNKNOWN (Fin (1.0 / (0 + 1.0)))
                     [unknown_evidence];
                 contributing_rules := [unknown_evidence];
                 suggested_actions := _suggestActions UNKNOWN |}, this)).
  { intros H. apply rule_evidences_nil_iff in H.
    unfold diagnose, with_fallbacks.
    rewrite healthy_fallback_guard_false, H. reflexivity. }
  destruct (primary_contributes this w)
    as (d & ev & Hd & Hrules & Hin & Hc & Hev & _).
  exists d. rewrite Hd. split; [reflexivity|].
  assert (Hranked : In UNKNOWN (map fst (ranked_causes d)) ->
                    no_rule_fires this w).
  { intros HU.
    destruct (diagnose_returns this w) as (c & p & rest & Hr & Hd').
    rewrite Hd' in Hd. injection Hd as <-. cbn [ranked_causes] in HU.
    rewrite <- Hr in HU.
    apply (Permutation_in _ (ranked_keys _)) in HU.
    destruct (with_fallbacks_causes this w) as [Hk _]. rewrite Hk in HU.
    apply in_map_iff in HU. destruct HU as [ev' [Hc' Hin']].
    pose proof (with_fallbacks_contribute this w) as H.
    rewrite Forall_forall in H. specialize (H ev' Hin').
    apply contributes_cause in H. rewrite Hc' in H. exact H. }
  split; [|split].
  - split; [exact Hranked|]. intros H. specialize (Hnone H).
    rewrite Hnone in Hd. injection Hd as <-. simpl. auto.
  - split.
    + intros HU. apply contributes_cause in Hev. rewrite Hc, HU in Hev.
      exact Hev.
    + intros H. specialize (Hnone H).
      rewrite Hnone in Hd. injection Hd as <-. reflexivity.
  - intros H. specialize (Hnone H).
    rewrite Hnone in Hd. injection Hd as <-. simpl.
    repeat split.
Qed.

(** X5.  The diagnosis is [healthy] exactly when the healthy rule holds. *)
Theorem healthy_iff_healthy_rule (w : WindowStats) :
  exists d : Diagnosis,
    fst (diagnose new_DiagnosticEngine w) = Returns d
    /\ (primary_cause d = HEALTHY
        <-> healthy_rule new_DiagnosticEngine w = true).
Proof.
  destruct (primary_contributes new_DiagnosticEngine w)
    as (d & ev & Hd & Hrules & Hin & Hc & Hev & _).
  exists d. rewrite Hd. split; [reflexivity|]. split.
  - intros HH. apply contributes_cause in Hev. rewrite Hc, HH in Hev.
    exact Hev.
  - intros H. pose proof H as Hh. unfold healthy_rule in H. split_rule H.
    assert (Hn : noise_spike_rule new_DiagnosticEngine w = false).
    { unfold noise_spike_rule. thresholds.
      rewrite (gtb_ltb_disjoint _ 20.0 20.0 ltac:(lra) H). reflexivity. }
    assert (Hj : wideband_jammer_rule new_DiagnosticEngine w = false).
    { unfold wideband_jammer_rule. thresholds.
      rewrite (gtb_ltb_disjoint _ 20.0 12.0 ltac:(lra) H). reflexivity. }
    assert (Hs : sync_loss_rule new_DiagnosticEngine w = false).
    { unfold sync_loss_rule. thresholds.
      rewrite (ltb_gtb_disjoint _ 0.00001 0.05 ltac:(lra) H2).
      reflexivity. }
    assert (Hg : congestion_rule new_DiagnosticEngine w = false).
    { unfold congestion_rule. thresholds.
      rewrite (ltb_gtb_disjoint _ 80.0 80.0 ltac:(lra) H1). reflexivity. }
    assert (Hf : fading_rule new_DiagnosticEngine w = false).
    { unfold fading_rule. thresholds.
      rewrite (gtb_ltb_disjoint _ 20.0 20.0 ltac:(lra) H). reflexivity. }
    apply contributes_cause in Hev. rewrite Hc in Hev.
    destruct (primary_cause d); try congruence.
    destruct Hev as [Hev _]. congruence.
Qed.

Lemma ltb_geb_disjoint (a m : num) : ltb a m = true -> geb a m = false.
Proof.
  destruct a as [| | |x], m as [| | |y]; simpl; try discriminate;
    try reflexivity.
  intros H. apply Qltb_lt in H.
  apply Bool.not_true_iff_false. rewrite Qle_bool_iff. lra.
Qed.

(** X6.  Whatever the thresholds, the jammer rule and the sync-loss rule
    never fire on the same window: one needs the SNR mean below the
    moderate band, the other at or above it. *)
Theorem jammer_excludes_sync_loss (this : DiagnosticEngine) (w : WindowStats) :
  wideband_jammer_rule this w = true -> sync_loss_rule this w = false.
Proof.
  intros H. unfold wideband_jammer_rule in H. split_rule H.
  unfold sync_loss_rule. rewrite (ltb_geb_disjoint _ _ H).
  apply Bool.andb_false_r.
Qed.

(** ** The explanation *)

Lemma filter_cause_absent (evidences : list Evidence) (c : RootCause) :
  ~ In c (map root_cause evidences) ->
  filter (fun e => RootCause_eqb (root_cause e) c) evidences = [].
Proof.
  induction evidences as [|x l IH]; simpl; intros H; [reflexivity|].
  rewrite RootCause_eqb_neq by (intros E; apply H; left; exact E).
  apply IH. intros Hin. apply H. right. exact Hin.
Qed.

Lemma filter_cause_unique (evidences : list Evidence) (ev : Evidence) :
  NoDup (map root_cause evidences) -> In ev evidences ->
  filter (fun e => RootCause_eqb (root_cause e) (root_cause ev)) evidences
  = [ev].
Proof.
  induction evidences as [|x l IH]; simpl; intros Hnd Hin; [contradiction|].
  inversion Hnd as [|? ? Hx Hl]; subst. destruct Hin as [->|Hin].
  - rewrite (proj2 (RootCause_eqb_eq _ _) eq_refl).
    rewrite (filter_cause_absent l _ Hx). reflexivity.
  - rewrite RootCause_eqb_neq.
    + apply IH; assumption.
    + intros E. apply Hx. rewrite E. apply in_map. exact Hin.
Qed.

Lemma contributes_explained (this : DiagnosticEngine) (w : WindowStats)
    (ev : Evidence) :
  contributes this w ev ->
  to_boolean (explanation ev) = true
  /\ explanation ev <> "Metric patterns weakly indicate this condition.".
Proof. destruct 1; split; try reflexivity; discriminate. Qed.

(** X7.  Whatever the thresholds, when the primary cause is not [healthy]
    the explanation ends with the explanation of the one evidence of that
    cause; the generic sentence kept for a cause without evidence is never
    part of an explanation. *)
Theorem explanation_cites_primary_evidence
    (this : DiagnosticEngine) (w : WindowStats) :
  exists (d : Diagnosis) (ev : Evidence),
    fst (diagnose this w) = Returns d
    /\ In ev (contributing_rules d)
    /\ root_cause ev = primary_cause d
    /\ ~ In (Text "Metric patterns weakly indicate this condition.")
           (diagnosis_explanation d)
    /\ (primary_cause d <> HEALTHY ->
        diagnosis_explanation d
        = [Text "Most likely root cause: ";
           Text (replace_underscores (RootCause_tag (primary_cause d)));
           Text " (confidence ";
           Number (Math_round (mul (confidence d) (Fin 100)));
           Text "%). ";
           Text (explanation ev)]).
Proof.
  destruct (primary_contributes this w)
    as (d & ev & Hd & Hrules & Hin & Hc & Hev & Hex).
  exists d, ev. rewrite Hd. split; [reflexivity|].
  split; [exact Hin|]. split; [exact Hc|].
  destruct (contributes_explained _ _ _ Hev) as [Htrue Hgeneric].
  assert (Hshape : primary_cause d <> HEALTHY ->
            diagnosis_explanation d
            = [Text "Most likely root cause: ";
               Text (replace_underscores (RootCause_tag (primary_cause d)));
               Text " (confidence ";
               Number (Math_round (mul (confidence d) (Fin 100)));
               Text "%). ";
               Text (explanation ev)]).
  { intros Hnh. rewrite Hex. unfold _buildExplanation.
    rewrite (RootCause_eqb_neq _ _ Hnh). rewrite <- Hc.
    rewrite filter_cause_unique; [|rewrite Hrules|exact Hin].
    - simpl. rewrite Htrue. reflexivity.
    - apply earlier_rule_NoDup.
      apply (with_fallbacks_causes this w). }
  split; [|exact Hshape].
  destruct (RootCause_eqb (primary_cause d) HEALTHY) eqn:E.
  - rewrite Hex. unfold _buildExplanation. rewrite E.
    simpl. intuition discriminate.
  - assert (Hnh : primary_cause d <> HEALTHY).
    { intros H. rewrite H in E. discriminate E. }
    rewrite (Hshape Hnh). simpl.
    intros [H|[H|[H|[H|[H|[H|[]]]]]]]; try discriminate H.
    + destruct (primary_cause d); discriminate H.
    + injection H as H. exact (Hgeneric H).
Qed.

(** ** The weight of the evidence *)

(** The least score a rule can give: its base weight, and for fading the
    base weight plus what an SNR deviation of 2.0 adds. *)
Definition base_score (c : RootCause) : Q :=
  match c with
  | HEALTHY => 1.0
  | NOISE_SPIKE => 0.4
  | WIDEBAND_JAMMER => 0.5
  | SYNC_LOSS => 0.6
  | CONGESTION => 0.4
  | FADING => 0.58
  | UNKNOWN => 1.0
  end.

Lemma fading_score_floor (x : num) :
  gtb x (Fin 2.0) = true ->
  exists s,
    add (Fin 0.3) (mul (Fin 0.7) (Math_min (Fin 1.0) (div x (Fin 5.0))))
    = Fin s
    /\ 0.58 < s /\ s <= 1.
Proof.
  intros H. destruct (gtb_Fin_inv _ _ H) as [->|[q [-> Hq]]].
  - simpl. eexists. split; [reflexivity|]. lra.
  - assert (Hy : 5.0 * (q / 5.0) == q) by field.
    simpl. revert Hy. generalize (q / 5.0) as y. intros y Hy.
    destruct (Qltb y 1.0) eqn:E; simpl.
    + apply Qltb_lt in E. eexists. split; [reflexivity|]. lra.
    + eexists. split; [reflexivity|]. lra.
Qed.

(** X8.  Every contributing evidence scores a real between the base
    weight of its rule and 1.0. *)
Theorem evidence_scores_banded (w : WindowStats) :
  exists d : Diagnosis,
    fst (diagnose new_DiagnosticEngine w) = Returns d
    /\ Forall (fun ev => exists s, score ev = Fin s
                                   /\ base_score (root_cause ev) <= s
                                   /\ s <= 1)
         (contributing_rules d).
Proof.
  destruct (primary_contributes new_DiagnosticEngine w)
    as (d & _ & Hd & Hrules & _).
  exists d. rewrite Hd. split; [reflexivity|]. rewrite Hrules.
  eapply Forall_impl; [|apply with_fallbacks_contribute].
  intros ev Hev. destruct Hev as [H|H|H|H|H|H|H].
  - exists 1.0. simpl. repeat split; lra.
  - unfold noise_spike_rule in H. split_rule H.
    destruct (score_range 0.4 0.6 _ ltac:(lra)
                (shortfall_positive _ 20.0 10.0 ltac:(lra) H))
      as [s [Hs Hr]].
    exists s. split; [exact Hs|]. simpl. lra.
  - unfold wideband_jammer_rule in H. split_rule H.
    destruct (score_range 0.5 0.5 _ ltac:(lra)
                (shortfall_positive _ 12.0 8.0 ltac:(lra) H))
      as [s [Hs Hr]].
    exists s. split; [exact Hs|]. simpl. lra.
  - unfold sync_loss_rule in H. split_rule H.
    destruct (score_range 0.6 0.4 _ ltac:(lra)
                (excess_positive _ 0.05 0.25 ltac:(lra) H))
      as [s [Hs Hr]].
    exists s. split; [exact Hs|]. simpl. lra.
  - unfold congestion_rule in H. split_rule H.
    destruct (score_range 0.4 0.6 _ ltac:(lra)
                (excess_positive _ 80.0 120.0 ltac:(lra) H))
      as [s [Hs Hr]].
    exists s. split; [exact Hs|]. simpl. lra.
  - unfold fading_rule in H. split_rule H.
    destruct (fading_score_floor _ H2) as [s [Hs Hr]].
    exists s. split; [exact Hs|]. simpl. lra.
  - exists 1.0. simpl. repeat split; lra.
Qed.

(** * Further properties of the window aggregator *)

Lemma array_length_nonzero {A : Type} (x : A) (l : list A) :
  Qeq_bool (inject_Z (Z.of_nat (List.length (x :: l)))) 0 = false.
Proof.
  apply Bool.not_true_iff_false. rewrite Qeq_bool_iff.
  change 0 with (inject_Z 0). rewrite inject_Z_injective.
  simpl List.length. lia.
Qed.

Lemma array_length_positive {A : Type} (x : A) (l : list A) :
  0 < inject_Z (Z.of_nat (List.length (x :: l))).
Proof.
  change 0 with (inject_Z 0). rewrite <- Zlt_Qlt. simpl List.length. lia.
Qed.

(** The mean of a non-empty array of reals. *)
Lemma mean_real (x : Q) (l : list Q) :
  mean (map Fin (x :: l))
  = Fin (fold_left Qplus (x :: l) 0
         / inject_Z (Z.of_nat (List.length (x :: l)))).
Proof.
  unfold mean, array_length. rewrite length_map.
  unfold to_boolean, num_ToBoolean.
  rewrite array_length_nonzero. cbn [negb].
  rewrite sum_reals. unfold div. rewrite array_length_nonzero.
  reflexivity.
Qed.

Lemma Qsum_ge_length (l : list Q) (m : Q) :
  Forall (fun q => m <= q) l ->
  inject_Z (Z.of_nat (List.length l)) * m <= Qsum l.
Proof.
  induction 1 as [|x l Hx Hl IH].
  - simpl. change (inject_Z 0) with 0. lra.
  - cbn [Qsum fold_right List.length]. fold (Qsum l).
    rewrite Nat2Z.inj_succ. unfold Z.succ. rewrite inject_Z_plus.
    change (inject_Z 1) with 1.
    setoid_replace ((inject_Z (Z.of_nat (List.length l)) + 1) * m)
      with (m + inject_Z (Z.of_nat (List.length l)) * m) by ring.
    lra.
Qed.

Lemma mean_cons_bounds (x : Q) (l : list Q) (lo hi : Q) :
  Forall (fun q => lo <= q /\ q <= hi) (x :: l) ->
  exists m, mean (map Fin (x :: l)) = Fin m /\ lo <= m /\ m <= hi.
Proof.
  intros Hall.
  rewrite mean_real. eexists. split; [reflexivity|].
  pose proof (array_length_positive x l) as Hn.
  assert (Hlo : inject_Z (Z.of_nat (List.length (x :: l))) * lo
                <= Qsum (x :: l)).
  { apply Qsum_ge_length. eapply Forall_impl; [|exact Hall].
    simpl. intros q [H _]. exact H. }
  assert (Hhi : Qsum (x :: l)
                <= inject_Z (Z.of_nat (List.length (x :: l))) * hi).
  { apply Qsum_le_length. eapply Forall_impl; [|exact Hall].
    simpl. intros q [_ H]. exact H. }
  rewrite fold_left_Qplus.
  revert Hn Hlo Hhi.
  generalize (inject_Z (Z.of_nat (List.length (x :: l)))) as n.
  generalize (Qsum (x :: l)) as s. intros s n Hn Hlo Hhi. split.
  - apply Qle_shift_div_l; [exact Hn|]. lra.
  - apply Qle_shift_div_r; [exact Hn|]. lra.
Qed.

Lemma maxVal_fold (l : list Q) :
  forall a : Q,
  exists m,
    fold_left (fun a b : num => if gtb b a then b else a) (map Fin l) (Fin a)
    = Fin m
    /\ In m (a :: l)
    /\ Forall (fun q => q <= m) (a :: l).
Proof.
  induction l as [|x l IH]; intros a.
  - exists a. split; [reflexivity|]. split; [left; reflexivity|].
    constructor; [lra|constructor].
  - cbn [map fold_left].
    change (gtb (Fin x) (Fin a)) with (Qltb a x).
    destruct (Qltb a x) eqn:E.
    + apply Qltb_lt in E. destruct (IH x) as [m [Hm [Hin Hall]]].
      exists m. split; [exact Hm|]. split.
      * right. exact Hin.
      * inversion Hall; subst. constructor; [lra|]. constructor; assumption.
    + apply Qltb_ge in E. destruct (IH a) as [m [Hm [Hin Hall]]].
      exists m. split; [exact Hm|]. split.
      * destruct Hin as [<-|Hin]; [left; reflexivity|right; right; exact Hin].
      * inversion Hall; subst. constructor; [assumption|].
        constructor; [lra|assumption].
Qed.

Lemma maxVal_cons (x : Q) (l : list Q) :
  exists m, maxVal (map Fin (x :: l)) = Fin m
            /\ In m (x :: l)
            /\ Forall (fun q => q <= m) (x :: l).
Proof.
  unfold maxVal, array_length. rewrite length_map.
  unfold to_boolean, num_ToBoolean.
  rewrite array_length_nonzero. cbn [negb map fold_left].
  change (gtb (Fin x) NegInf) with true. cbv iota.
  apply maxVal_fold.
Qed.

(** X10.  [maxVal] of a non-empty array of reals is an element of the
    array that no element exceeds. *)
Theorem maxVal_is_maximum (arr : list Q) :
  arr <> [] ->
  exists m, maxVal (map Fin arr) = Fin m
            /\ In m arr
            /\ Forall (fun q => q <= m) arr.
Proof.
  intros Hne. destruct arr as [|x l]; [congruence|].
  apply maxVal_cons.
Qed.

Lemma maxVal_is_maximum_witness :
  exists m, maxVal (map Fin [3; 7; 5]) = Fin m
            /\ In m [3; 7; 5]
            /\ Forall (fun q => q <= m) [3; 7; 5].
Proof.
  apply (maxVal_is_maximum [3; 7; 5]). discriminate.
Defined.

(** The sum of squares [std] is the root of. *)
Lemma squares_fold (m : Q) (l : list Q) :
  forall a : Q,
    0 <= a ->
    exists v,
      fold_left (fun s x : num => add s (mul (sub x (Fin m)) (sub x (Fin m))))
        (map Fin l) (Fin a)
      = Fin v
      /\ a <= v.
Proof.
  induction l as [|x l IH]; intros a Ha.
  - exists a. split; [reflexivity|lra].
  - cbn [map fold_left add mul sub].
    assert (Hsq : 0 <= (x - m) * (x - m))
      by (generalize (x - m); intros y; nra).
    destruct (IH (a + (x - m) * (x - m))) as [v [Hv Hle]].
    { lra. }
    exists v. split; [exact Hv|lra].
Qed.

Lemma std_cons (root : Q -> Q) (x : Q) (l : list Q) :
  exists v, std root (map Fin (x :: l)) = Fin (root v) /\ 0 <= v.
Proof.
  unfold std. rewrite mean_real.
  unfold array_length. rewrite length_map.
  cbn [strict_eq]. rewrite array_length_nonzero.
  set (m := fold_left Qplus (x :: l) 0
            / inject_Z (Z.of_nat (List.length (x :: l)))).
  destruct (squares_fold m (x :: l) 0 ltac:(lra)) as [v [Hv Hle]].
  rewrite Hv. unfold div. rewrite array_length_nonzero.
  pose proof (array_length_positive x l) as Hn.
  assert (Hpos : 0 <= v / inject_Z (Z.of_nat (List.length (x :: l)))).
  { apply Qle_shift_div_l; [exact Hn|]. lra. }
  unfold Math_sqrt.
  destruct (Qltb _ 0) eqn:E; [apply Qltb_lt in E; lra|].
  eexists. split; [reflexivity|exact Hpos].
Qed.

(** ** The window *)

Lemma slice_last_app {A : Type} (old recent : list A) (n : nat) :
  n <> O -> List.length recent = n -> slice_last n (old ++ recent) = recent.
Proof.
  intros Hn Hlen. unfold slice_last. destruct n as [|n]; [congruence|].
  rewrite length_app, Hlen.
  replace (List.length old + S n - S n)%nat with (List.length old) by lia.
  rewrite skipn_app, skipn_all, Nat.sub_diag. reflexivity.
Qed.

Lemma slice_last_short {A : Type} (history : list A) (n : nat) :
  (List.length history <= n)%nat -> slice_last n history = history.
Proof.
  intros Hlen. unfold slice_last. destruct n as [|n]; [reflexivity|].
  replace (List.length history - S n)%nat with O by lia. reflexivity.
Qed.

(** X12.  The window is that of the last [windowSize] samples alone:
    whatever came before them does not change the statistics. *)
Theorem windowFrom_last_samples
    (root : Q -> Q) (old recent : list Sample) (windowSize : nat) :
  windowSize <> O ->
  List.length recent = windowSize ->
  windowFrom root (old ++ recent) windowSize
  = windowFrom root recent windowSize.
Proof.
  intros Hn Hlen. unfold windowFrom.
  rewrite (slice_last_app old recent windowSize Hn Hlen).
  rewrite (slice_last_short recent windowSize) by lia.
  reflexivity.
Qed.

(** X13.  A window size of zero aggregates the whole history, [slice(-0)]
    being the whole array, and so does any window size the history does
    not exceed. *)
Theorem windowFrom_whole_history
    (root : Q -> Q) (history : list Sample) :
  windowFrom root history 0
  = windowFrom root history (List.length history)
  /\ forall windowSize : nat,
       (List.length history <= windowSize)%nat ->
       windowFrom root history windowSize
       = windowFrom root history (List.length history).
Proof.
  unfold windowFrom. split.
  - rewrite (slice_last_short history (List.length history)) by lia.
    reflexivity.
  - intros windowSize Hlen.
    rewrite (slice_last_short history windowSize Hlen).
    rewrite (slice_last_short history (List.length history)) by lia.
    reflexivity.
Qed.

(** The ranges [step] clips a sample to. *)
Definition sample_in_range (s : Sample) : Prop :=
  (-5 <= snr_db s /\ snr_db s <= 40)
  /\ (0.000000001 <= ber s /\ ber s <= 0.5)
  /\ 1.0 <= latency_ms s
  /\ 0 <= retries s.

Lemma slice_last_nonempty {A : Type} (n : nat) (x : A) (l : list A) :
  slice_last n (x :: l) <> [].
Proof.
  unfold slice_last. destruct n as [|n]; [discriminate|].
  intros H. apply (f_equal (@List.length A)) in H.
  rewrite length_skipn in H. cbn [List.length] in H. lia.
Qed.

Lemma slice_last_Forall {A : Type} (P : A -> Prop) (n : nat) (l : list A) :
  Forall P l -> Forall P (slice_last n l).
Proof.
  intros H. unfold slice_last. destruct n as [|n]; [exact H|].
  rewrite <- (firstn_skipn (List.length l - S n) l) in H.
  apply Forall_app in H. apply H.
Qed.

(** X14.  The window of a non-empty history of samples in the ranges of
    [step]: the SNR mean is a real in [[-5, 40]] and the SNR deviation the
    root of a non-negative real, the BER mean is a real in [(0, 0.5]] and
    the BER maximum one in [[1e-9, 0.5]], and [latency_mean >= 1.0] and
    [retries_mean >= 0] hold. *)
Theorem window_of_samples_in_range
    (root : Q -> Q) (history : list Sample) (windowSize : nat) :
  history <> [] ->
  Forall sample_in_range history ->
  let w := windowFrom root history windowSize in
  within (-5) 40 (snr_mean w)
  /\ (exists v, snr_std w = Fin (root v) /\ 0 <= v)
  /\ (exists b, ber_mean w = Fin b /\ 0 < b /\ b <= 0.5)
  /\ within 0.000000001 0.5 (ber_max w)
  /\ geb (latency_mean w) (Fin 1.0) = true
  /\ geb (retries_mean w) (Fin 0) = true.
Proof.
  intros Hne Hall. destruct history as [|s0 rest]; [congruence|].
  pose proof (slice_last_nonempty windowSize s0 rest) as Hslice.
  pose proof (slice_last_Forall _ windowSize _ Hall) as Hrange.
  cbv zeta. unfold windowFrom.
  destruct (slice_last windowSize (s0 :: rest)) as [|s slice];
    [congruence|].
  cbn [snr_mean snr_std ber_mean ber_max latency_mean retries_mean].
  set (samples := s :: slice) in *.
  assert (Hfin : forall f : Sample -> Q,
             map (fun x => Fin (f x)) samples
             = map Fin (f s :: map f slice)).
  { intros f. unfold samples. simpl. rewrite map_map. reflexivity. }
  assert (Hcons : forall f : Sample -> Q,
             map f samples = f s :: map f slice) by reflexivity.
  rewrite (Hfin snr_db), (Hfin ber), (Hfin latency_ms), (Hfin retries).
  split; [|split; [|split; [|split; [|split]]]].
  - destruct (mean_cons_bounds (snr_db s) (map snr_db slice) (-5) 40)
      as [x [Hx Hb]].
    { rewrite <- Hcons, Forall_map.
      eapply Forall_impl; [|exact Hrange]. intros a Ha. apply Ha. }
    exists x. split; [exact Hx|exact Hb].
  - destruct (std_cons root (snr_db s) (map snr_db slice)) as [v [Hv Hpos]].
    exists v. split; [exact Hv|exact Hpos].
  - destruct (mean_cons_bounds (ber s) (map ber slice) 0.000000001 0.5)
      as [b [Hb Hbb]].
    { rewrite <- Hcons, Forall_map.
      eapply Forall_impl; [|exact Hrange]. intros a Ha. apply Ha. }
    exists b. split; [exact Hb|]. lra.
  - destruct (maxVal_cons (ber s) (map ber slice)) as [m [Hm [Hin _]]].
    exists m. split; [exact Hm|].
    rewrite <- Hcons in Hin. apply in_map_iff in Hin.
    destruct Hin as [a [<- Ha]]. rewrite Forall_forall in Hrange.
    apply (Hrange a Ha).
  - rewrite mean_real. unfold geb, leb. apply Qle_bool_iff.
    assert (Hlow : Forall (fun q => 1.0 <= q) (map latency_ms samples)).
    { rewrite Forall_map. eapply Forall_impl; [|exact Hrange].
      intros a Ha. apply Ha. }
    rewrite Hcons in Hlow.
    pose proof (array_length_positive (latency_ms s) (map latency_ms slice))
      as Hn.
    apply Qle_shift_div_l; [exact Hn|].
    rewrite fold_left_Qplus.
    pose proof (Qsum_ge_length _ 1.0 Hlow). lra.
  - rewrite mean_real. unfold geb, leb. apply Qle_bool_iff.
    assert (Hpos : Forall (fun q => 0 <= q) (map retries samples)).
    { rewrite Forall_map. eapply Forall_impl; [|exact Hrange].
      intros a Ha. apply Ha. }
    rewrite Hcons in Hpos.
    pose proof (array_length_positive (retries s) (map retries slice)) as Hn.
    apply Qle_shift_div_l; [exact Hn|].
    rewrite fold_left_Qplus.
    pose proof (Qsum_ge_length _ 0 Hpos). lra.
Qed.

(** * Further properties of the simulator *)

(** X15.  A step advances the tick of the simulator by one, stamps the
    sample with the new tick, and leaves the baselines and the installed
    configuration as they were, whatever the configuration and the draws. *)
Theorem step_advances_tick
    (pow10 : Q -> Q) (this : CommLinkSimulator) (g : rng) :
  let sample := fst (fst (step pow10 this g)) in
  let this' := snd (fst (step pow10 this g)) in
  t this' = (t this + 1)%Z
  /\ sample_t sample = t this'
  /\ fault_config this' = fault_config this
  /\ baseline_snr_db this' = baseline_snr_db this
  /\ baseline_ber this' = baseline_ber this
  /\ baseline_latency_ms this' = baseline_latency_ms this
  /\ baseline_retries this' = baseline_retries this.
Proof.
  cbv zeta. step_cases; repeat split.
Qed.

(** The place of a fault in the order [step] tests them in. *)
Definition fault_rank (f : FaultType.t) : nat :=
  match f with
  | FaultType.NONE => 0
  | FaultType.NOISE_SPIKE => 1
  | FaultType.WIDEBAND_JAMMER => 2
  | FaultType.SYNC_LOSS => 3
  | FaultType.CONGESTION => 4
  | FaultType.FADING => 5
  end.

Ltac read_levels :=
  repeat match goal with
         | H : Qltb _ _ = true |- _ => apply Qltb_lt in H
         | H : Qltb _ _ = false |- _ => apply Qltb_ge in H
         end.

(** X16.  The tags of a sample tell the faults that acted on it: noise
    spike and jammer exactly when their level is positive, sync loss only
    when its probability is positive, congestion and fading exactly when
    their level is positive and no outage was declared; [none] is never a
    tag. *)
Theorem active_faults_ground_truth
    (pow10 : Q -> Q) (this : CommLinkSimulator) (g : rng) :
  let faults := active_faults (fst (fst (step pow10 this g))) in
  let cfg := fault_config this in
  (In FaultType.NOISE_SPIKE faults <-> 0 < noise_spike_level cfg)
  /\ (In FaultType.WIDEBAND_JAMMER faults <-> 0 < jammer_level cfg)
  /\ (In FaultType.SYNC_LOSS faults -> 0 < sync_loss_prob cfg)
  /\ (In FaultType.CONGESTION faults
      <-> 0 < congestion_level cfg /\ ~ In FaultType.SYNC_LOSS faults)
  /\ (In FaultType.FADING faults
      <-> 0 < fading_severity cfg /\ ~ In FaultType.SYNC_LOSS faults)
  /\ ~ In FaultType.NONE faults.
Proof.
  cbv zeta. step_cases; cbn [active_faults push app]; read_levels;
    simpl; intuition (try discriminate; try lra).
Qed.

(** X17.  The tags of a sample come in the order the faults are tested
    in, each at most once. *)
Theorem active_faults_ordered
    (pow10 : Q -> Q) (this : CommLinkSimulator) (g : rng) :
  let faults := active_faults (fst (fst (step pow10 this g))) in
  StronglySorted (fun a b => (fault_rank a < fault_rank b)%nat) faults
  /\ NoDup faults
  /\ (List.length faults <= 4)%nat.
Proof.
  cbv zeta. step_cases; cbn [active_faults push app]; repeat split;
    try (repeat (constructor; simpl; try lia); fail);
    try (repeat (constructor; [simpl; intuition discriminate|]);
         constructor);
    simpl; lia.
Qed.

(** X18.  A sample on which no fault acted is the jittered baseline,
    clipped: its SNR, latency and retries are those of the baseline and of
    the first and third normal draws of the step. *)
Theorem quiet_sample_is_baseline
    (pow10 : Q -> Q) (this : CommLinkSimulator) (g : rng) :
  let s := fst (fst (step pow10 this g)) in
  active_faults s = [] ->
  snr_db s
  = Qmin (Qmax (baseline_snr_db this + normal_tape g (cursor g) * 0.3) (-5))
      40
  /\ ber s
     = Qmin (Qmax (Qmax (baseline_ber this
                         * pow10 (normal_tape g (S (cursor g)) * 0.2))
                     0.000000001) 0.000000001) 0.5
  /\ latency_ms s
     = Qmax 1.0 (baseline_latency_ms this
                 + normal_tape g (S (S (cursor g))) * 1.0)
  /\ retries s = Qmax 0 (Qround (baseline_retries this)).
Proof.
  cbv zeta. step_cases;
    cbn [active_faults push app snr_db ber latency_ms retries
         baseline_snr_db baseline_ber baseline_latency_ms baseline_retries
         advance normal_tape cursor];
    intros H; try discriminate H; repeat split.
Qed.

Lemma Qround_ge (x : Q) (n : Z) : inject_Z n <= x -> inject_Z n <= Qround x.
Proof.
  intros H. unfold Qround. rewrite <- Zle_Qle.
  rewrite <- (Qfloor_Z n). apply Qfloor_resp_le. lra.
Qed.

Lemma Qround_nonneg_max (x : Q) : 0 <= Qmax 0 (Qround x).
Proof. apply Q.le_max_l. Qed.

(** X19.  An outage costs at least five retries: when the retries
    baseline is not negative, a sample tagged [sync_loss] has five retries
    or more. *)
Theorem outage_retries
    (pow10 : Q -> Q) (this : CommLinkSimulator) (g : rng) :
  0 <= baseline_retries this ->
  let s := fst (fst (step pow10 this g)) in
  In FaultType.SYNC_LOSS (active_faults s) -> 5 <= retries s.
Proof.
  intros Hb. cbv zeta. step_cases;
    cbn [active_faults push app retries baseline_retries];
    intros H;
    try (exfalso; simpl in H; intuition discriminate);
    clear H;
    (eapply Qle_trans; [|apply Q.le_max_r]);
    change 5 with (inject_Z 5); apply Qround_ge;
    repeat match goal with
           | |- context [Qmax 0 (Qround ?x)] =>
               pose proof (Qround_nonneg_max x);
               generalize dependent (Qmax 0 (Qround x)); intros
           end;
    repeat match goal with
           | |- context [inject_Z (Z.of_nat ?n)] =>
               assert (0 <= inject_Z (Z.of_nat n))
                 by (change 0 with (inject_Z 0); rewrite <- Zle_Qle; lia);
               generalize dependent (inject_Z (Z.of_nat n)); intros
           end;
    change (inject_Z 5) with 5; lra.
Qed.

(** * The random primitives

    [randn] and [poisson] as they are written, on the uniform tape of the
    random source.  Their loops end when the draws let them; [fuel] bounds
    the number of turns, and [None] is a loop that has not ended yet.
    [Math.log], [Math.cos], [Math.sqrt], [Math.exp] and [Math.PI] are
    left to the platform. *)

Module RandomPrimitives.
Section Primitives.
Variables Math_log Math_cos Math_sqrt Math_exp : Q -> Q.
Variable Math_PI : Q.

(** [while (u === 0) u = Math.random();] *)
Fixpoint redraw_while_zero (fuel : nat) (u : Q) : Rand (option Q) :=
  if Qeq_bool u 0 then
    match fuel with
    | O => ret None
    | S fuel => u <- Math_random ;; redraw_while_zero fuel u
    end
  else ret (Some u).

Definition randn (fuel : nat) : Rand (option Q) :=
  let u := 0 in
  let v := 0 in
  u <- redraw_while_zero fuel u ;;
  match u with
  | None => ret None
  | Some u =>
      v <- redraw_while_zero fuel v ;;
      match v with
      | None => ret None
      | Some v =>
          ret (Some (Math_sqrt (-2.0 * Math_log u)
                     * Math_cos (2.0 * Math_PI * v)))
      end
  end.

(** [do { k++; p *= Math.random(); } while (p > L);] *)
Fixpoint knuth_loop (fuel : nat) (L k p : Q) : Rand (option Q) :=
  match fuel with
  | O => ret None
  | S fuel =>
      let k := k + 1 in
      u <- Math_random ;;
      let p := p * u in
      if Qltb L p then knuth_loop fuel L k p else ret (Some k)
  end.

Definition poisson (fuel : nat) (lambda : Q) : Rand (option Q) :=
  if Qle_bool lambda 0 then ret (Some 0)
  else
    let L := Math_exp (- lambda) in
    let k := 0 in
    let p := 1.0 in
    k <- knuth_loop fuel L k p ;;
    match k with
    | None => ret None
    | Some k => ret (Some (k - 1))
    end.
End Primitives.
End RandomPrimitives.

(** The random source after [n] draws. *)
Definition after_draws (n : nat) (g : rng) : rng := Nat.iter n advance g.

Lemma after_draws_S (n : nat) (g : rng) :
  after_draws (S n) g = after_draws n (advance g).
Proof.
  unfold after_draws. induction n as [|n IH]; [reflexivity|].
  simpl in *. rewrite IH. reflexivity.
Qed.

Lemma after_draws_tape (n : nat) (g : rng) :
  uniform_tape (after_draws n g) = uniform_tape g
  /\ cursor (after_draws n g) = (cursor g + n)%nat.
Proof.
  unfold after_draws. induction n as [|n [IH1 IH2]]; simpl.
  - split; [reflexivity|lia].
  - rewrite IH1, IH2. split; [reflexivity|lia].
Qed.

(** The uniform draw [i] places after the cursor. *)
Definition draw (g : rng) (i : nat) : Q := uniform_tape g (cursor g + i).

Lemma draw_advance (g : rng) (i : nat) : draw (advance g) i = draw g (S i).
Proof. unfold draw. simpl. f_equal. lia. Qed.

Lemma redraw_first_nonzero (k : nat) :
  forall (fuel : nat) (u : Q) (g : rng),
    (k < fuel)%nat ->
    u == 0 ->
    (forall i, (i < k)%nat -> draw g i == 0) ->
    ~ draw g k == 0 ->
    RandomPrimitives.redraw_while_zero fuel u g
    = (Some (draw g k), after_draws (S k) g).
Proof.
  induction k as [|k IH]; intros fuel u g Hfuel Hu Hzero Hk;
    (destruct fuel as [|fuel]; [lia|]);
    cbn [RandomPrimitives.redraw_while_zero];
    rewrite (proj2 (Qeq_bool_iff u 0) Hu);
    unfold bind, Math_random; fold (draw g 0).
  - replace (uniform_tape g (cursor g)) with (draw g 0)
      by (unfold draw; f_equal; lia).
    destruct fuel as [|fuel]; cbn [RandomPrimitives.redraw_while_zero];
      destruct (Qeq_bool (draw g 0) 0) eqn:E;
      try (apply Qeq_bool_iff in E; contradiction); reflexivity.
  - replace (uniform_tape g (cursor g)) with (draw g 0)
      by (unfold draw; f_equal; lia).
    rewrite (IH fuel (draw g 0) (advance g)).
    + rewrite draw_advance, <- after_draws_S. reflexivity.
    + lia.
    + apply Hzero. lia.
    + intros i Hi. rewrite draw_advance. apply Hzero. lia.
    + rewrite draw_advance. exact Hk.
Qed.

(** X20.  [randn] throws away the uniform draws that are zero: it takes
    its [u] from the first draw that is not zero and its [v] from the
    first one after it, so that with draws in [[0, 1)] the logarithm is
    taken of a number in [(0, 1)], and it uses up exactly the draws it has
    looked at. *)
Theorem randn_rejects_zero_draws
    (Math_log Math_cos Math_sqrt : Q -> Q) (Math_PI : Q)
    (fuel j k : nat) (g : rng) :
  uniform_range g ->
  (j < fuel)%nat -> (k < fuel)%nat ->
  (forall i, (i < j)%nat -> draw g i == 0) ->
  ~ draw g j == 0 ->
  (forall i, (i < k)%nat -> draw g (S j + i) == 0) ->
  ~ draw g (S j + k) == 0 ->
  let u := draw g j in
  let v := draw g (S j + k) in
  RandomPrimitives.randn Math_log Math_cos Math_sqrt Math_PI fuel g
  = (Some (Math_sqrt (-2.0 * Math_log u) * Math_cos (2.0 * Math_PI * v)),
     after_draws (S j + S k) g)
  /\ (0 < u /\ u < 1) /\ (0 < v /\ v < 1).
Proof.
  intros Hrange Hj Hk Hz1 Hu Hz2 Hv. cbv zeta.
  assert (Hdraw : forall i, draw (after_draws (S j) g) i = draw g (S j + i)).
  { intros i. unfold draw.
    destruct (after_draws_tape (S j) g) as [-> ->]. f_equal. lia. }
  split.
  - unfold RandomPrimitives.randn, bind.
    rewrite (redraw_first_nonzero j fuel 0 g Hj ltac:(reflexivity) Hz1 Hu).
    rewrite (redraw_first_nonzero k fuel 0 (after_draws (S j) g) Hk
               ltac:(reflexivity)).
    + rewrite Hdraw. unfold ret, after_draws.
      rewrite <- Nat.iter_add. do 2 f_equal. lia.
    + intros i Hi. rewrite Hdraw. apply Hz2. exact Hi.
    + rewrite Hdraw. exact Hv.
  - unfold draw in *. split.
    + destruct (Hrange (cursor g + j)%nat). split; [|assumption].
      apply Qle_lteq in H. destruct H as [H|H]; [exact H|].
      exfalso. apply Hu. symmetry. exact H.
    + destruct (Hrange (cursor g + (S j + k))%nat). split; [|assumption].
      apply Qle_lteq in H. destruct H as [H|H]; [exact H|].
      exfalso. apply Hv. symmetry. exact H.
Qed.

(** The product [p] after [n] draws. *)
Fixpoint running_product (p : Q) (g : rng) (n : nat) : Q :=
  match n with
  | O => p
  | S n => running_product p g n * draw g n
  end.

Lemma running_product_advance (p : Q) (g : rng) (n : nat) :
  running_product (p * draw g 0) (advance g) n = running_product p g (S n).
Proof.
  induction n as [|n IH]; [reflexivity|].
  cbn [running_product] in *. rewrite IH, draw_advance. reflexivity.
Qed.

Lemma knuth_loop_counts (n : nat) :
  forall (fuel : nat) (L k p : Q) (g : rng),
    (n < fuel)%nat ->
    (forall i, (i < n)%nat -> L < running_product p g (S i)) ->
    running_product p g (S n) <= L ->
    exists r,
      RandomPrimitives.knuth_loop fuel L k p g
      = (Some r, after_draws (S n) g)
      /\ r == k + inject_Z (Z.of_nat (S n)).
Proof.
  induction n as [|n IH]; intros fuel L k p g Hfuel Habove Hbelow;
    (destruct fuel as [|fuel]; [lia|]);
    cbn [RandomPrimitives.knuth_loop]; unfold bind, Math_random;
    replace (uniform_tape g (cursor g)) with (draw g 0)
      by (unfold draw; f_equal; lia).
  - cbn [running_product] in Hbelow.
    rewrite (proj2 (Qltb_ge L (p * draw g 0)) Hbelow).
    exists (k + 1). split; [reflexivity|].
    change (inject_Z (Z.of_nat 1)) with 1. lra.
  - assert (H0 : L < p * draw g 0) by (apply (Habove O); lia).
    rewrite (proj2 (Qltb_lt L (p * draw g 0)) H0).
    destruct (IH fuel L (k + 1) (p * draw g 0) (advance g))
      as [r [Hr Hk]].
    + lia.
    + intros i Hi. rewrite running_product_advance. apply Habove. lia.
    + rewrite running_product_advance. exact Hbelow.
    + exists r. split.
      * rewrite Hr, <- after_draws_S. reflexivity.
      * rewrite Hk. rewrite !Nat2Z.inj_succ. unfold Z.succ.
        rewrite !inject_Z_plus. change (inject_Z 1) with 1. ring.
Qed.

Lemma knuth_loop_positive (fuel : nat) :
  forall (L k p : Q) (g g' : rng) (r : Q),
    RandomPrimitives.knuth_loop fuel L k p g = (Some r, g') -> k + 1 <= r.
Proof.
  induction fuel as [|fuel IH]; intros L k p g g' r;
    cbn [RandomPrimitives.knuth_loop]; unfold bind, Math_random, ret.
  - discriminate.
  - destruct (Qltb L _).
    + intros H. apply IH in H. lra.
    + intros H. injection H as <- _. lra.
Qed.

(** X21.  For a positive [lambda], [poisson] returns the number of draws
    after which the running product of the draws is still above
    [exp(-lambda)]: [n] when the product of the first [n + 1] draws is the
    first one not above it, having used [n + 1] draws. *)
Theorem poisson_counts_draws
    (Math_exp : Q -> Q) (fuel n : nat) (lambda : Q) (g : rng) :
  0 < lambda ->
  (n < fuel)%nat ->
  (forall i, (i < n)%nat ->
             Math_exp (- lambda) < running_product 1.0 g (S i)) ->
  running_product 1.0 g (S n) <= Math_exp (- lambda) ->
  exists r,
    RandomPrimitives.poisson Math_exp fuel lambda g
    = (Some r, after_draws (S n) g)
    /\ r == inject_Z (Z.of_nat n).
Proof.
  intros Hl Hfuel Habove Hbelow. unfold RandomPrimitives.poisson.
  assert (E : Qle_bool lambda 0 = false).
  { apply Bool.not_true_iff_false. rewrite Qle_bool_iff. lra. }
  rewrite E. unfold bind.
  destruct (knuth_loop_counts n fuel (Math_exp (- lambda)) 0 1.0 g
              Hfuel Habove Hbelow) as [r [Hr Hk]].
  rewrite Hr. exists (r - 1). split; [reflexivity|].
  rewrite Hk, Nat2Z.inj_succ. unfold Z.succ. rewrite inject_Z_plus.
  change (inject_Z 1) with 1. ring.
Qed.

(** X22.  [poisson] never returns a negative number, and for [lambda <= 0]
    it returns zero without a draw, whatever the fuel. *)
Theorem poisson_nonnegative
    (Math_exp : Q -> Q) (fuel : nat) (lambda : Q) (g : rng) :
  (lambda <= 0 ->
   RandomPrimitives.poisson Math_exp fuel lambda g = (Some 0, g))
  /\ forall (r : Q) (g' : rng),
       RandomPrimitives.poisson Math_exp fuel lambda g = (Some r, g') ->
       0 <= r.
Proof.
  unfold RandomPrimitives.poisson. split.
  - intros Hl. rewrite (proj2 (Qle_bool_iff lambda 0) Hl). reflexivity.
  - intros r g'. destruct (Qle_bool lambda 0).
    + intros H. injection H as <- _. lra.
    + unfold bind.
      destruct (RandomPrimitives.knuth_loop fuel _ 0 1.0 g)
        as [[k|] g''] eqn:E; unfold ret; intros H; [|discriminate H].
      injection H as <- _. apply knuth_loop_positive in E. lra.
Qed.

(** * The driver

    [simulateSteps] and [renderTruth] of the page, on the four globals
    they read and write.  What [renderTruth] writes to the page is what it
    returns here: the rows of the truth table and the text of the
    agreement line. *)

(** The string each member of [FaultType] stands for. *)
Definition FaultType_tag (f : FaultType.t) : string :=
  match f with
  | FaultType.NONE => "none"
  | FaultType.NOISE_SPIKE => "noise_spike"
  | FaultType.WIDEBAND_JAMMER => "wideband_jammer"
  | FaultType.SYNC_LOSS => "sync_loss"
  | FaultType.CONGESTION => "congestion"
  | FaultType.FADING => "fading"
  end.

(** An element of [diagnoses]. *)
Record LoggedDiagnosis : Type := {
  logged_t : Z;
  logged_primary_cause : RootCause;
  logged_confidence : num;
  logged_ranked_causes : list (RootCause * num);
  logged_explanation : list fragment;
  logged_suggested_actions : list string;
  logged_contributing_rules : list Evidence;
  logged_active_faults : list FaultType.t;
}.

(** The globals [simulator], [diagEngine], [history] and [diagnoses]. *)
Record App : Type := {
  simulator : CommLinkSimulator;
  diagEngine : DiagnosticEngine;
  history : list Sample;
  diagnoses : list LoggedDiagnosis;
}.

(** The object [simulateSteps] pushes on [diagnoses]. *)
Definition logged (sample : Sample) (diag : Diagnosis) : LoggedDiagnosis := {|
  logged_t := sample_t sample;
  logged_primary_cause := primary_cause diag;
  logged_confidence := confidence diag;
  logged_ranked_causes := ranked_causes diag;
  logged_explanation := diagnosis_explanation diag;
  logged_suggested_actions := suggested_actions diag;
  logged_contributing_rules := contributing_rules diag;
  logged_active_faults := active_faults sample;
|}.

Section Driver.
Variable pow10 : Q -> Q.
Variable root : Q -> Q.

(** [simulateSteps(n)]: an exception of [diagnose] ends the loop. *)
Fixpoint simulateSteps (n : nat) (app : App) : Rand (completion unit * App) :=
  match n with
  | O => ret (Returns tt, app)
  | S n =>
      '(sample, simulator) <- step pow10 (simulator app) ;;
      let history := push (history app) sample in
      let windowStats := windowFrom root history 20 in
      let '(diag, diagEngine) := diagnose (diagEngine app) windowStats in
      match diag with
      | Throws error =>
          ret (Throws error,
               {| simulator := simulator; diagEngine := diagEngine;
                  history := history; diagnoses := diagnoses app |})
      | Returns diag =>
          let diagnoses := push (diagnoses app) (logged sample diag) in
          simulateSteps n
            {| simulator := simulator; diagEngine := diagEngine;
               history := history; diagnoses := diagnoses |}
      end
  end.

(** The entries [diagnoses] gets for the samples that come after the
    history [before]: each is the diagnosis of the window that ends at its
    sample. *)
Fixpoint diagnoses_of (engine : DiagnosticEngine) (before : list Sample)
    (samples : list Sample) : list LoggedDiagnosis :=
  match samples with
  | [] => []
  | sample :: rest =>
      match fst (diagnose engine (windowFrom root (push before sample) 20))
      with
      | Returns diag =>
          logged sample diag :: diagnoses_of engine (push before sample) rest
      | Throws _ => []
      end
  end.
End Driver.

(** ** The truth table *)

(** [new Set(arr)], [set.size] and [set.has(x)], on strings. *)
Definition new_Set (arr : list string) : list string :=
  nodup string_dec arr.

Definition Set_size (set : list string) : num := array_length set.

Definition Set_has (set : list string) (x : string) : bool :=
  existsb (String.eqb x) set.

(** [strs.join(", ")] *)
Fixpoint join_comma (strs : list string) : string :=
  match strs with
  | [] => ""
  | [s] => s
  | s :: rest => s ++ ", " ++ join_comma rest
  end.

(** The test [renderTruth] counts a match on. *)
Definition agrees (d : LoggedDiagnosis) : bool :=
  let faultSet := new_Set (map FaultType_tag (logged_active_faults d)) in
  let primary := RootCause_tag (logged_primary_cause d) in
  (strict_eq (Set_size faultSet) (Fin 0)
   && (String.eqb primary (RootCause_tag HEALTHY)
       || String.eqb primary (RootCause_tag UNKNOWN)))
  || Set_has faultSet primary.

(** The cells of one row. *)
Definition truth_row (d : LoggedDiagnosis) : list fragment :=
  let trueFaults :=
    if to_boolean (array_length (logged_active_faults d))
    then join_comma (map FaultType_tag (logged_active_faults d))
    else "none" in
  let tdT := [Text "<td>"; Number (Fin (inject_Z (logged_t d))); Text "</td>"] in
  let tdP :=
    [Text "<td>";
     Text (replace_underscores (RootCause_tag (logged_primary_cause d)));
     Text "</td>"] in
  let tdC :=
    [Text "<td>"; toFixed (mul (logged_confidence d) (Fin 100)) 1;
     Text "%</td>"] in
  let tdF := [Text "<td>"; Text trueFaults; Text "</td>"] in
  (tdT ++ tdP ++ tdC ++ tdF)%list.

(** What [renderTruth] leaves on the page. *)
Record TruthView : Type := {
  truthBody : list (list fragment);
  accuracy_textContent : list fragment;
}.

(** [lastN], [recent], [matches] and [accuracy] of [renderTruth]. *)
Definition lastN (diagnoses : list LoggedDiagnosis) : nat :=
  Nat.min 40 (List.length diagnoses).

Definition recent (diagnoses : list LoggedDiagnosis) : list LoggedDiagnosis :=
  rev (slice_last (lastN diagnoses) diagnoses).

Definition matches (diagnoses : list LoggedDiagnosis) : num :=
  fold_left (fun matches d => if agrees d then add matches (Fin 1) else matches)
    (recent diagnoses) (Fin 0).

Definition accuracy (diagnoses : list LoggedDiagnosis) : num :=
  let lastN := Fin (inject_Z (Z.of_nat (lastN diagnoses))) in
  if to_boolean lastN
  then mul (div (matches diagnoses) lastN) (Fin 100)
  else Fin 0.

Definition renderTruth (diagnoses : list LoggedDiagnosis) : TruthView := {|
  truthBody := map truth_row (recent diagnoses);
  accuracy_textContent :=
    [Text "Agreement (last ";
     Number (Fin (inject_Z (Z.of_nat (lastN diagnoses))));
     Text " samples): ";
     toFixed (accuracy diagnoses) 1;
     Text "%"];
|}.

(** ** Properties of the driver *)

(** What a step returns: a sample stamped with the new tick, and the
    simulator with that tick. *)
Lemma step_result (pow10 : Q -> Q) (this : CommLinkSimulator) (g : rng) :
  exists s : Sample,
    fst (step pow10 this g)
    = (s, {| t := t this + 1;
             baseline_snr_db := baseline_snr_db this;
             baseline_ber := baseline_ber this;
             baseline_latency_ms := baseline_latency_ms this;
             baseline_retries := baseline_retries this;
             fault_config := fault_config this |})
    /\ sample_t s = (t this + 1)%Z.
Proof.
  step_cases; eexists; split; reflexivity.
Qed.

Section DriverProperties.
Variable pow10 : Q -> Q.
Variable root : Q -> Q.

(** The ticks [first + 1, ..., first + n]. *)
Definition ticks_after (first : Z) (n : nat) : list Z :=
  map (fun i => (first + 1 + Z.of_nat i)%Z) (seq 0 n).

Lemma ticks_after_S (first : Z) (n : nat) :
  ticks_after first (S n) = (first + 1)%Z :: ticks_after (first + 1) n.
Proof.
  unfold ticks_after. cbn [seq map]. f_equal; [lia|].
  rewrite <- seq_shift, map_map. apply map_ext. intros i. lia.
Qed.

Lemma simulateSteps_run (n : nat) :
  forall (app : App) (g : rng),
  exists (samples : list Sample) (sim : CommLinkSimulator) (g' : rng),
    let entries :=
      diagnoses_of root (diagEngine app) (history app) samples in
    simulateSteps pow10 root n app g
    = ((Returns tt,
        {| simulator := sim;
           diagEngine := diagEngine app;
           history := history app ++ samples;
           diagnoses := diagnoses app ++ entries |}), g')
    /\ List.length samples = n
    /\ List.length entries = n
    /\ map sample_t samples = ticks_after (t (simulator app)) n
    /\ map logged_t entries = map sample_t samples
    /\ map logged_active_faults entries = map active_faults samples
    /\ t sim = (t (simulator app) + Z.of_nat n)%Z
    /\ fault_config sim = fault_config (simulator app).
Proof.
  induction n as [|n IH]; intros app g.
  - exists [], (simulator app), g. cbv zeta. simpl.
    rewrite !app_nil_r. destruct app. simpl.
    repeat split; try constructor; lia.
  - cbn [simulateSteps]. unfold bind at 1.
    destruct (step_result pow10 (simulator app) g) as [s [Hs Ht]].
    destruct (step pow10 (simulator app) g) as [[s' sim1] g1].
    simpl in Hs. injection Hs as -> ->.
    destruct (diagnose_returns (diagEngine app)
                (windowFrom root (push (history app) s) 20))
      as (c & p & rest & _ & Hd).
    rewrite Hd.
    match goal with
    | |- context [simulateSteps pow10 root n ?a g1] =>
        destruct (IH a g1) as (samples & sim & g' & IHrun)
    end.
    cbv zeta in IHrun.
    cbn [simulator diagEngine history diagnoses t fault_config] in IHrun.
    destruct IHrun as (Hrun & Hlen & Hlen' & Hticks & Hlt & Hfaults
                       & Htick & Hcfg).
    exists (s :: samples), sim, g'. cbv zeta.
    cbn [diagnoses_of]. rewrite Hd. cbn [fst].
    repeat split.
    + rewrite Hrun. unfold push. rewrite <- !app_assoc. reflexivity.
    + simpl. rewrite Hlen. reflexivity.
    + simpl. rewrite Hlen'. reflexivity.
    + rewrite ticks_after_S. cbn [map]. rewrite Ht, Hticks. reflexivity.
    + cbn [map]. rewrite Hlt. reflexivity.
    + cbn [map]. rewrite Hfaults. reflexivity.
    + rewrite Htick. lia.
    + exact Hcfg.
Qed.

(** X23.  [simulateSteps(n)] never throws.  It appends [n] samples to the
    history and [n] entries to the diagnoses and keeps what was there; the
    samples carry the next [n] ticks; each entry is the diagnosis of the
    window ending at its sample and carries the tick and the active faults
    of that sample; the engine and the installed configuration are
    unchanged and the simulator is [n] ticks on. *)
Theorem simulateSteps_appends (n : nat) (app : App) (g : rng) :
  exists (samples : list Sample) (app' : App) (g' : rng),
    simulateSteps pow10 root n app g = ((Returns tt, app'), g')
    /\ history app' = (history app ++ samples)%list
    /\ diagnoses app'
       = (diagnoses app
          ++ diagnoses_of root (diagEngine app) (history app) samples)%list
    /\ List.length (history app') = (List.length (history app) + n)%nat
    /\ List.length (diagnoses app') = (List.length (diagnoses app) + n)%nat
    /\ map sample_t samples = ticks_after (t (simulator app)) n
    /\ map logged_t
         (diagnoses_of root (diagEngine app) (history app) samples)
       = map sample_t samples
    /\ map logged_active_faults
         (diagnoses_of root (diagEngine app) (history app) samples)
       = map active_faults samples
    /\ diagEngine app' = diagEngine app
    /\ t (simulator app') = (t (simulator app) + Z.of_nat n)%Z
    /\ fault_config (simulator app') = fault_config (simulator app).
Proof.
  destruct (simulateSteps_run n app g) as (samples & sim & g' & H).
  cbv zeta in H.
  destruct H as (Hrun & Hlen & Hlen' & Hticks & Hlt & Hfaults
                 & Htick & Hcfg).
  exists samples. eexists. exists g'. split; [exact Hrun|].
  cbn [history diagnoses diagEngine simulator].
  rewrite !length_app, Hlen, Hlen'.
  repeat split; assumption.
Qed.
End DriverProperties.

(** ** Properties of the truth table *)

(** The fault a root cause names; [healthy] and [unknown] name none. *)
Definition fault_of (c : RootCause) : option FaultType.t :=
  match c with
  | NOISE_SPIKE => Some FaultType.NOISE_SPIKE
  | WIDEBAND_JAMMER => Some FaultType.WIDEBAND_JAMMER
  | SYNC_LOSS => Some FaultType.SYNC_LOSS
  | CONGESTION => Some FaultType.CONGESTION
  | FADING => Some FaultType.FADING
  | HEALTHY | UNKNOWN => None
  end.

Lemma Set_has_tag (faults : list FaultType.t) (c : RootCause) :
  Set_has (new_Set (map FaultType_tag faults)) (RootCause_tag c) = true
  <-> exists f, fault_of c = Some f /\ In f faults.
Proof.
  unfold Set_has, new_Set. rewrite existsb_exists. split.
  - intros [x [Hin Heq]]. apply nodup_In in Hin. apply in_map_iff in Hin.
    destruct Hin as [f [<- Hf]]. exists f. split; [|exact Hf].
    destruct c, f; vm_compute in Heq; try discriminate Heq; reflexivity.
  - intros [f [Hc Hf]]. exists (FaultType_tag f). split.
    + apply nodup_In. apply in_map. exact Hf.
    + destruct c, f; try discriminate Hc; reflexivity.
Qed.

Lemma Set_size_zero (faults : list FaultType.t) :
  strict_eq (Set_size (new_Set (map FaultType_tag faults))) (Fin 0) = true
  <-> faults = [].
Proof.
  unfold Set_size, new_Set, array_length. cbn [strict_eq].
  rewrite Qeq_bool_iff. split.
  - intros H. destruct faults as [|f l]; [reflexivity|].
    assert (Hin : In (FaultType_tag f)
                    (nodup string_dec (map FaultType_tag (f :: l)))).
    { apply nodup_In. left. reflexivity. }
    destruct (nodup string_dec (map FaultType_tag (f :: l))) as [|x r];
      [contradiction|].
    change 0 with (inject_Z 0) in H. rewrite inject_Z_injective in H.
    simpl List.length in H. lia.
  - intros ->. reflexivity.
Qed.

(** X24.  [renderTruth] counts a diagnosis as a match exactly when its
    primary cause names one of the active faults of its sample, or, for
    [healthy] and [unknown], when no fault was active. *)
Theorem agrees_iff (d : LoggedDiagnosis) :
  agrees d = true
  <-> match fault_of (logged_primary_cause d) with
      | Some f => In f (logged_active_faults d)
      | None => logged_active_faults d = []
      end.
Proof.
  unfold agrees. cbv zeta.
  rewrite Bool.orb_true_iff, Bool.andb_true_iff, Set_size_zero, Set_has_tag.
  destruct (logged_primary_cause d); cbn [fault_of]; split.
  all: try (intros [[H Hb]|[f [Hf Hin]]];
            first [ exact H
                  | discriminate Hf
                  | discriminate Hb
                  | injection Hf as <-; exact Hin ]).
  all: intros H;
    first [ left; split; [exact H|reflexivity]
          | right; eexists; split; [reflexivity|exact H] ].
Qed.

Lemma recent_length (diagnoses : list LoggedDiagnosis) :
  List.length (recent diagnoses) = lastN diagnoses.
Proof.
  unfold recent, lastN. rewrite length_rev. unfold slice_last.
  destruct (Nat.min 40 (List.length diagnoses)) as [|n] eqn:E.
  - destruct diagnoses; [reflexivity|]. simpl List.length in E. lia.
  - rewrite length_skipn. lia.
Qed.

Lemma matches_fold (l : list LoggedDiagnosis) :
  forall a : Q,
  exists m,
    fold_left
      (fun matches d => if agrees d then add matches (Fin 1) else matches)
      l (Fin a)
    = Fin m
    /\ m == a + inject_Z (Z.of_nat (List.length (filter agrees l))).
Proof.
  induction l as [|d l IH]; intros a; cbn [fold_left filter].
  - exists a. split; [reflexivity|]. simpl. change (inject_Z 0) with 0. lra.
  - destruct (agrees d).
    + destruct (IH (a + 1)) as [m [Hm Hc]]. exists m. split; [exact Hm|].
      rewrite Hc. cbn [List.length]. rewrite Nat2Z.inj_succ. unfold Z.succ.
      rewrite inject_Z_plus. change (inject_Z 1) with 1. ring.
    + apply IH.
Qed.

Lemma filter_all {A : Type} (f : A -> bool) (l : list A) :
  (List.length (filter f l) <= List.length l)%nat
  /\ (List.length (filter f l) = List.length l
      <-> Forall (fun x => f x = true) l).
Proof.
  induction l as [|x l [IH1 IH2]]; simpl.
  - split; [lia|]. split; [constructor|reflexivity].
  - destruct (f x) eqn:E; simpl.
    + split; [lia|]. split.
      * intros H. constructor; [exact E|]. apply IH2. lia.
      * intros H. inversion H; subst. f_equal. apply IH2. assumption.
    + split; [lia|]. split.
      * intros H. lia.
      * intros H. inversion H; subst. congruence.
Qed.

(** X25.  The agreement [renderTruth] shows is a percentage: a real in
    [[0, 100]], the share of matches among the last 40 diagnoses (all of
    them when there are fewer); it is zero when there is no diagnosis and
    100 exactly when there is one and all the recent ones match.  The
    table has one row for each of those diagnoses. *)
Theorem agreement_is_percentage (diagnoses : list LoggedDiagnosis) :
  let shown := Nat.min 40 (List.length diagnoses) in
  let matched := List.length (filter agrees (recent diagnoses)) in
  List.length (truthBody (renderTruth diagnoses)) = shown
  /\ exists a,
       accuracy diagnoses = Fin a
       /\ 0 <= a /\ a <= 100
       /\ a * inject_Z (Z.of_nat shown) == 100 * inject_Z (Z.of_nat matched)
       /\ (diagnoses = [] -> a == 0)
       /\ (a == 100
           <-> diagnoses <> []
               /\ Forall (fun d => agrees d = true) (recent diagnoses)).
Proof.
  cbv zeta. split.
  { cbn [truthBody renderTruth]. rewrite length_map. apply recent_length. }
  destruct diagnoses as [|d0 rest] eqn:Ed.
  { exists 0. split; [reflexivity|]. split; [lra|]. split; [lra|].
    split; [reflexivity|]. split; [reflexivity|].
    split; [intros E; discriminate E|intros [E _]; congruence]. }
  rewrite <- Ed.
  assert (Hne : diagnoses <> []) by (rewrite Ed; discriminate).
  assert (Hn : (0 < Nat.min 40 (List.length diagnoses))%nat).
  { rewrite Ed. simpl List.length. lia. }
  clear Ed d0 rest.
  unfold accuracy, matches. cbv zeta.
  destruct (matches_fold (recent diagnoses) 0) as [m [Hm Hc]].
  rewrite Hm.
  destruct (filter_all agrees (recent diagnoses)) as [Hle Hall].
  rewrite recent_length in Hle, Hall. unfold lastN in *.
  set (matched := List.length (filter agrees (recent diagnoses))) in *.
  set (shown := Nat.min 40 (List.length diagnoses)) in *.
  assert (HN : 0 < inject_Z (Z.of_nat shown)).
  { change 0 with (inject_Z 0). rewrite <- Zlt_Qlt. lia. }
  assert (HM : 0 <= inject_Z (Z.of_nat matched)
               /\ inject_Z (Z.of_nat matched) <= inject_Z (Z.of_nat shown)).
  { split.
    - change 0 with (inject_Z 0). rewrite <- Zle_Qle. lia.
    - rewrite <- Zle_Qle. lia. }
  unfold to_boolean, num_ToBoolean.
  assert (E0 : Qeq_bool (inject_Z (Z.of_nat shown)) 0 = false).
  { apply Bool.not_true_iff_false. rewrite Qeq_bool_iff. lra. }
  rewrite E0. cbn [negb div mul]. rewrite E0.
  eexists. split; [reflexivity|].
  assert (Hq : m / inject_Z (Z.of_nat shown) * inject_Z (Z.of_nat shown)
               == m) by (field; lra).
  revert Hq. generalize (m / inject_Z (Z.of_nat shown)) as q.
  intros q Hq.
  assert (Hmm : m == inject_Z (Z.of_nat matched)) by (rewrite Hc; ring).
  assert (HMN : inject_Z (Z.of_nat matched) == inject_Z (Z.of_nat shown)
                <-> matched = shown).
  { rewrite inject_Z_injective. lia. }
  revert HN HM Hq Hmm HMN.
  generalize (inject_Z (Z.of_nat shown)) as N.
  generalize (inject_Z (Z.of_nat matched)) as M.
  intros M N HN HM Hq Hmm HMN.
  assert (Hq0 : 0 <= q /\ q <= 1) by (split; nra).
  split; [lra|]. split; [lra|]. split; [nra|].
  split; [intros E; congruence|].
  assert (Hiff : q == 1 <-> M == N) by (split; intros; nra).
  split.
  - intros H100. split; [exact Hne|].
    apply Hall, HMN, Hiff. lra.
  - intros [_ Hf]. apply Hall, HMN, Hiff in Hf. lra.
Qed.

(** * Concrete inputs for the further properties *)

Lemma jammer_excludes_sync_loss_witness :
  wideband_jammer_rule new_DiagnosticEngine jammed_window = true
  /\ sync_loss_rule new_DiagnosticEngine jammed_window = false.
Proof.
  split; [reflexivity|].
  apply (jammer_excludes_sync_loss new_DiagnosticEngine jammed_window).
  reflexivity.
Defined.

(** A sample of a quiet link. *)
Definition nominal_sample : Sample := {|
  sample_t := 1;
  snr_db := 25.1;
  ber := 0.000001;
  latency_ms := 20.4;
  retries := 0;
  active_faults := [];
|}.

Lemma nominal_sample_in_range : sample_in_range nominal_sample.
Proof. unfold sample_in_range. simpl. repeat split; lra. Qed.

Lemma windowFrom_last_samples_witness :
  windowFrom (fun q => q)
    ([nominal_sample] ++ [nominal_sample; nominal_sample]) 2
  = windowFrom (fun q => q) [nominal_sample; nominal_sample] 2.
Proof.
  apply (windowFrom_last_samples (fun q => q) [nominal_sample]
           [nominal_sample; nominal_sample] 2).
  - discriminate.
  - reflexivity.
Defined.

Lemma window_of_samples_in_range_witness :
  let w := windowFrom (fun q => q) [nominal_sample; nominal_sample] 20 in
  within (-5) 40 (snr_mean w)
  /\ (exists v, snr_std w = Fin v /\ 0 <= v)
  /\ (exists b, ber_mean w = Fin b /\ 0 < b /\ b <= 0.5)
  /\ within 0.000000001 0.5 (ber_max w)
  /\ geb (latency_mean w) (Fin 1.0) = true
  /\ geb (retries_mean w) (Fin 0) = true.
Proof.
  apply (window_of_samples_in_range (fun q => q)
           [nominal_sample; nominal_sample] 20).
  - discriminate.
  - repeat constructor; apply nominal_sample_in_range.
Defined.

Lemma quiet_sample_is_baseline_witness :
  let s := fst (fst (step (fun _ => 1) new_CommLinkSimulator sample_rng)) in
  active_faults s = [] /\ retries s = Qmax 0 (Qround 0).
Proof.
  split; [reflexivity|].
  apply (quiet_sample_is_baseline (fun _ => 1) new_CommLinkSimulator
           sample_rng).
  reflexivity.
Defined.

Lemma outage_retries_witness :
  5 <= retries
         (fst (fst (step (fun _ => 1)
                      (setFaultConfig new_CommLinkSimulator outage_config)
                      sample_rng))).
Proof.
  apply (outage_retries (fun _ => 1)
           (setFaultConfig new_CommLinkSimulator outage_config) sample_rng).
  - simpl. lra.
  - vm_compute. tauto.
Defined.

(** A random source whose first uniform draw is zero. *)
Definition zero_first_rng : rng := {|
  normal_tape := fun _ => 0;
  uniform_tape := fun i => if Nat.eqb i 0 then 0 else 1 # 2;
  poisson_tape := fun _ => O;
  cursor := 0;
|}.

Lemma randn_rejects_zero_draws_witness :
  RandomPrimitives.randn (fun q => q) (fun q => q) (fun q => q) 3 2
    zero_first_rng
  = (Some ((-2.0 * (1 # 2)) * (2.0 * 3 * (1 # 2))),
     after_draws 3 zero_first_rng)
  /\ (0 < 1 # 2 /\ 1 # 2 < 1) /\ (0 < 1 # 2 /\ 1 # 2 < 1).
Proof.
  apply (randn_rejects_zero_draws (fun q => q) (fun q => q) (fun q => q) 3
           2 1 0 zero_first_rng).
  - intros i. simpl. destruct (Nat.eqb i 0); split; lra.
  - lia.
  - lia.
  - intros i Hi. assert (i = O) by lia. subst i. reflexivity.
  - intros H. discriminate H.
  - intros i Hi. lia.
  - intros H. discriminate H.
Defined.

Lemma poisson_counts_draws_witness :
  exists r,
    RandomPrimitives.poisson (fun _ => 1 # 5) 5 1 sample_rng
    = (Some r, after_draws 3 sample_rng)
    /\ r == inject_Z (Z.of_nat 2).
Proof.
  apply (poisson_counts_draws (fun _ => 1 # 5) 5 2 1 sample_rng).
  - lra.
  - lia.
  - intros i Hi. destruct i as [|[|i]]; [reflexivity|reflexivity|lia].
  - vm_compute. discriminate.
Defined.

(** * The charts

    [drawChart] and [renderCharts], with the calls made on the 2D context
    of a canvas, in order, as what they return.  [Math.log10] of a positive
    real is left to the platform. *)

(** A call on the context, or an assignment to one of its properties. *)
Inductive canvas_call : Type :=
| clearRect (x y w h : num)
| set_fillStyle (v : string)
| set_strokeStyle (v : string)
| set_lineWidth (v : num)
| set_font (v : string)
| fillText (text : string) (x y : num)
| beginPath
| rect (x y w h : num)
| stroke
| moveTo (x y : num)
| lineTo (x y : num).

(** The last argument of [drawChart]: [log] is [false] and [min] is
    [null] when they are left out. *)
Record ChartOptions : Type := {
  color : string;
  label : string;
  log : bool;
  min : option num;
}.

(** [arr[i]] where a number is expected: [undefined] gives NaN. *)
Definition element (arr : list num) (i : nat) : num :=
  match nth_error arr i with
  | Some v => v
  | None => NaN
  end.

(** [Math.min(...arr)] and [Math.max(...arr)] *)
Definition Math_min_of (arr : list num) : num := fold_left Math_min arr PosInf.
Definition Math_max_of (arr : list num) : num := fold_left Math_max arr NegInf.

(** [arr.forEach((y, idx) => ...)], with the calls each turn makes. *)
Fixpoint forEach_from {A B : Type} (f : A -> nat -> B) (idx : nat)
    (arr : list A) : list B :=
  match arr with
  | [] => []
  | y :: rest => f y idx :: forEach_from f (S idx) rest
  end.

(** [arr.map((s, idx) => idx)] *)
Definition indices {A : Type} (arr : list A) : list num :=
  forEach_from (fun _ idx => Fin (inject_Z (Z.of_nat idx))) 0 arr.

Section Charts.
(** [Math.log10] of a positive real. *)
Variable log10 : Q -> Q.

Definition Math_log10 (a : num) : num :=
  match a with
  | NaN | NegInf => NaN
  | PosInf => PosInf
  | Fin q =>
      if Qltb q 0 then NaN
      else if Qeq_bool q 0 then NegInf
      else Fin (log10 q)
  end.

(** The point [forEach] draws for [y] at [idx]. *)
Definition chart_point (w h : num) (xs : list num) (options : ChartOptions)
    (yMin yMax xMin xMax pad : num) (y : num) (idx : nat) : canvas_call :=
  let xv := element xs idx in
  let xNorm := div (sub xv xMin) (Math_max (Fin 1) (sub xMax xMin)) in
  let yv :=
    if log options
    then Math_log10 (Math_max y (or_else (min options) (Fin 0.000000001)))
    else y in
  let yNorm :=
    div (sub yv yMin) (Math_max (Fin 0.000001) (sub yMax yMin)) in
  let px := add pad (mul xNorm (sub w (mul (Fin 2) pad))) in
  let py := sub (sub h pad) (mul yNorm (sub h (mul (Fin 2) pad))) in
  if Nat.eqb idx 0 then moveTo px py else lineTo px py.

(** [drawChart(canvas, xs, ys, options)], for a canvas [w] wide and [h]
    high. *)
Definition drawChart (w h : num) (xs ys : list num) (options : ChartOptions) :
  list canvas_call :=
  let calls := [clearRect (Fin 0) (Fin 0) w h] in
  if negb (to_boolean (array_length ys)) then
    (calls
     ++ [set_fillStyle "#475569";
         fillText "No data" (Fin 10) (div h (Fin 2))])%list
  else
    let yVals := ys in
    let yVals :=
      if log options then
        let epsilon := or_else (min options) (Fin 0.000000001) in
        map (fun v => Math_log10 (Math_max v epsilon)) yVals
      else yVals in
    let yMin := Math_min_of yVals in
    let yMax := Math_max_of yVals in
    let xMin := Fin 0 in
    let xMax :=
      if to_boolean (array_length xs)
      then element xs (List.length xs - 1)
      else Fin 1 in
    let pad := Fin 10 in
    (calls
     ++ [set_strokeStyle "#1f2937"; set_lineWidth (Fin 1); beginPath;
         rect pad pad (sub w (mul (Fin 2) pad)) (sub h (mul (Fin 2) pad));
         stroke; beginPath]
     ++ forEach_from (chart_point w h xs options yMin yMax xMin xMax pad) 0 ys
     ++ [set_strokeStyle (color options); set_lineWidth (Fin 2); stroke;
         set_fillStyle "#94a3b8"; set_font "12px system-ui";
         fillText (label options) (add pad (Fin 4)) (add pad (Fin 12))])%list.

(** The four canvases, each with its width and height. *)
Record Canvases : Type := {
  snrChart : num * num;
  berChart : num * num;
  latencyChart : num * num;
  retriesChart : num * num;
}.

(** [renderCharts()]: what is drawn on each of the four canvases. *)
Definition renderCharts (els : Canvases) (history : list Sample) :
  list canvas_call * list canvas_call * list canvas_call * list canvas_call :=
  let maxPoints := 120%nat in
  let slice := slice_last maxPoints history in
  let xs := indices slice in
  (drawChart (fst (snrChart els)) (snd (snrChart els)) xs
     (map (fun s => Fin (snr_db s)) slice)
     {| color := "#60a5fa"; label := "SNR"; log := false; min := None |},
   drawChart (fst (berChart els)) (snd (berChart els)) xs
     (map (fun s => Fin (ber s)) slice)
     {| color := "#fbbf24"; label := "BER"; log := true;
        min := Some (Fin 0.000000001) |},
   drawChart (fst (latencyChart els)) (snd (latencyChart els)) xs
     (map (fun s => Fin (latency_ms s)) slice)
     {| color := "#34d399"; label := "Latency"; log := false; min := None |},
   drawChart (fst (retriesChart els)) (snd (retriesChart els)) xs
     (map (fun s => Fin (retries s)) slice)
     {| color := "#f87171"; label := "Retries"; log := false; min := None |}).
End Charts.

(** ** Properties of the charts *)

(** A point is drawn inside the frame: the rectangle ten pixels in from
    the edges of a canvas [W] wide and [H] high. *)
Definition in_frame (W H : Q) (call : canvas_call) : Prop :=
  match call with
  | moveTo x y | lineTo x y =>
      exists px py,
        x = Fin px /\ y = Fin py
        /\ (10 <= px /\ px <= W - 10) /\ (10 <= py /\ py <= H - 10)
  | _ => True
  end.

Lemma Math_min_fold (l : list Q) :
  forall a : Q,
  exists m,
    fold_left Math_min (map Fin l) (Fin a) = Fin m
    /\ m <= a /\ Forall (fun q => m <= q) l.
Proof.
  induction l as [|x l IH]; intros a; cbn [map fold_left].
  - exists a. split; [reflexivity|]. split; [lra|constructor].
  - change (Math_min (Fin a) (Fin x))
      with (if Qltb x a then Fin x else Fin a).
    destruct (Qltb x a) eqn:E.
    + apply Qltb_lt in E. destruct (IH x) as [m [Hm [Hle Hall]]].
      exists m. split; [exact Hm|]. split; [lra|].
      constructor; assumption.
    + apply Qltb_ge in E. destruct (IH a) as [m [Hm [Hle Hall]]].
      exists m. split; [exact Hm|]. split; [lra|].
      constructor; [lra|assumption].
Qed.

Lemma Math_max_fold (l : list Q) :
  forall a : Q,
  exists m,
    fold_left Math_max (map Fin l) (Fin a) = Fin m
    /\ a <= m /\ Forall (fun q => q <= m) l.
Proof.
  induction l as [|x l IH]; intros a; cbn [map fold_left].
  - exists a. split; [reflexivity|]. split; [lra|constructor].
  - change (Math_max (Fin a) (Fin x))
      with (if Qltb a x then Fin x else Fin a).
    destruct (Qltb a x) eqn:E.
    + apply Qltb_lt in E. destruct (IH x) as [m [Hm [Hle Hall]]].
      exists m. split; [exact Hm|]. split; [lra|].
      constructor; assumption.
    + apply Qltb_ge in E. destruct (IH a) as [m [Hm [Hle Hall]]].
      exists m. split; [exact Hm|]. split; [lra|].
      constructor; [lra|assumption].
Qed.

(** The least and the greatest of a non-empty array of reals. *)
Lemma Math_min_max_of (x : Q) (l : list Q) :
  exists lo hi,
    Math_min_of (map Fin (x :: l)) = Fin lo
    /\ Math_max_of (map Fin (x :: l)) = Fin hi
    /\ Forall (fun q => lo <= q /\ q <= hi) (x :: l).
Proof.
  unfold Math_min_of, Math_max_of. cbn [map fold_left].
  change (Math_min PosInf (Fin x)) with (Fin x).
  change (Math_max NegInf (Fin x)) with (Fin x).
  destruct (Math_min_fold l x) as [lo [Hlo [Hle1 Hall1]]].
  destruct (Math_max_fold l x) as [hi [Hhi [Hle2 Hall2]]].
  exists lo, hi. split; [exact Hlo|]. split; [exact Hhi|].
  constructor; [lra|].
  rewrite Forall_forall in Hall1, Hall2 |- *. intros q Hq.
  split; [apply Hall1|apply Hall2]; exact Hq.
Qed.

Lemma indices_from {A : Type} (l : list A) :
  forall (start i : nat),
    (i < List.length l)%nat ->
    nth_error
      (forEach_from (fun (_ : A) idx => Fin (inject_Z (Z.of_nat idx))) start l)
      i
    = Some (Fin (inject_Z (Z.of_nat (start + i)))).
Proof.
  induction l as [|x l IH]; intros start i Hi; [simpl in Hi; lia|].
  destruct i as [|i]; cbn [forEach_from nth_error].
  - rewrite Nat.add_0_r. reflexivity.
  - rewrite IH by (simpl in Hi; lia). do 3 f_equal. lia.
Qed.

Lemma indices_length {A : Type} (l : list A) :
  List.length (indices l) = List.length l.
Proof.
  unfold indices. generalize O.
  induction l as [|x l IH]; intros n; simpl; [reflexivity|].
  rewrite IH. reflexivity.
Qed.

Lemma element_indices {A : Type} (l : list A) (i : nat) :
  (i < List.length l)%nat ->
  element (indices l) i = Fin (inject_Z (Z.of_nat i)).
Proof.
  intros Hi. unfold element, indices. rewrite indices_from by exact Hi.
  reflexivity.
Qed.

Lemma forEach_from_length {A B : Type} (f : A -> nat -> B) (l : list A) :
  forall idx, List.length (forEach_from f idx l) = List.length l.
Proof.
  induction l as [|x l IH]; intros idx; simpl; [reflexivity|].
  rewrite IH. reflexivity.
Qed.

Section ChartProperties.
Variable log10 : Q -> Q.

(** The value plotted for [q]: [q], or on a logarithmic chart the
    logarithm of [q] raised to [epsilon]. *)
Definition plotted (logarithmic : bool) (epsilon q : Q) : Q :=
  if logarithmic then log10 (if Qltb q epsilon then epsilon else q) else q.

Lemma plotted_real (options : ChartOptions) (epsilon q : Q) :
  (log options = true ->
   or_else (min options) (Fin 0.000000001) = Fin epsilon /\ 0 < epsilon) ->
  (if log options
   then Math_log10 log10
          (Math_max (Fin q) (or_else (min options) (Fin 0.000000001)))
   else Fin q)
  = Fin (plotted (log options) epsilon q).
Proof.
  intros H. unfold plotted. destruct (log options); [|reflexivity].
  destruct (H eq_refl) as [-> He].
  change (Math_max (Fin q) (Fin epsilon))
    with (if Qltb q epsilon then Fin epsilon else Fin q).
  destruct (Qltb q epsilon) eqn:E; unfold Math_log10.
  - destruct (Qltb epsilon 0) eqn:E1; [apply Qltb_lt in E1; lra|].
    destruct (Qeq_bool epsilon 0) eqn:E2;
      [apply Qeq_bool_iff in E2; lra|reflexivity].
  - apply Qltb_ge in E.
    destruct (Qltb q 0) eqn:E1; [apply Qltb_lt in E1; lra|].
    destruct (Qeq_bool q 0) eqn:E2;
      [apply Qeq_bool_iff in E2; lra|reflexivity].
Qed.

Lemma chart_point_in_frame
    (W H : Q) (xs : list num) (options : ChartOptions)
    (lo hi last epsilon q : Q) (idx : nat) :
  20 <= W -> 20 <= H ->
  (log options = true ->
   or_else (min options) (Fin 0.000000001) = Fin epsilon /\ 0 < epsilon) ->
  element xs idx = Fin (inject_Z (Z.of_nat idx)) ->
  inject_Z (Z.of_nat idx) <= last ->
  lo <= plotted (log options) epsilon q ->
  plotted (log options) epsilon q <= hi ->
  in_frame W H
    (chart_point log10 (Fin W) (Fin H) xs options (Fin lo) (Fin hi)
       (Fin 0) (Fin last) (Fin 10) (Fin q) idx).
Proof.
  intros HW HH Heps Hx Hlast Hlo Hhi. unfold chart_point. cbv zeta.
  rewrite Hx, (plotted_real options epsilon q Heps).
  set (v := plotted (log options) epsilon q) in *.
  set (i := inject_Z (Z.of_nat idx)) in *.
  assert (Hi : 0 <= i).
  { unfold i. change 0 with (inject_Z 0). rewrite <- Zle_Qle. lia. }
  cbn [sub].
  change (Math_max (Fin 1) (Fin (last - 0)))
    with (if Qltb 1 (last - 0) then Fin (last - 0) else Fin 1).
  change (Math_max (Fin 0.000001) (Fin (hi - lo)))
    with (if Qltb 0.000001 (hi - lo) then Fin (hi - lo) else Fin 0.000001).
  assert (Hdx : exists dx,
             (if Qltb 1 (last - 0) then Fin (last - 0) else Fin 1) = Fin dx
             /\ 0 < dx /\ i - 0 <= dx).
  { destruct (Qltb 1 (last - 0)) eqn:E; eexists; (split; [reflexivity|]).
    - apply Qltb_lt in E. lra.
    - apply Qltb_ge in E. lra. }
  assert (Hdy : exists dy,
             (if Qltb 0.000001 (hi - lo) then Fin (hi - lo)
              else Fin 0.000001) = Fin dy
             /\ 0 < dy /\ v - lo <= dy).
  { destruct (Qltb 0.000001 (hi - lo)) eqn:E; eexists;
      (split; [reflexivity|]).
    - apply Qltb_lt in E. lra.
    - apply Qltb_ge in E. lra. }
  destruct Hdx as [dx [-> [Hdx0 Hdx1]]].
  destruct Hdy as [dy [-> [Hdy0 Hdy1]]].
  cbn [div].
  assert (Ex : Qeq_bool dx 0 = false).
  { apply Bool.not_true_iff_false. rewrite Qeq_bool_iff. lra. }
  assert (Ey : Qeq_bool dy 0 = false).
  { apply Bool.not_true_iff_false. rewrite Qeq_bool_iff. lra. }
  rewrite Ex, Ey. cbn [mul sub add].
  assert (Hxn : 0 <= (i - 0) / dx /\ (i - 0) / dx <= 1).
  { split.
    - apply Qle_shift_div_l; [exact Hdx0|]. lra.
    - apply Qle_shift_div_r; [exact Hdx0|]. lra. }
  assert (Hyn : 0 <= (v - lo) / dy /\ (v - lo) / dy <= 1).
  { split.
    - apply Qle_shift_div_l; [exact Hdy0|]. lra.
    - apply Qle_shift_div_r; [exact Hdy0|]. lra. }
  revert Hxn Hyn.
  generalize ((i - 0) / dx) as xn, ((v - lo) / dy) as yn.
  intros xn yn Hxn Hyn.
  destruct (Nat.eqb idx 0); simpl; do 2 eexists;
    (split; [reflexivity|]); (split; [reflexivity|]); split; split; nra.
Qed.

Lemma chart_points_in_frame
    (W H : Q) (xs : list num) (options : ChartOptions)
    (lo hi last epsilon : Q) (l : list Q) :
  20 <= W -> 20 <= H ->
  (log options = true ->
   or_else (min options) (Fin 0.000000001) = Fin epsilon /\ 0 < epsilon) ->
  Forall (fun q => lo <= plotted (log options) epsilon q
                   /\ plotted (log options) epsilon q <= hi) l ->
  forall idx : nat,
    (forall i, (idx <= i < idx + List.length l)%nat ->
               element xs i = Fin (inject_Z (Z.of_nat i))
               /\ inject_Z (Z.of_nat i) <= last) ->
    Forall (in_frame W H)
      (forEach_from
         (chart_point log10 (Fin W) (Fin H) xs options (Fin lo) (Fin hi)
            (Fin 0) (Fin last) (Fin 10))
         idx (map Fin l)).
Proof.
  intros HW HH Heps Hall.
  induction Hall as [|q l [Hlo Hhi] _ IH]; intros idx Hxs;
    cbn [map forEach_from]; constructor.
  - destruct (Hxs idx) as [Hx Hl]; [simpl; lia|].
    apply (chart_point_in_frame W H xs options lo hi last epsilon q idx);
      assumption.
  - apply IH. intros i Hi. apply Hxs. simpl. lia.
Qed.
End ChartProperties.

Lemma indices_same_length {A B : Type} (l : list A) (l' : list B) :
  List.length l = List.length l' -> indices l = indices l'.
Proof.
  unfold indices. generalize O. revert l'.
  induction l as [|x l IH]; intros [|y l'] n Hlen;
    try discriminate Hlen; [reflexivity|].
  cbn [forEach_from]. f_equal. apply IH. simpl in Hlen. lia.
Qed.

Lemma array_truthy {A : Type} (l : list A) :
  l <> [] -> negb (to_boolean (array_length l)) = false.
Proof.
  intros Hne. destruct l as [|x l]; [congruence|].
  unfold array_length, to_boolean, num_ToBoolean.
  rewrite array_length_nonzero. reflexivity.
Qed.

Lemma drawChart_frame
    (log10 : Q -> Q) (W H : Q) (qs : list Q) (options : ChartOptions)
    (epsilon : Q) :
  20 <= W -> 20 <= H ->
  (log options = true ->
   or_else (min options) (Fin 0.000000001) = Fin epsilon /\ 0 < epsilon) ->
  Forall (in_frame W H)
    (drawChart log10 (Fin W) (Fin H) (indices qs) (map Fin qs) options)
  /\ List.length
       (drawChart log10 (Fin W) (Fin H) (indices qs) (map Fin qs) options)
     = match qs with
       | [] => 3%nat
       | _ => (13 + List.length qs)%nat
       end.
Proof.
  intros HW HH Heps. destruct qs as [|x l].
  { split; [|reflexivity]. repeat constructor. }
  split.
  2:{ unfold drawChart. cbv zeta.
      rewrite (array_truthy (map Fin (x :: l))) by discriminate.
      cbv iota.
      rewrite !length_app, forEach_from_length, length_map.
      cbn [List.length]. lia. }
  unfold drawChart. cbv zeta.
  rewrite (array_truthy (map Fin (x :: l))) by discriminate. cbv iota.
  assert (HyVals :
            (if log options
             then map (fun v => Math_log10 log10
                                  (Math_max v (or_else (min options)
                                                 (Fin 0.000000001))))
                    (map Fin (x :: l))
             else map Fin (x :: l))
            = map Fin (map (plotted log10 (log options) epsilon) (x :: l))).
  { rewrite !map_map.
    transitivity
      (map (fun q =>
              if log options
              then Math_log10 log10
                     (Math_max (Fin q) (or_else (min options)
                                          (Fin 0.000000001)))
              else Fin q) (x :: l)).
    - destruct (log options); reflexivity.
    - apply map_ext. intros q. apply plotted_real. exact Heps. }
  rewrite HyVals. cbn [map].
  destruct (Math_min_max_of (plotted log10 (log options) epsilon x)
              (map (plotted log10 (log options) epsilon) l))
    as [lo [hi [Hlo [Hhi Hall]]]].
  cbn [map] in Hlo, Hhi. rewrite Hlo, Hhi.
  unfold array_length. rewrite indices_length.
  unfold to_boolean, num_ToBoolean.
  rewrite array_length_nonzero. cbn [negb].
  rewrite element_indices by (simpl; lia).
  repeat (apply Forall_app; split);
    try (repeat constructor; fail).
  change (Fin x :: map Fin l) with (map Fin (x :: l)).
  apply (chart_points_in_frame log10 W H _ options lo hi _ epsilon (x :: l));
    try assumption.
  - change (plotted log10 (log options) epsilon x
            :: map (plotted log10 (log options) epsilon) l)
      with (map (plotted log10 (log options) epsilon) (x :: l)) in Hall.
    rewrite Forall_map in Hall. exact Hall.
  - intros i Hi. split.
    + apply element_indices. lia.
    + rewrite <- Zle_Qle. simpl List.length in *. lia.
Qed.

(** X26.  On a canvas at least 20 by 20, [drawChart] on the values [ys]
    against their indices draws every point inside the frame, ten pixels
    in from the edges, on a linear chart and on a logarithmic one whose
    floor is positive; it makes three calls when there is no value and
    thirteen plus one for each value otherwise. *)
Theorem drawChart_stays_in_frame
    (log10 : Q -> Q) (W H : Q) (ys : list Q) (options : ChartOptions)
    (epsilon : Q) :
  20 <= W -> 20 <= H ->
  (log options = true ->
   or_else (min options) (Fin 0.000000001) = Fin epsilon /\ 0 < epsilon) ->
  let calls :=
    drawChart log10 (Fin W) (Fin H) (indices ys) (map Fin ys) options in
  Forall (in_frame W H) calls
  /\ (ys = [] ->
      calls = [clearRect (Fin 0) (Fin 0) (Fin W) (Fin H);
               set_fillStyle "#475569";
               fillText "No data" (Fin 10) (Fin (H / 2))])
  /\ (ys <> [] -> List.length calls = (13 + List.length ys)%nat).
Proof.
  intros HW HH Heps. cbv zeta.
  destruct (drawChart_frame log10 W H ys options epsilon HW HH Heps)
    as [Hframe Hlen].
  split; [exact Hframe|]. split.
  - intros ->. reflexivity.
  - intros Hne. rewrite Hlen. destruct ys; [congruence|reflexivity].
Qed.

(** A canvas of at least 20 by 20 and calls that stay in its frame. *)
Definition drawn_in_frame (canvas : num * num) (calls : list canvas_call) :
  Prop :=
  exists W H,
    canvas = (Fin W, Fin H) /\ 20 <= W /\ 20 <= H
    /\ Forall (in_frame W H) calls.

Definition roomy (canvas : num * num) : Prop :=
  exists W H, canvas = (Fin W, Fin H) /\ 20 <= W /\ 20 <= H.

(** The calls [drawChart] makes for [n] samples. *)
Definition chart_calls (n : nat) : nat :=
  match n with
  | O => 3
  | _ => 13 + n
  end.

Lemma slice_last_length {A : Type} (n : nat) (l : list A) :
  n <> O -> List.length (slice_last n l) = Nat.min n (List.length l).
Proof.
  intros Hn. unfold slice_last. destruct n as [|n]; [congruence|].
  rewrite length_skipn. lia.
Qed.

Lemma slice_last_idempotent {A : Type} (n : nat) (l : list A) :
  slice_last n (slice_last n l) = slice_last n l.
Proof.
  destruct n as [|n]; [reflexivity|].
  apply slice_last_short. rewrite slice_last_length by discriminate. lia.
Qed.

(** One chart of [renderCharts]: in the frame, with a call for each of
    the samples plotted. *)
Lemma renderCharts_chart
    (log10 : Q -> Q) (W H : Q) (f : Sample -> Q) (slice : list Sample)
    (options : ChartOptions) (epsilon : Q) :
  20 <= W -> 20 <= H ->
  (log options = true ->
   or_else (min options) (Fin 0.000000001) = Fin epsilon /\ 0 < epsilon) ->
  let calls :=
    drawChart log10 (Fin W) (Fin H) (indices slice)
      (map (fun s => Fin (f s)) slice) options in
  Forall (in_frame W H) calls
  /\ List.length calls = chart_calls (List.length slice).
Proof.
  intros HW HH Heps. cbv zeta.
  assert (Hxs : indices slice = indices (map f slice)).
  { apply indices_same_length. rewrite length_map. reflexivity. }
  assert (Hys : map (fun s => Fin (f s)) slice = map Fin (map f slice)).
  { rewrite map_map. reflexivity. }
  rewrite Hxs, Hys.
  destruct (drawChart_frame log10 W H (map f slice) options epsilon
              HW HH Heps) as [Hframe Hlen].
  split; [exact Hframe|].
  rewrite Hlen. destruct slice as [|s slice]; [reflexivity|].
  cbn [map List.length chart_calls]. rewrite length_map. reflexivity.
Qed.

(** X27.  On four canvases of at least 20 by 20, [renderCharts] draws
    every point of the four charts inside the frame of its canvas, for
    every history of real-valued samples, the BER chart on its logarithmic
    scale included.  Each of the four charts plots the last 120 samples
    and no other: it makes three calls on an empty history and thirteen
    plus one for each of the last 120 samples otherwise, and what is drawn
    for a history is what is drawn for its last 120 samples alone. *)
Theorem renderCharts_stays_in_frame
    (log10 : Q -> Q) (els : Canvases) (history : list Sample) :
  roomy (snrChart els) -> roomy (berChart els) ->
  roomy (latencyChart els) -> roomy (retriesChart els) ->
  let '(snr_calls, ber_calls, latency_calls, retries_calls) :=
    renderCharts log10 els history in
  let plotted_samples := Nat.min 120 (List.length history) in
  (drawn_in_frame (snrChart els) snr_calls
   /\ List.length snr_calls = chart_calls plotted_samples)
  /\ (drawn_in_frame (berChart els) ber_calls
      /\ List.length ber_calls = chart_calls plotted_samples)
  /\ (drawn_in_frame (latencyChart els) latency_calls
      /\ List.length latency_calls = chart_calls plotted_samples)
  /\ (drawn_in_frame (retriesChart els) retries_calls
      /\ List.length retries_calls = chart_calls plotted_samples)
  /\ renderCharts log10 els (slice_last 120 history)
     = (snr_calls, ber_calls, latency_calls, retries_calls)
  /\ forall old recent : list Sample,
       history = (old ++ recent)%list -> List.length recent = 120%nat ->
       renderCharts log10 els recent
       = (snr_calls, ber_calls, latency_calls, retries_calls).
Proof.
  intros (W1 & H1 & E1 & HW1 & HH1) (W2 & H2 & E2 & HW2 & HH2)
    (W3 & H3 & E3 & HW3 & HH3) (W4 & H4 & E4 & HW4 & HH4).
  assert (Hsame : renderCharts log10 els (slice_last 120 history)
                  = renderCharts log10 els history).
  { unfold renderCharts. cbv zeta. rewrite slice_last_idempotent.
    reflexivity. }
  assert (Hrecent : forall old recent : list Sample,
             history = (old ++ recent)%list ->
             List.length recent = 120%nat ->
             renderCharts log10 els recent = renderCharts log10 els history).
  { intros old recent -> Hlen. unfold renderCharts. cbv zeta.
    rewrite (slice_last_app old recent 120) by (discriminate || exact Hlen).
    rewrite (slice_last_short recent 120) by lia. reflexivity. }
  revert Hsame Hrecent.
  destruct (renderCharts log10 els history)
    as [[[snr_calls ber_calls] latency_calls] retries_calls] eqn:Er.
  intros Hsame Hrecent.
  unfold renderCharts in Er. cbv zeta in Er.
  rewrite E1, E2, E3, E4 in Er. cbn [fst snd] in Er.
  injection Er as <- <- <- <-.
  cbv zeta. rewrite <- (slice_last_length 120 history) by discriminate.
  set (slice := slice_last 120 history).
  split; [|split; [|split; [|split; [|split]]]].
  - destruct (renderCharts_chart log10 W1 H1 snr_db slice
                {| color := "#60a5fa"; label := "SNR"; log := false;
                   min := None |} 0 HW1 HH1 ltac:(discriminate))
      as [Hframe Hlen].
    split; [|exact Hlen]. exists W1, H1. repeat split; assumption.
  - destruct (renderCharts_chart log10 W2 H2 ber slice
                {| color := "#fbbf24"; label := "BER"; log := true;
                   min := Some (Fin 0.000000001) |} 0.000000001 HW2 HH2)
      as [Hframe Hlen].
    { intros _. split; [reflexivity|lra]. }
    split; [|exact Hlen]. exists W2, H2. repeat split; assumption.
  - destruct (renderCharts_chart log10 W3 H3 latency_ms slice
                {| color := "#34d399"; label := "Latency"; log := false;
                   min := None |} 0 HW3 HH3 ltac:(discriminate))
      as [Hframe Hlen].
    split; [|exact Hlen]. exists W3, H3. repeat split; assumption.
  - destruct (renderCharts_chart log10 W4 H4 retries slice
                {| color := "#f87171"; label := "Retries"; log := false;
                   min := None |} 0 HW4 HH4 ltac:(discriminate))
      as [Hframe Hlen].
    split; [|exact Hlen]. exists W4, H4. repeat split; assumption.
  - exact Hsame.
  - exact Hrecent.
Qed.

(** A linear chart of three values on a canvas of 300 by 150. *)
Definition linear_options : ChartOptions := {|
  color := "#60a5fa";
  label := "SNR";
  log := false;
  min := None;
|}.

Lemma drawChart_stays_in_frame_witness :
  let calls :=
    drawChart (fun q => q) (Fin 300) (Fin 150) (indices [1; 2; 3])
      (map Fin [1; 2; 3]) linear_options in
  Forall (in_frame 300 150) calls
  /\ ([1; 2; 3] = [] ->
      calls = [clearRect (Fin 0) (Fin 0) (Fin 300) (Fin 150);
               set_fillStyle "#475569";
               fillText "No data" (Fin 10) (Fin (150 / 2))])
  /\ ([1; 2; 3] <> [] -> List.length calls = (13 + 3)%nat).
Proof.
  apply (drawChart_stays_in_frame (fun q => q) 300 150 [1; 2; 3]
           linear_options 0).
  - lra.
  - lra.
  - discriminate.
Defined.

Definition four_canvases : Canvases := {|
  snrChart := (Fin 300, Fin 150);
  berChart := (Fin 300, Fin 150);
  latencyChart := (Fin 300, Fin 150);
  retriesChart := (Fin 300, Fin 150);
|}.

Lemma four_canvases_roomy : roomy (Fin 300, Fin 150).
Proof. exists 300, 150. repeat split; lra. Qed.

Lemma renderCharts_stays_in_frame_witness :
  let history := [nominal_sample; nominal_sample] in
  let '(snr_calls, ber_calls, latency_calls, retries_calls) :=
    renderCharts (fun q => q) four_canvases history in
  let plotted_samples := Nat.min 120 (List.length history) in
  (drawn_in_frame (snrChart four_canvases) snr_calls
   /\ List.length snr_calls = chart_calls plotted_samples)
  /\ (drawn_in_frame (berChart four_canvases) ber_calls
      /\ List.length ber_calls = chart_calls plotted_samples)
  /\ (drawn_in_frame (latencyChart four_canvases) latency_calls
      /\ List.length latency_calls = chart_calls plotted_samples)
  /\ (drawn_in_frame (retriesChart four_canvases) retries_calls
      /\ List.length retries_calls = chart_calls plotted_samples)
  /\ renderCharts (fun q => q) four_canvases (slice_last 120 history)
     = (snr_calls, ber_calls, latency_calls, retries_calls)
  /\ forall old recent : list Sample,
       history = (old ++ recent)%list -> List.length recent = 120%nat ->
       renderCharts (fun q => q) four_canvases recent
       = (snr_calls, ber_calls, latency_calls, retries_calls).
Proof.
  apply (renderCharts_stays_in_frame (fun q => q) four_canvases
           [nominal_sample; nominal_sample]);
    exact four_canvases_roomy.
Defined.

(** * From an outage to the diagnosis *)

(** X28.  Whatever the configuration, a sample tagged [sync_loss] has a
    BER in [[0.1, 0.5]]: the outage overwrites what the faults before it
    did to the BER, and no fault after it acts. *)
Theorem outage_sample_ber
    (pow10 : Q -> Q) (this : CommLinkSimulator) (g : rng) :
  uniform_range g ->
  let s := fst (fst (step pow10 this g)) in
  In FaultType.SYNC_LOSS (active_faults s) ->
  0.1 <= ber s /\ ber s <= 0.5.
Proof.
  intros Hu. cbv zeta. step_cases;
    cbn [active_faults push app ber advance uniform_tape cursor];
    intros H;
    try (exfalso; simpl in H; intuition discriminate);
    clear H;
    match goal with
    | |- context [0.8 * uniform_tape g ?i] =>
        destruct (Hu i) as [H0 H1];
        destruct (outage_ber_range _ H0 H1) as [Hlo _]
    end;
    (split; [exact Hlo|apply Q.le_min_r]).
Qed.

Lemma outage_sample_ber_witness :
  let s := fst (fst (step (fun _ => 1)
                       (setFaultConfig new_CommLinkSimulator outage_config)
                       sample_rng)) in
  0.1 <= ber s /\ ber s <= 0.5.
Proof.
  apply (outage_sample_ber (fun _ => 1)
           (setFaultConfig new_CommLinkSimulator outage_config) sample_rng
           sample_rng_range).
  vm_compute. tauto.
Defined.

(** X29.  A window that holds a sample with a BER of 0.1 or more, as every
    sample of an outage is, is never diagnosed [healthy]; on it the
    sync-loss rule fires exactly when the SNR mean is at least the
    moderate band. *)
Theorem outage_window_not_healthy
    (root : Q -> Q) (history : list Sample) (windowSize : nat) (s : Sample) :
  In s (slice_last windowSize history) ->
  0.1 <= ber s ->
  let w := windowFrom root history windowSize in
  healthy_rule new_DiagnosticEngine w = false
  /\ (sync_loss_rule new_DiagnosticEngine w = true
      <-> geb (snr_mean w) (Fin 12.0) = true)
  /\ exists d : Diagnosis,
       fst (diagnose new_DiagnosticEngine w) = Returns d
       /\ primary_cause d <> HEALTHY.
Proof.
  intros Hin Hber. cbv zeta.
  assert (Hmax : exists m,
             ber_max (windowFrom root history windowSize) = Fin m
             /\ 0.1 <= m).
  { unfold windowFrom. cbn [ber_max].
    destruct (slice_last windowSize history) as [|s0 slice];
      [contradiction|].
    rewrite <- (map_map ber Fin). cbn [map].
    destruct (maxVal_cons (ber s0) (map ber slice)) as [m [Hm [_ Hall]]].
    exists m. split; [exact Hm|].
    rewrite Forall_forall in Hall.
    apply Qle_trans with (ber s); [exact Hber|].
    apply Hall. change (In (ber s) (map ber (s0 :: slice))).
    apply in_map. exact Hin. }
  destruct Hmax as [m [Hm Hge]].
  assert (Hh : healthy_rule new_DiagnosticEngine
                 (windowFrom root history windowSize) = false).
  { unfold healthy_rule. thresholds. rewrite Hm.
    change (ltb (Fin m) (Fin 0.00001)) with (Qltb m 0.00001).
    rewrite (proj2 (Qltb_ge m 0.00001)) by lra.
    rewrite Bool.andb_false_r. reflexivity. }
  split; [exact Hh|]. split.
  - unfold sync_loss_rule. thresholds. rewrite Hm.
    change (gtb (Fin m) (Fin 0.05)) with (Qltb 0.05 m).
    rewrite (proj2 (Qltb_lt 0.05 m)) by lra.
    rewrite Bool.andb_true_l. reflexivity.
  - destruct (primary_contributes new_DiagnosticEngine
                (windowFrom root history windowSize))
      as (d & ev & Hd & _ & _ & Hc & Hev & _).
    exists d. rewrite Hd. split; [reflexivity|].
    intros HH. apply contributes_cause in Hev. rewrite Hc, HH in Hev.
    congruence.
Qed.

(** A sample of an outage. *)
Definition outage_sample : Sample := {|
  sample_t := 2;
  snr_db := 25.3;
  ber := 0.5;
  latency_ms := 231.0;
  retries := 8;
  active_faults := [FaultType.SYNC_LOSS];
|}.

Lemma outage_window_not_healthy_witness :
  let w := windowFrom (fun q => q) [nominal_sample; outage_sample] 20 in
  healthy_rule new_DiagnosticEngine w = false
  /\ (sync_loss_rule new_DiagnosticEngine w = true
      <-> geb (snr_mean w) (Fin 12.0) = true)
  /\ exists d : Diagnosis,
       fst (diagnose new_DiagnosticEngine w) = Returns d
       /\ primary_cause d <> HEALTHY.
Proof.
  apply (outage_window_not_healthy (fun q => q)
           [nominal_sample; outage_sample] 20 outage_sample).
  - right. left. reflexivity.
  - simpl. lra.
Defined.

(** * Where the two simulators agree

    [Binary64.step] against [step]: as long as every sum, product and
    power stays below [2 ^ 1024] in magnitude, each operation on doubles
    gives the real that the operation on reals gives, and the two samples
    are the same. *)

(** [a] is the real [q], of magnitude [B] at most. *)
Definition real_within (B : Q) (a : num) (q : Q) : Prop :=
  exists q' : Q, a = Fin q' /\ q' == q /\ Qabs q <= B.

Lemma real_within_same (B : Q) (a : num) (q : Q) :
  real_within B a q -> same a (Fin q).
Proof. intros [q' [-> [H _]]]. exact H. Qed.

Lemma fit_in_range (q B : Q) :
  Qabs q <= B -> B < Binary64.overflow_threshold -> Binary64.fit q = Fin q.
Proof.
  intros Hq HB. unfold Binary64.fit.
  destruct (Qle_bool Binary64.overflow_threshold (Qabs q)) eqn:E;
    [|reflexivity].
  apply Qle_bool_iff in E. lra.
Qed.

Lemma constant_real (c : Q) : real_within (Qabs c) (Fin c) c.
Proof.
  exists c. split; [reflexivity|]. split; [reflexivity|apply Qle_refl].
Qed.

Lemma positive_real (q B : Q) :
  Qltb 0 q = true -> q <= B -> real_within B (Fin q) q.
Proof.
  intros Hpos HB. apply Qltb_lt in Hpos. exists q.
  split; [reflexivity|]. split; [reflexivity|]. rewrite Qabs_pos; lra.
Qed.

Lemma add_real (B1 B2 : Q) (a b : num) (q1 q2 : Q) :
  real_within B1 a q1 -> real_within B2 b q2 ->
  B1 + B2 < Binary64.overflow_threshold ->
  real_within (B1 + B2) (Binary64.add a b) (q1 + q2).
Proof.
  intros [x [-> [Hx Hb1]]] [y [-> [Hy Hb2]]] HB.
  assert (Hsum : Qabs (q1 + q2) <= B1 + B2).
  { eapply Qle_trans; [apply Qabs_triangle|]. lra. }
  exists (x + y). unfold Binary64.add. cbn [JS.add Binary64.in_range].
  rewrite (fit_in_range (x + y) (B1 + B2)); [| |exact HB].
  - split; [reflexivity|]. split; [rewrite Hx, Hy; reflexivity|exact Hsum].
  - rewrite Hx, Hy. exact Hsum.
Qed.

Lemma sub_real (B1 B2 : Q) (a b : num) (q1 q2 : Q) :
  real_within B1 a q1 -> real_within B2 b q2 ->
  B1 + B2 < Binary64.overflow_threshold ->
  real_within (B1 + B2) (Binary64.sub a b) (q1 - q2).
Proof.
  intros [x [-> [Hx Hb1]]] [y [-> [Hy Hb2]]] HB.
  assert (Hsum : Qabs (q1 - q2) <= B1 + B2).
  { unfold Qminus. eapply Qle_trans; [apply Qabs_triangle|].
    rewrite Qabs_opp. lra. }
  exists (x - y). unfold Binary64.sub. cbn [JS.sub Binary64.in_range].
  rewrite (fit_in_range (x - y) (B1 + B2)); [| |exact HB].
  - split; [reflexivity|]. split; [rewrite Hx, Hy; reflexivity|exact Hsum].
  - rewrite Hx, Hy. exact Hsum.
Qed.

Lemma mul_real (B1 B2 : Q) (a b : num) (q1 q2 : Q) :
  real_within B1 a q1 -> real_within B2 b q2 ->
  B1 * B2 < Binary64.overflow_threshold ->
  real_within (B1 * B2) (Binary64.mul a b) (q1 * q2).
Proof.
  intros [x [-> [Hx Hb1]]] [y [-> [Hy Hb2]]] HB.
  assert (Hprod : Qabs (q1 * q2) <= B1 * B2).
  { rewrite Qabs_Qmult.
    pose proof (Qabs_nonneg q1). pose proof (Qabs_nonneg q2).
    revert Hb1 Hb2 H H0. generalize (Qabs q1) (Qabs q2). intros u v.
    intros. nra. }
  exists (x * y). unfold Binary64.mul. cbn [JS.mul Binary64.in_range].
  rewrite (fit_in_range (x * y) (B1 * B2)); [| |exact HB].
  - split; [reflexivity|]. split; [rewrite Hx, Hy; reflexivity|exact Hprod].
  - rewrite Hx, Hy. exact Hprod.
Qed.

Lemma Math_max_real (B1 B2 : Q) (a b : num) (q1 q2 : Q) :
  real_within B1 a q1 -> real_within B2 b q2 ->
  real_within (B1 + B2) (Math_max a b) (Qmax q1 q2).
Proof.
  intros [x [-> [Hx Hb1]]] [y [-> [Hy Hb2]]].
  pose proof (Qabs_nonneg q1). pose proof (Qabs_nonneg q2).
  assert (Hbound : Qabs (Qmax q1 q2) <= B1 + B2).
  { destruct (Q.max_spec q1 q2) as [[_ ->]|[_ ->]]; lra. }
  unfold Math_max, ltb. destruct (Qltb x y) eqn:E.
  - apply Qltb_lt in E. exists y. split; [reflexivity|]. split; [|exact Hbound].
    rewrite Q.max_r; lra.
  - apply Qltb_ge in E. exists x. split; [reflexivity|]. split; [|exact Hbound].
    rewrite Q.max_l; lra.
Qed.

Lemma Math_min_real (B1 B2 : Q) (a b : num) (q1 q2 : Q) :
  real_within B1 a q1 -> real_within B2 b q2 ->
  real_within (B1 + B2) (Math_min a b) (Qmin q1 q2).
Proof.
  intros [x [-> [Hx Hb1]]] [y [-> [Hy Hb2]]].
  pose proof (Qabs_nonneg q1). pose proof (Qabs_nonneg q2).
  assert (Hbound : Qabs (Qmin q1 q2) <= B1 + B2).
  { destruct (Q.min_spec q1 q2) as [[_ ->]|[_ ->]]; lra. }
  unfold Math_min, ltb. destruct (Qltb y x) eqn:E.
  - apply Qltb_lt in E. exists y. split; [reflexivity|]. split; [|exact Hbound].
    rewrite Q.min_r; lra.
  - apply Qltb_ge in E. exists x. split; [reflexivity|]. split; [|exact Hbound].
    rewrite Q.min_l; lra.
Qed.

Lemma Math_abs_real (B : Q) (a : num) (q : Q) :
  real_within B a q -> real_within B (Binary64.Math_abs a) (Qabs q).
Proof.
  intros [x [-> [Hx Hb]]]. exists (Qabs x).
  split; [reflexivity|]. split; [rewrite Hx; reflexivity|].
  rewrite Qabs_pos; [exact Hb|apply Qabs_nonneg].
Qed.

Lemma Math_round_real (B : Q) (a : num) (q : Q) :
  real_within B a q -> real_within (B + 1) (Math_round a) (Qround q).
Proof.
  intros [x [-> [Hx Hb]]]. exists (Qround x). unfold Qround in *.
  split; [reflexivity|]. split; [rewrite Hx; reflexivity|].
  pose proof (Qfloor_le (q + (1 # 2))) as Hle.
  pose proof (Qlt_floor (q + (1 # 2))) as Hlt.
  rewrite inject_Z_plus in Hlt. change (inject_Z 1) with 1 in Hlt.
  revert Hle Hlt. generalize (inject_Z (Qfloor (q + (1 # 2)))). intros z.
  intros. apply Qabs_Qle_condition.
  apply Qabs_Qle_condition in Hb. lra.
Qed.

Lemma closed_poisson_three :
  poisson 3
  = fun g => (inject_Z (Z.of_nat (poisson_tape g (cursor g))), advance g).
Proof. reflexivity. Qed.

Lemma closed_binary64_poisson_three :
  Binary64.poisson (Fin 3)
  = fun g =>
      (Fin (inject_Z (Z.of_nat (poisson_tape g (cursor g)))), advance g).
Proof. reflexivity. Qed.

(** [poisson] on a positive multiple of a level that is on. *)
Lemma poisson_level (c l : Q) :
  0 < c -> Qltb 0 l = true ->
  poisson (c * l)
  = fun g => (inject_Z (Z.of_nat (poisson_tape g (cursor g))), advance g).
Proof.
  intros Hc Hl. apply Qltb_lt in Hl. unfold poisson.
  destruct (Qle_bool (c * l) 0) eqn:E; [|reflexivity].
  apply Qle_bool_iff in E. nra.
Qed.

Lemma binary64_poisson_level (c l : Q) :
  0 < c -> c <= 10 -> Qltb 0 l = true -> l <= 3 ->
  Binary64.poisson (Binary64.mul (Fin c) (Fin l))
  = fun g =>
      (Fin (inject_Z (Z.of_nat (poisson_tape g (cursor g)))), advance g).
Proof.
  intros Hc Hc' Hl Hl'. pose proof Hl as Hpos. apply Qltb_lt in Hpos.
  unfold Binary64.mul. cbn [JS.mul Binary64.in_range].
  rewrite (fit_in_range (c * l) 30).
  - unfold Binary64.poisson, leb.
    destruct (Qle_bool (c * l) 0) eqn:E; [|reflexivity].
    apply Qle_bool_iff in E. nra.
  - rewrite Qabs_pos; nra.
  - vm_compute. reflexivity.
Qed.

Section Agreement.
(** [10 ** x]: a function of the number [x], between zero and [1e24] for
    an exponent of magnitude 23 at most. *)
Variable pow10 : Q -> Q.
Hypothesis pow10_number : forall x y : Q, x == y -> pow10 x == pow10 y.
Hypothesis pow10_range :
  forall x : Q,
    Qabs x <= 23 -> 0 <= pow10 x /\ pow10 x <= inject_Z (10 ^ 24).

Lemma power_of_ten_real (B : Q) (x : num) (q : Q) :
  real_within B x q -> B <= 23 ->
  real_within (inject_Z (10 ^ 24)) (Binary64.power_of_ten pow10 x) (pow10 q).
Proof.
  intros [q' [-> [Hq Hb]]] HB.
  assert (Hq' : Qabs q' <= 23) by (rewrite Hq; lra).
  destruct (pow10_range q' Hq') as [Hlo Hhi].
  pose proof Hq' as Hcond. apply Qabs_Qle_condition in Hcond.
  unfold Binary64.power_of_ten.
  destruct (Qle_bool 309 q') eqn:E1; [apply Qle_bool_iff in E1; lra|].
  destruct (Qle_bool q' (-324)) eqn:E2; [apply Qle_bool_iff in E2; lra|].
  rewrite (fit_in_range (pow10 q') (inject_Z (10 ^ 24))).
  - exists (pow10 q'). split; [reflexivity|].
    split; [apply pow10_number; exact Hq|].
    rewrite <- (pow10_number q' q Hq). rewrite Qabs_pos; assumption.
  - rewrite Qabs_pos; assumption.
  - vm_compute. reflexivity.
Qed.

(** The draws: normal draws of magnitude 9 at most, uniform draws in
    [[0, 1)], counts of [1e18] at most. *)
Variable g : rng.
Hypothesis normal_range : forall i : nat, Qabs (normal_tape g i) <= 9.
Hypothesis uniform_draws : uniform_range g.
Hypothesis count_range :
  forall i : nat, (Z.of_nat (poisson_tape g i) <= 10 ^ 18)%Z.

Lemma normal_real (i : nat) :
  real_within 9 (Fin (normal_tape g i)) (normal_tape g i).
Proof.
  exists (normal_tape g i). split; [reflexivity|].
  split; [reflexivity|apply normal_range].
Qed.

Lemma uniform_real (i : nat) :
  real_within 1 (Fin (uniform_tape g i)) (uniform_tape g i).
Proof.
  exists (uniform_tape g i). split; [reflexivity|]. split; [reflexivity|].
  destruct (uniform_draws i). rewrite Qabs_pos; lra.
Qed.

Lemma count_real (i : nat) :
  real_within (inject_Z (10 ^ 18))
    (Fin (inject_Z (Z.of_nat (poisson_tape g i))))
    (inject_Z (Z.of_nat (poisson_tape g i))).
Proof.
  eexists. split; [reflexivity|]. split; [reflexivity|].
  rewrite Qabs_pos.
  - rewrite <- Zle_Qle. apply count_range.
  - change 0 with (inject_Z 0). rewrite <- Zle_Qle. lia.
Qed.

Ltac closed_bound :=
  solve [vm_compute; reflexivity | vm_compute; discriminate].

(** Follows an expression of [Binary64.step] and the same expression of
    [step], operation by operation, with a bound on its magnitude. *)
Ltac real_arithmetic :=
  repeat match goal with
    | |- real_within _ (Fin (normal_tape _ _)) _ => apply normal_real
    | |- real_within _ (Fin (uniform_tape _ _)) _ => apply uniform_real
    | |- real_within _ (Fin (inject_Z _)) _ => apply count_real
    | |- real_within _ (Fin _) _ =>
        first [ eapply positive_real; [eassumption|eassumption]
              | apply constant_real ]
    | |- real_within _ (Binary64.add _ _) _ => eapply add_real
    | |- real_within _ (Binary64.sub _ _) _ => eapply sub_real
    | |- real_within _ (Binary64.mul _ _) _ => eapply mul_real
    | |- real_within _ (Math_max _ _) _ => eapply Math_max_real
    | |- real_within _ (Math_min _ _) _ => eapply Math_min_real
    | |- real_within _ (Binary64.Math_abs _) _ => eapply Math_abs_real
    | |- real_within _ (Math_round _) _ => eapply Math_round_real
    | |- real_within _ (Binary64.power_of_ten _ _) _ =>
        eapply power_of_ten_real
    end;
  closed_bound.

(** With the baselines of the constructor and levels of 3 at most, no
    result of a step leaves the range of a double, and the two simulators
    return the same sample. *)
Lemma steps_agree (this : CommLinkSimulator) :
  baseline_snr_db this = 25.0 ->
  baseline_ber this = 0.000001 ->
  baseline_latency_ms this = 20.0 ->
  baseline_retries this = 0 ->
  noise_spike_level (fault_config this) <= 3 ->
  jammer_level (fault_config this) <= 3 ->
  congestion_level (fault_config this) <= 3 ->
  fading_severity (fault_config this) <= 3 ->
  let s := fst (fst (step pow10 this g)) in
  let s' := fst (fst (Binary64.step pow10 this g)) in
  same (Binary64.snr_db s') (Fin (snr_db s))
  /\ same (Binary64.ber s') (Fin (ber s))
  /\ same (Binary64.latency_ms s') (Fin (latency_ms s))
  /\ same (Binary64.retries s') (Fin (retries s))
  /\ Binary64.active_faults s' = active_faults s
  /\ Binary64.sample_t s' = sample_t s.
Proof.
  intros Hsnr Hber Hlat Hret Hn Hj Hc Hf. cbv zeta.
  unfold step, Binary64.step, bind, randn, Math_random, ret.
  cbn [fault_config baseline_snr_db baseline_ber baseline_latency_ms
       baseline_retries gtb ltb].
  rewrite Hsnr, Hber, Hlat, Hret.
  rewrite closed_poisson_three, closed_binary64_poisson_three.
  repeat first
    [ progress cbn [fst snd negb]
    | progress rewrite ?Bool.andb_false_r, ?Bool.andb_true_r
    | rewrite poisson_level by first [assumption | lra]
    | rewrite binary64_poisson_level by first [assumption | lra]
    | match goal with
      | |- context [if ?c then _ else _] =>
          lazymatch c with
          | context [if _ then _ else _] => fail
          | _ => destruct c eqn:?
          end
      end ].
  all: cbn [advance normal_tape uniform_tape poisson_tape cursor
            snr_db ber latency_ms retries active_faults sample_t
            Binary64.snr_db Binary64.ber Binary64.latency_ms
            Binary64.retries Binary64.active_faults Binary64.sample_t t].
  all: repeat match goal with |- _ /\ _ => split end.
  all: try match goal with |- _ = _ => reflexivity end.
  all: eapply real_within_same; real_arithmetic.
Qed.

(** X31.  With the baselines of the constructor, levels of 3 at most (the
    range of the sliders, and below it), normal draws of magnitude 9 at
    most and counts of [1e18] at most, no result of a step leaves the range
    of a double, and the sample has its SNR in [[-5, 40]], its BER in
    [[1e-9, 0.5]], a latency of at least 1.0 and retries that are a
    non-negative integer. *)
Theorem slider_levels_stay_in_range (this : CommLinkSimulator) :
  baseline_snr_db this = 25.0 ->
  baseline_ber this = 0.000001 ->
  baseline_latency_ms this = 20.0 ->
  baseline_retries this = 0 ->
  noise_spike_level (fault_config this) <= 3 ->
  jammer_level (fault_config this) <= 3 ->
  congestion_level (fault_config this) <= 3 ->
  fading_severity (fault_config this) <= 3 ->
  let s := fst (fst (Binary64.step pow10 this g)) in
  within (-5) 40 (Binary64.snr_db s)
  /\ within 0.000000001 0.5 (Binary64.ber s)
  /\ (exists q : Q, Binary64.latency_ms s = Fin q /\ 1.0 <= q)
  /\ (exists n : Z,
        (0 <= n)%Z /\ Binary64.retries s = Fin (inject_Z n)).
Proof.
  intros Hsnr Hber Hlat Hret Hn Hj Hc Hf.
  pose proof (steps_agree this Hsnr Hber Hlat Hret Hn Hj Hc Hf) as Hagree.
  cbv zeta in *.
  destruct Hagree as (Es & Eb & El & Er & _).
  destruct (binary64_step_clipped pow10 this g)
    as (raw_snr & raw_ber & raw_latency & raw_retries
        & Hs & Hb & Hl & Hr).
  cbv zeta in *. rewrite Hs, Hb, Hl, Hr in *.
  split; [|split; [|split]].
  - destruct (range_clip (-5) 40 raw_snr ltac:(lra)) as [[E _]|H];
      [rewrite E in Es; destruct Es|exact H].
  - destruct (range_clip 0.000000001 0.5 raw_ber ltac:(lra)) as [[E _]|H];
      [rewrite E in Eb; destruct Eb|exact H].
  - destruct (latency_clip raw_latency) as [[E _]|[[E _]|H]];
      [rewrite E in El; destruct El|rewrite E in El; destruct El|exact H].
  - destruct (retries_clip raw_retries) as [[E _]|[[E _]|H]];
      [rewrite E in Er; destruct Er|rewrite E in Er; destruct Er|exact H].
Qed.
End Agreement.

Lemma slider_levels_stay_in_range_witness :
  let this := setFaultConfig new_CommLinkSimulator outage_config in
  let g := low_rng (fun _ => 1 # 2) (fun _ => 0%nat) in
  let s := fst (fst (Binary64.step (fun _ => 1) this g)) in
  within (-5) 40 (Binary64.snr_db s)
  /\ within 0.000000001 0.5 (Binary64.ber s)
  /\ (exists q : Q, Binary64.latency_ms s = Fin q /\ 1.0 <= q)
  /\ (exists n : Z,
        (0 <= n)%Z /\ Binary64.retries s = Fin (inject_Z n)).
Proof.
  apply (slider_levels_stay_in_range (fun _ => 1)).
  - intros x y _. reflexivity.
  - intros x _. split; [lra|]. vm_compute. discriminate.
  - intros i. simpl. vm_compute. discriminate.
  - intros i. simpl. split; lra.
  - intros i. simpl. lia.
  - reflexivity.
  - reflexivity.
  - reflexivity.
  - reflexivity.
  - simpl. lra.
  - simpl. lra.
  - simpl. lra.
  - simpl. lra.
Defined.
